(** * The pin-state matrix of [gpio_std.c]

    A shallow embedding of [PINS_createInstance] and [PINS_destroyInstance]
    (src/inc/gpio_std.c) over an explicit model of the C heap, and the
    properties of the pin-state matrix they build and tear down.

    Target: 32-bit ARM Cortex-M4 (ILP32): [size_t], [int] and every pointer
    are 4 bytes wide, so every array element and struct field of the source
    occupies one 4-byte slot. *)

From stdpp Require Import base gmap list.
From Stdlib Require Import ZArith Lia.

Open Scope Z_scope.

(** ** Constants of the source *)

Definition SUCCESS : Z := 0.
Definition EINVAL : Z := 22.
Definition NULL : Z := 0.

Definition GPIO_A : Z := 0.
Definition GPIO_B : Z := 1.
Definition GPIO_C : Z := 2.
Definition GPIO_D : Z := 3.
Definition MAX_PORTS : Z := 4.

Definition GPIO_OUT : Z := 0.
Definition GPIO_IN : Z := 1.
Definition GPIO_ALT : Z := 2.
Definition MAX_FUNC : Z := 3.

Definition GPIO_OFF : Z := 0.
Definition GPIO_ON : Z := 1.

(** [size_t] arithmetic wraps modulo 2^32. *)
Definition SIZE_MOD : Z := 2 ^ 32.
Definition size_mul (a b : Z) : Z := (a * b) mod SIZE_MOD.
Definition size_succ (a : Z) : Z := (a + 1) mod SIZE_MOD.

Definition WORD : Z := 4.
Definition sizeof_pins_t : Z := 8.
Definition sizeof_ptr : Z := WORD.
Definition sizeof_int : Z := WORD.

(** Field offsets of [pins_t], in slots. *)
Definition F_num_of_pins : Z := 0.
Definition F_pins : Z := 1.

(** ** The heap

    A block is the list of its 4-byte slots; a slot that was never written
    holds an indeterminate value ([None]), as [malloc] leaves it.  A pointer
    is the address of a block; the source only ever holds base pointers and
    indexes them, so an access is a pair (block, slot index).  Addresses are
    handed out in increasing order and never reused. *)

Abbreviation slot := (option Z).
Abbreviation block := (list (option Z)).

Inductive event : Type :=
| EvMalloc (bytes : Z) (p : Z)
| EvFree (p : Z)
| EvLoad (p : Z) (i : Z) (v : Z)
| EvStore (p : Z) (i : Z) (v : Z).

Record mem : Type := Mem {
  blocks : gmap Z block;     (* the live blocks *)
  next : Z;                  (* the next fresh address *)
  alloc_ok : nat → bool;     (* whether the k-th request to malloc succeeds *)
  nallocs : nat;             (* requests made so far *)
  trace : list event         (* heap operations performed so far *)
}.

Inductive fault : Type :=
| InvalidAccess     (* dereference of NULL, of a freed or of a wild pointer *)
| OutOfBounds       (* index past the end of the block *)
| UninitRead        (* use of an indeterminate value *)
| InvalidFree       (* free of something that is not a live block *)
| OutOfFuel.

Inductive res (A : Type) : Type :=
| Ok (a : A) (m : mem)
| Fault (f : fault) (m : mem).
Arguments Ok {A} a m.
Arguments Fault {A} f m.

Definition M (A : Type) : Type := mem → res A.

Definition ret {A} (a : A) : M A := fun m => Ok a m.
Definition bind {A B} (c : M A) (k : A → M B) : M B :=
  fun m => match c m with
           | Ok a m' => k a m'
           | Fault f m' => Fault f m'
           end.
Definition fail {A} (f : fault) : M A := fun m => Fault f m.

#[global] Instance M_ret : MRet M := @ret.
#[global] Instance M_bind : MBind M := fun A B k c => bind c k.

Definition log (e : event) (m : mem) : mem :=
  Mem (blocks m) (next m) (alloc_ok m) (nallocs m) (trace m ++ [e]).

Definition set_blocks (h : gmap Z block) (m : mem) : mem :=
  Mem h (next m) (alloc_ok m) (nallocs m) (trace m).

(** [malloc bytes]: the allocator either refuses (NULL) or hands out a fresh
    block of [bytes / 4] slots whose contents are indeterminate. *)
Definition malloc (bytes : Z) : M Z := fun m =>
  if alloc_ok m (nallocs m) then
    Ok (next m)
       (Mem (<[next m := replicate (Z.to_nat (bytes / WORD)) None]> (blocks m))
            (next m + 1) (alloc_ok m) (S (nallocs m))
            (trace m ++ [EvMalloc bytes (next m)]))
  else
    Ok NULL
       (Mem (blocks m) (next m) (alloc_ok m) (S (nallocs m))
            (trace m ++ [EvMalloc bytes NULL])).

(** [free p]: a no-op on NULL, releases a live block, faults otherwise. *)
Definition free (p : Z) : M unit := fun m =>
  if p =? NULL then Ok tt (log (EvFree p) m)
  else match blocks m !! p with
       | Some _ => Ok tt (log (EvFree p) (set_blocks (delete p (blocks m)) m))
       | None => Fault InvalidFree m
       end.

Definition load (p i : Z) : M Z := fun m =>
  match blocks m !! p with
  | None => Fault InvalidAccess m
  | Some b =>
      if (0 <=? i) && (i <? Z.of_nat (length b)) then
        match b !! Z.to_nat i with
        | Some (Some v) => Ok v (log (EvLoad p i v) m)
        | _ => Fault UninitRead m
        end
      else Fault OutOfBounds m
  end.

Definition store (p i v : Z) : M unit := fun m =>
  match blocks m !! p with
  | None => Fault InvalidAccess m
  | Some b =>
      if (0 <=? i) && (i <? Z.of_nat (length b)) then
        Ok tt (log (EvStore p i v)
                   (set_blocks (<[p := <[Z.to_nat i := Some v]> b]> (blocks m)) m))
      else Fault OutOfBounds m
  end.

(** A [for] loop whose condition is re-evaluated before every iteration, as
    in C.  The body answers [Some r] to leave the loop (and the function)
    with [r], [None] to go on.  [fuel] bounds the number of iterations. *)
Fixpoint for_loop {R} (fuel : nat) (cond : Z → M bool)
    (body : Z → M (option R)) (i : Z) : M (option R) :=
  c ← cond i;
  if c : bool then
    match fuel with
    | O => fail OutOfFuel
    | S fuel' =>
        r ← body i;
        match r with
        | Some x => ret (Some x)
        | None => for_loop fuel' cond body (size_succ i)
        end
    end
  else ret None.

(** A [do ... while] loop: the body answers whether to go round again. *)
Fixpoint do_while (fuel : nat) (body : M bool) : M unit :=
  again ← body;
  if again : bool then
    match fuel with
    | O => fail OutOfFuel
    | S fuel' => do_while fuel' body
    end
  else ret tt.

(** The number of iterations a loop bounded by [instance->num_of_pins] can
    make: the value of the field when the loop is entered. *)
Definition pins_fuel (instance : Z) : M nat := fun m =>
  match blocks m !! instance with
  | Some (Some n :: _) => Ok (Z.to_nat n) m
  | _ => Ok O m
  end.

(** ** The source functions *)

(** [instance->pins], [instance->pins[port]] and
    [instance->pins[port][pin]] as rvalues: one load per arrow or index. *)
Definition rd_pins (instance : Z) : M Z := load instance F_pins.
Definition rd_port (instance port : Z) : M Z :=
  pp ← rd_pins instance; load pp port.
Definition rd_pin (instance port pin : Z) : M Z :=
  pr ← rd_port instance port; load pr pin.

(** The same expressions as assignment targets. *)
Definition wr_port (instance port v : Z) : M unit :=
  pp ← rd_pins instance; store pp port v.
Definition wr_pin (instance port pin v : Z) : M unit :=
  pr ← rd_port instance port; store pr pin v.

(** [static int PINS_destroyInstance(pins_t *instance)], lines 115-154,
    innermost loop body first. *)

(* lines 133-137 *)
Definition destroy_pin (instance port pin : Z) : M (option Empty_set) :=
  c ← rd_pin instance port pin;
  (if negb (c =? NULL) then
     q ← rd_pin instance port pin;
     free q;;
     wr_pin instance port pin NULL
   else mret tt);;
  mret None.

(* lines 129-142 *)
Definition destroy_port (instance port : Z) : M (option Empty_set) :=
  pr ← rd_port instance port;
  (if negb (pr =? NULL) then
     fuel ← pins_fuel instance;
     for_loop fuel
       (fun pin => n ← load instance F_num_of_pins; mret (pin <? n))
       (destroy_pin instance port) 0;;
     q ← rd_port instance port;
     free q;;
     wr_port instance port NULL
   else mret tt);;
  mret None.

Definition PINS_destroyInstance (instance : Z) : M Z :=
  let ret0 := SUCCESS in                (* int ret = SUCCESS; *)
  if instance =? NULL then
    let ret1 := - EINVAL in             (* ret = -EINVAL; *)
    (* goto function_output;  function_output: return SUCCESS; *)
    mret SUCCESS
  else
    pp ← rd_pins instance;
    (if negb (pp =? NULL) then
       for_loop 4 (fun port => mret (port <? MAX_PORTS))
         (destroy_port instance) 0;;
       q ← rd_pins instance;
       free q;;
       store instance F_pins NULL
     else mret tt);;
    free instance;;
    (* instance = NULL;  only the local copy of the pointer changes *)
    mret SUCCESS.

(** [static pins_t *PINS_createInstance(size_t num_of_pins)], lines 62-112,
    innermost loop body first.  A loop body answers [Some NULL] where the
    source jumps to [function_output] with [pins_matrix = NULL]. *)

(* lines 99-106 *)
Definition create_func (pins_matrix pin func : Z) : M (option Z) :=
  p ← malloc (size_mul MAX_FUNC sizeof_int);
  wr_pin pins_matrix pin func p;;
  c ← rd_pin pins_matrix pin func;
  if c =? NULL then
    PINS_destroyInstance pins_matrix;;
    mret (Some NULL)
  else mret None.

(* lines 88-107 *)
Definition create_port (pins_matrix pin : Z) : M (option Z) :=
  n ← load pins_matrix F_num_of_pins;
  p ← malloc (size_mul n sizeof_ptr);
  wr_port pins_matrix pin p;;
  pr ← rd_port pins_matrix pin;
  if pr =? NULL then
    PINS_destroyInstance pins_matrix;;
    mret (Some NULL)
  else
    fuel ← pins_fuel pins_matrix;
    for_loop fuel
      (fun func => n ← load pins_matrix F_num_of_pins; mret (func <? n))
      (create_func pins_matrix pin) 0.

Definition PINS_createInstance (num_of_pins : Z) : M Z :=
  pins_matrix ← malloc sizeof_pins_t;
  if pins_matrix =? NULL then mret NULL
  else
    store pins_matrix F_num_of_pins num_of_pins;;
    p ← malloc (size_mul MAX_PORTS sizeof_ptr);
    store pins_matrix F_pins p;;
    pp ← rd_pins pins_matrix;
    if pp =? NULL then
      free pins_matrix;;
      mret NULL
    else
      r ← for_loop 4 (fun pin => mret (pin <? MAX_PORTS))
            (create_port pins_matrix) 0;
      match r with
      | Some v => mret v
      | None => mret pins_matrix
      end.

(** Cell accesses as [main] writes them (lines 48-50):
    [my_pins->pins[port][pin][func] = v], and the same expression read. *)
Definition write_cell (instance port pin func v : Z) : M unit :=
  c ← rd_pin instance port pin; store c func v.
Definition read_cell (instance port pin func : Z) : M Z :=
  c ← rd_pin instance port pin; load c func.

(** The three assignments of [main], lines 48-50. *)
Definition main_writes (my_pins : Z) : M unit :=
  write_cell my_pins GPIO_A 0 GPIO_OUT GPIO_ON;;
  write_cell my_pins GPIO_B 2 GPIO_ALT GPIO_ON;;
  write_cell my_pins GPIO_C 5 GPIO_IN GPIO_ON.

(** [main], lines 39-60. *)
Definition main : M Z :=
  my_pins ← PINS_createInstance 6;
  (if negb (my_pins =? NULL) then
     main_writes my_pins;;
     (* do { destroy_ret = PINS_destroyInstance(my_pins); }
        while (destroy_ret != SUCCESS); *)
     do_while 1
       (destroy_ret ← PINS_destroyInstance my_pins;
        mret (negb (destroy_ret =? SUCCESS)))
   else mret tt);;
  mret 0.

(** ** Initial memories *)

(** Allocators: one that grants every request, one that refuses exactly
    the [k]-th. *)
Definition all_ok : nat → bool := fun _ => true.
Definition fail_at (k : nat) : nat → bool := fun i => negb (Nat.eqb i k).

(** The empty heap, as an allocation-tracking test double sees it. *)
Definition init_mem (ok : nat → bool) : mem := Mem ∅ 1 ok O [].

(** The number of outstanding allocations. *)
Definition live_count (m : mem) : nat := size (blocks m).

(** What a run answers, and the memory it stops in. *)
Definition outcome {A} (r : res A) : option A + fault :=
  match r with Ok a _ => inl (Some a) | Fault f _ => inr f end.
Definition final {A} (r : res A) : mem :=
  match r with Ok _ m => m | Fault _ m => m end.

(** A memory is well formed when its live blocks sit strictly between
    NULL and [next]. *)
Definition wf_mem (m : mem) : Prop :=
  0 < next m ∧ ∀ x, x ≤ 0 ∨ next m ≤ x → blocks m !! x = None.

(** ** Weakest preconditions

    [wp c Q J m]: run from [m], [c] either returns [a] in a memory
    satisfying [Q a], or faults with [f] in a memory satisfying [J f]. *)
Definition wp {A} (c : M A) (Q : A → mem → Prop) (J : fault → mem → Prop)
    (m : mem) : Prop :=
  match c m with
  | Ok a m' => Q a m'
  | Fault f m' => J f m'
  end.

(** ** The layout of an instance

    [PINS_createInstance] called when [next] is [a] places the header at
    [a], the port-level array at [a + 1], the pin-level array of port [q]
    at [Mid a n q] and the function-level array of (port [q], pin [j]) at
    [Cel a n q j]. *)
Definition Mid (a n q : Z) : Z := a + 2 + q * (n + 1).
Definition Cel (a n q j : Z) : Z := Mid a n q + 1 + j.
Definition End (a n : Z) : Z := a + 2 + 4 * (n + 1).

(** What a pointer slot of the instance holds: nothing yet, NULL, or the
    address of its live sub-array. *)
Inductive status : Type := Uninit | Null | Live.

Definition slot_of (s : status) (addr : Z) : slot :=
  match s with
  | Uninit => None
  | Null => Some NULL
  | Live => Some addr
  end.

Definition is_live (s : status) : bool :=
  match s with Live => true | _ => false end.

(** [shape a n ps cs cells h0 h]: the heap [h] is [h0] below [a] and holds
    at [a] an instance for [n] pins whose port slots have status [ps] and
    whose pin slots have status [cs]; the live function-level arrays hold
    [cells]. *)
Record shape (a n : Z) (ps : Z → status) (cs : Z → Z → status)
    (cells : Z → Z → block) (h0 h : gmap Z block) : Prop := {
  sh_below : ∀ x, x < a → h !! x = h0 !! x;
  sh_hdr : h !! a = Some [Some n; Some (a + 1)];
  sh_prt : ∃ b, h !! (a + 1) = Some b ∧ length b = 4%nat ∧
             ∀ q, 0 ≤ q < 4 → b !! Z.to_nat q = Some (slot_of (ps q) (Mid a n q));
  sh_mid : ∀ q, 0 ≤ q < 4 →
             if is_live (ps q) then
               ∃ b, h !! Mid a n q = Some b ∧ length b = Z.to_nat n ∧
                    ∀ j, 0 ≤ j < n →
                         b !! Z.to_nat j = Some (slot_of (cs q j) (Cel a n q j))
             else h !! Mid a n q = None;
  sh_cel : ∀ q j, 0 ≤ q < 4 → 0 ≤ j < n →
             h !! Cel a n q j = if is_live (cs q j) then Some (cells q j) else None;
  sh_above : ∀ x, End a n ≤ x → h !! x = None
}.

(** The memory after a granted, and after a refused, request to [malloc]. *)
Definition malloc_ok_mem (bytes : Z) (m : mem) : mem :=
  Mem (<[next m := replicate (Z.to_nat (bytes / WORD)) None]> (blocks m))
      (next m + 1) (alloc_ok m) (S (nallocs m))
      (trace m ++ [EvMalloc bytes (next m)]).

Definition malloc_ko_mem (bytes : Z) (m : mem) : mem :=
  Mem (blocks m) (next m) (alloc_ok m) (S (nallocs m))
      (trace m ++ [EvMalloc bytes NULL]).

(** The statuses once ports below [p], and pins below [i] of port [p],
    have been released and cleared. *)
Definition ps_from (p : Z) (ps : Z → status) : Z → status :=
  fun q => if q <? p then Null else ps q.
Definition cs_from (p i : Z) (cs : Z → Z → status) : Z → Z → status :=
  fun q j => if (q <? p) || ((q =? p) && (j <? i)) then Null else cs q j.

(** The allocator is in the same state in [m'] as in [m]. *)
Definition same_alloc (m m' : mem) : Prop :=
  next m' = next m ∧ alloc_ok m' = alloc_ok m ∧ nallocs m' = nallocs m.

(** The pointers handed to [free] so far, in order. *)
Definition freed (m : mem) : list Z :=
  omap (fun e => match e with EvFree p => Some p | _ => None end) (trace m).

(** Since [m0] the allocator state is unchanged and exactly [fl] has been
    handed to [free]. *)
Definition released (m0 m' : mem) (fl : list Z) : Prop :=
  same_alloc m0 m' ∧ freed m' = freed m0 ++ fl.

(** What [PINS_destroyInstance] hands to [free] for the first [i] pins of
    port [p], for port [p], and for the first [p] ports. *)
Definition pin_frees (a n : Z) (cs : Z → Z → status) (p i : Z) : list Z :=
  omap (fun j => if is_live (cs p j) then Some (Cel a n p j) else None)
       (seqZ 0 i).
Definition port_step (a n : Z) (ps : Z → status) (cs : Z → Z → status)
    (p : Z) : list Z :=
  if is_live (ps p) then pin_frees a n cs p n ++ [Mid a n p] else [].
Definition port_frees (a n : Z) (ps : Z → status) (cs : Z → Z → status)
    (p : Z) : list Z :=
  seqZ 0 p ≫= port_step a n ps cs.

(** The order in which a fully allocated instance at [a] is torn down:
    for every port, the function-level arrays of its [n] pins, then its
    pin-level array; then the port-level array; then the header. *)
Definition teardown_order (a n : Z) : list Z :=
  (seqZ 0 MAX_PORTS ≫= fun q => (Cel a n q <$> seqZ 0 n) ++ [Mid a n q])
  ++ [a + 1; a].

(** No slot of the instance is indeterminate, and nothing hangs off a
    NULL port slot. *)
Definition settled (n : Z) (ps : Z → status) (cs : Z → Z → status) : Prop :=
  (∀ q, 0 ≤ q < 4 → ps q ≠ Uninit) ∧
  (∀ q j, 0 ≤ q < 4 → 0 ≤ j < n → ps q = Live → cs q j ≠ Uninit) ∧
  (∀ q j, 0 ≤ q < 4 → 0 ≤ j < n → ps q ≠ Live → is_live (cs q j) = false).

(** The statuses while building: ports below [p] and pins below [i] of port
    [p] are in place, everything after is still indeterminate. *)
Definition ps_to (p : Z) : Z → status :=
  fun q => if q <? p then Live else Uninit.
Definition cs_to (p i : Z) : Z → Z → status :=
  fun q j => if (q <? p) || ((q =? p) && (j <? i)) then Live else Uninit.

(** The function-level arrays as [malloc] hands them out. *)
Definition fresh_cells : Z → Z → block := fun _ _ => replicate 3 None.

(** The number of allocation requests a complete construction makes. *)
Definition requests (n : Z) : Z := 2 + 4 * (n + 1).

(** One of the requests of a construction started in [m0] is refused. *)
Definition refused (n : Z) (m0 : mem) : Prop :=
  ∃ k : nat, Z.of_nat k < requests n ∧ alloc_ok m0 (nallocs m0 + k)%nat = false.

(** [c] requests have been made since [m0], all granted. *)
Definition progress (m0 : mem) (c : Z) (m : mem) : Prop :=
  next m = next m0 + c ∧
  alloc_ok m = alloc_ok m0 ∧
  Z.of_nat (nallocs m) = Z.of_nat (nallocs m0) + c ∧
  ∀ k : nat, Z.of_nat k < c → alloc_ok m0 (nallocs m0 + k)%nat = true.

(** The instance a complete construction started in [m0] leaves: fully
    allocated, every pointer slot set, every cell indeterminate. *)
Definition built (n : Z) (m0 m' : mem) : Prop :=
  shape (next m0) n (fun _ => Live) (fun _ _ => Live) fresh_cells
    (blocks m0) (blocks m') ∧
  progress m0 (requests n) m'.

(** Port 0 of the instance built from [m0] is being filled, and its
    pin-level array has only the slots the wrapped size pays for. *)
Definition filling (n : Z) (m0 m : mem) : Prop :=
  blocks m !! next m0 = Some [Some n; Some (next m0 + 1)] ∧
  (∃ bp, blocks m !! (next m0 + 1) = Some bp ∧
         bp !! 0%nat = Some (Some (next m0 + 2))) ∧
  (∃ br, blocks m !! (next m0 + 2) = Some br ∧
         length br = Z.to_nat (size_mul n sizeof_ptr / WORD)) ∧
  next m0 + 2 < next m.





(** [live_matrix h inst n pp pr cl]: in heap [h], [inst] is the header of a
    fully allocated matrix for [n] pins: its port-level array is [pp], the
    pin-level array of port [q] is [pr q], the function-level array of
    (port [q], pin [j]) is [cl q j], and these blocks are pairwise
    distinct. *)
Record live_matrix (h : gmap Z block) (inst n pp : Z) (pr : Z → Z)
    (cl : Z → Z → Z) : Prop := {
  lm_hdr : h !! inst = Some [Some n; Some pp];
  lm_prt : ∃ bp, h !! pp = Some bp ∧ length bp = 4%nat ∧
             ∀ q, 0 ≤ q < 4 → bp !! Z.to_nat q = Some (Some (pr q));
  lm_mid : ∀ q, 0 ≤ q < 4 →
             ∃ br, h !! pr q = Some br ∧ length br = Z.to_nat n ∧
                   ∀ j, 0 ≤ j < n → br !! Z.to_nat j = Some (Some (cl q j));
  lm_cel : ∀ q j, 0 ≤ q < 4 → 0 ≤ j < n →
             ∃ bc, h !! cl q j = Some bc ∧ length bc = 3%nat;
  lm_nonnull : inst ≠ NULL ∧ pp ≠ NULL ∧
               (∀ q, 0 ≤ q < 4 → pr q ≠ NULL) ∧
               (∀ q j, 0 ≤ q < 4 → 0 ≤ j < n → cl q j ≠ NULL);
  lm_sep_top : pp ≠ inst ∧
               (∀ q, 0 ≤ q < 4 → pr q ≠ inst ∧ pr q ≠ pp) ∧
               (∀ q j, 0 ≤ q < 4 → 0 ≤ j < n → cl q j ≠ inst ∧ cl q j ≠ pp);
  lm_sep_mid : (∀ q q', 0 ≤ q < 4 → 0 ≤ q' < 4 → pr q = pr q' → q = q') ∧
               (∀ q q' j, 0 ≤ q < 4 → 0 ≤ q' < 4 → 0 ≤ j < n → cl q j ≠ pr q');
  lm_sep_cel : ∀ q j q' j', 0 ≤ q < 4 → 0 ≤ j < n → 0 ≤ q' < 4 → 0 ≤ j' < n →
                 cl q j = cl q' j' → q = q' ∧ j = j'
}.

(** The slot of cell (port, pin, func), found by following the pointers. *)
Definition cell_slot (h : gmap Z block) (inst port pin func : Z) : option slot :=
  match h !! inst with
  | Some [_; Some pp] =>
      match h !! pp with
      | Some bp =>
          match bp !! Z.to_nat port with
          | Some (Some pr) =>
              match h !! pr with
              | Some br =>
                  match br !! Z.to_nat pin with
                  | Some (Some c) =>
                      match h !! c with
                      | Some bc => bc !! Z.to_nat func
                      | None => None
                      end
                  | _ => None
                  end
              | None => None
              end
          | _ => None
          end
      | None => None
      end
  | _ => None
  end.

(** The memory in which [PINS_createInstance n] stops when started in the
    empty memory with every request granted. *)
Definition mem_after_create (n : Z) : mem :=
  final (PINS_createInstance n (init_mem all_ok)).

(** ** Runs that read what was never written *)

(** The run of [c] from [m] reads a slot that was never written: it gets
    as far as a load from a slot that still holds what [malloc] left
    there.  What the program does from that point on depends on the value
    it finds; the model follows the run no further. *)
Definition reads_indeterminate {A} (c : M A) (m : mem) : Prop :=
  ∃ m', c m = Fault UninitRead m'.

(** Port [q] holds no indeterminate slot: its own slot has been written,
    and so has every pin slot of its pin-level array, if it has one. *)
Definition port_settled (n : Z) (ps : Z → status) (cs : Z → Z → status)
    (q : Z) : Prop :=
  ps q ≠ Uninit ∧ (ps q = Live → ∀ j, 0 ≤ j < n → cs q j ≠ Uninit).

(** Nothing hangs off a port slot that does not point to an array. *)
Definition rooted (n : Z) (ps : Z → status) (cs : Z → Z → status) : Prop :=
  ∀ q j, 0 ≤ q < 4 → 0 ≤ j < n → ps q ≠ Live → is_live (cs q j) = false.

(** The statuses of the instance a rollback works on when the pin-level
    array of port [p] ([ps_stop]), or the function-level array of pin [i]
    of port [p] ([cs_stop]), has been refused: the slot of the refused
    array holds NULL, the slots before it are in place, the slots after it
    were never written. *)
Definition ps_stop (p : Z) : Z → status :=
  fun q => if q <? p then Live else if q =? p then Null else Uninit.
Definition cs_stop (p i : Z) : Z → Z → status :=
  fun q j =>
    if (q <? p) || ((q =? p) && (j <? i)) then Live
    else if (q =? p) && (j =? i) then Null else Uninit.





(** ** Vocabulary of the further properties *)

(** An event of a run that neither allocates nor stores anything but
    NULL. *)
Definition quiet (e : event) : Prop :=
  match e with
  | EvMalloc _ _ => False
  | EvStore _ _ v => v = NULL
  | _ => True
  end.

(** [m'] is what a run that only clears and releases can make of [m0]:
    the allocator is untouched, no block has appeared or changed size, and
    the events since [m0] are quiet. *)
Record shrunk (m0 m' : mem) : Prop := {
  sk_alloc : same_alloc m0 m';
  sk_blocks : ∀ x b', blocks m' !! x = Some b' →
                ∃ b, blocks m0 !! x = Some b ∧ length b' = length b;
  sk_trace : ∃ evs, trace m' = trace m0 ++ evs ∧ Forall quiet evs
}.

(** The instance at [a] is whole in [m]: fully allocated over the heap
    [h0], whatever its cells hold. *)
Definition whole (a n : Z) (h0 : gmap Z block) (m : mem) : Prop :=
  ∃ cells, shape a n (fun _ => Live) (fun _ _ => Live) cells h0 (blocks m) ∧
           ∀ q j, length (cells q j) = 3%nat.

(** A partial instance for 2 pins, as a rollback may meet it: only port A
    has a pin-level array, and only its pin 0 a function-level array. *)
Definition partial_mem : mem :=
  Mem (<[1 := [Some 2; Some 2]]>
         (<[2 := [Some 3; Some NULL; Some NULL; Some NULL]]>
            (<[3 := [Some 4; Some NULL]]>
               (<[4 := [None; None; None]]> ∅))))
      5 all_ok 4 [].
Definition partial_ps : Z → status :=
  fun q => if q =? 0 then Live else Null.
Definition partial_cs : Z → Z → status :=
  fun q j => if (q =? 0) && (j =? 0) then Live else Null.

(** A sequence of the owner's cell writes (port, pin, function, value), as
    [main] performs three of them. *)
Fixpoint write_cells (instance : Z) (ws : list (Z * Z * Z * Z)) : M unit :=
  match ws with
  | [] => mret tt
  | (port, pin, func, v) :: ws' =>
      write_cell instance port pin func v;;
      write_cells instance ws'
  end.

(** The requests of the port loop after which nothing is left to be
    written: the pin-level array of port D and the last function-level
    array of port D. *)
Definition clean_point (n k : Z) : bool :=
  (k =? 2 + 3 * (n + 1)) || (k =? requests n - 1).

(** The pointers [malloc] has handed out so far, in order; a refused
    request hands out nothing. *)
Definition granted (m : mem) : list Z :=
  omap (fun e => match e with
                 | EvMalloc _ p => if p =? NULL then None else Some p
                 | _ => None
                 end) (trace m).

(** The write addresses a cell of a matrix for [n] pins. *)
Definition in_range (n : Z) (w : Z * Z * Z * Z) : Prop :=
  match w with
  | (port, pin, func, _) =>
      0 ≤ port < MAX_PORTS ∧ 0 ≤ pin < n ∧ 0 ≤ func < MAX_FUNC
  end.

(** * Proofs *)

(** ** Rules of the weakest-precondition calculus *)

Section wp_rules.
Context {A B : Type}.
Implicit Types (Q : A → mem → Prop) (J : fault → mem → Prop).

Lemma wp_ret (a : A) Q J m : Q a m → wp (mret a) Q J m.
Proof. done. Qed.

Lemma wp_bind (c : M A) (k : A → M B) (Q' : B → mem → Prop) J m :
  wp c (fun a m' => wp (k a) Q' J m') J m → wp (c ≫= k) Q' J m.
Proof.
  unfold wp, mbind, M_bind, bind. by destruct (c m).
Qed.

Lemma wp_mono (c : M A) Q Q' J J' m :
  wp c Q J m →
  (∀ a m', Q a m' → Q' a m') →
  (∀ f m', J f m' → J' f m') →
  wp c Q' J' m.
Proof.
  unfold wp. destruct (c m); auto.
Qed.

Lemma wp_const (c : M A) (P : Prop) m :
  P → wp c (fun _ _ => P) (fun _ _ => P) m.
Proof. unfold wp. by destruct (c m). Qed.

Lemma wp_run (c : M A) Q J m :
  wp c Q J m →
  match c m with Ok a m' => Q a m' | Fault f m' => J f m' end.
Proof. done. Qed.
End wp_rules.

Lemma wp_fail {A} f (Q : A → mem → Prop) J m : J f m → wp (fail f) Q J m.
Proof. done. Qed.

Lemma wp_load p i b v Q J m :
  blocks m !! p = Some b →
  0 ≤ i →
  b !! Z.to_nat i = Some (Some v) →
  Q v (log (EvLoad p i v) m) →
  wp (load p i) Q J m.
Proof.
  intros Hb Hi Hv HQ. unfold wp, load. rewrite Hb.
  apply lookup_lt_Some in Hv as Hlt.
  replace ((0 <=? i) && (i <? Z.of_nat (length b))) with true
    by (symmetry; apply andb_true_iff; split; [apply Z.leb_le | apply Z.ltb_lt]; lia).
  by rewrite Hv.
Qed.

Lemma wp_load_uninit p i b Q J m :
  blocks m !! p = Some b →
  0 ≤ i →
  b !! Z.to_nat i = Some None →
  J UninitRead m →
  wp (load p i) Q J m.
Proof.
  intros Hb Hi Hv HQ. unfold wp, load. rewrite Hb.
  apply lookup_lt_Some in Hv as Hlt.
  replace ((0 <=? i) && (i <? Z.of_nat (length b))) with true
    by (symmetry; apply andb_true_iff; split; [apply Z.leb_le | apply Z.ltb_lt]; lia).
  by rewrite Hv.
Qed.

(** Whatever the memory, a load either yields the initialised slot it
    addresses or faults without changing the memory. *)
Lemma wp_load_any p i Q J m :
  (∀ b v, blocks m !! p = Some b → 0 ≤ i < Z.of_nat (length b) →
          b !! Z.to_nat i = Some (Some v) → Q v (log (EvLoad p i v) m)) →
  (∀ f, J f m) →
  wp (load p i) Q J m.
Proof.
  intros HQ HJ. unfold wp, load.
  destruct (blocks m !! p) as [b|] eqn:Hb; [|done].
  destruct ((0 <=? i) && (i <? Z.of_nat (length b))) eqn:Hr; [|done].
  apply andb_true_iff in Hr as [H1%Z.leb_le H2%Z.ltb_lt].
  destruct (b !! Z.to_nat i) as [[v|]|] eqn:Hv; [|done..].
  by eapply HQ.
Qed.

Lemma wp_store p i v b Q J m :
  blocks m !! p = Some b →
  0 ≤ i < Z.of_nat (length b) →
  Q tt (log (EvStore p i v)
          (set_blocks (<[p := <[Z.to_nat i := Some v]> b]> (blocks m)) m)) →
  wp (store p i v) Q J m.
Proof.
  intros Hb Hi HQ. unfold wp, store. rewrite Hb.
  replace ((0 <=? i) && (i <? Z.of_nat (length b))) with true
    by (symmetry; apply andb_true_iff; split; [apply Z.leb_le | apply Z.ltb_lt]; lia).
  done.
Qed.

Lemma wp_store_any p i v Q J m :
  (∀ b, blocks m !! p = Some b → 0 ≤ i < Z.of_nat (length b) →
        Q tt (log (EvStore p i v)
                (set_blocks (<[p := <[Z.to_nat i := Some v]> b]> (blocks m)) m))) →
  (∀ f, J f m) →
  wp (store p i v) Q J m.
Proof.
  intros HQ HJ. unfold wp, store.
  destruct (blocks m !! p) as [b|] eqn:Hb; [|done].
  destruct ((0 <=? i) && (i <? Z.of_nat (length b))) eqn:Hr; [|done].
  apply andb_true_iff in Hr as [H1%Z.leb_le H2%Z.ltb_lt].
  by apply HQ.
Qed.

Lemma wp_free p b Q J m :
  p ≠ NULL →
  blocks m !! p = Some b →
  Q tt (log (EvFree p) (set_blocks (delete p (blocks m)) m)) →
  wp (free p) Q J m.
Proof.
  intros Hp Hb HQ. unfold wp, free.
  destruct (Z.eqb_spec p NULL); [done|]. by rewrite Hb.
Qed.

Lemma wp_free_any p Q J m :
  (p = NULL → Q tt (log (EvFree p) m)) →
  (∀ b, p ≠ NULL → blocks m !! p = Some b →
        Q tt (log (EvFree p) (set_blocks (delete p (blocks m)) m))) →
  (∀ f, J f m) →
  wp (free p) Q J m.
Proof.
  intros H0 HQ HJ. unfold wp, free.
  destruct (Z.eqb_spec p NULL); [by apply H0|].
  destruct (blocks m !! p) eqn:Hb; [by eapply HQ | done].
Qed.

Lemma wp_malloc bytes Q J m :
  (alloc_ok m (nallocs m) = true → Q (next m) (malloc_ok_mem bytes m)) →
  (alloc_ok m (nallocs m) = false → Q NULL (malloc_ko_mem bytes m)) →
  wp (malloc bytes) Q J m.
Proof.
  intros H1 H2. unfold wp, malloc.
  destruct (alloc_ok m (nallocs m)); [by apply H1 | by apply H2].
Qed.

Lemma wp_pins_fuel instance Q J m :
  (∀ k, k = match blocks m !! instance with
            | Some (Some n :: _) => Z.to_nat n
            | _ => O
            end → Q k m) →
  wp (pins_fuel instance) Q J m.
Proof.
  intros HQ. unfold wp, pins_fuel.
  destruct (blocks m !! instance) as [[|[n|] ?]|]; by apply HQ.
Qed.

(** The invariant rule for [for_loop]; the invariant sees the fuel left,
    so that a total-correctness proof can tie it to a variant. *)
Lemma wp_for {R} (I : nat → Z → mem → Prop) (cond : Z → M bool)
    (body : Z → M (option R)) (Q : option R → mem → Prop) J :
  (∀ fuel i m, I fuel i m →
     wp (cond i)
        (fun c m1 =>
           if c : bool then
             match fuel with
             | O => J OutOfFuel m1
             | S k =>
                 wp (body i)
                    (fun r m2 =>
                       match r with
                       | Some x => Q (Some x) m2
                       | None => I k (size_succ i) m2
                       end) J m1
             end
           else Q None m1) J m) →
  ∀ fuel i m, I fuel i m → wp (for_loop fuel cond body i) Q J m.
Proof.
  intros Hstep fuel. induction fuel as [|k IH]; intros i m HI; simpl.
  - apply wp_bind. eapply wp_mono; [by apply Hstep | | done].
    intros [] m1 H1; [by apply wp_fail | by apply wp_ret].
  - apply wp_bind. eapply wp_mono; [by apply Hstep | | done].
    intros [] m1 H1; [| by apply wp_ret].
    apply wp_bind. eapply wp_mono; [exact H1 | | done].
    intros [x|] m2 H2; [by apply wp_ret | by apply IH].
Qed.

#[global] Arguments for_loop : simpl never.

(** ** Addresses of the layout *)

Lemma Mid_0 a n : Mid a n 0 = a + 2.
Proof. unfold Mid. lia. Qed.

Lemma Mid_4 a n : Mid a n 4 = End a n.
Proof. unfold Mid, End. lia. Qed.

Lemma Mid_mono a n q q' : 0 ≤ n → q < q' → Mid a n q + n < Mid a n q'.
Proof. unfold Mid. nia. Qed.

Lemma Mid_lower a n q : 0 ≤ n → 0 ≤ q → a + 2 ≤ Mid a n q.
Proof. unfold Mid. nia. Qed.

Lemma Mid_upper a n q : 0 ≤ n → q < 4 → Mid a n q + n < End a n.
Proof. unfold Mid, End. nia. Qed.

Lemma Mid_inj a n q q' : 0 ≤ n → Mid a n q = Mid a n q' → q = q'.
Proof. unfold Mid. nia. Qed.

Lemma Mid_ne_Cel a n q q' j : 0 ≤ n → 0 ≤ j < n → Mid a n q ≠ Cel a n q' j.
Proof.
  intros Hn Hj E. unfold Cel in E.
  destruct (Z.lt_trichotomy q q') as [H|[H|H]].
  - pose proof (Mid_mono a n q q' Hn H). lia.
  - subst. lia.
  - pose proof (Mid_mono a n q' q Hn H). lia.
Qed.

Lemma Cel_inj a n q q' j j' :
  0 ≤ n → 0 ≤ j < n → 0 ≤ j' < n →
  Cel a n q j = Cel a n q' j' → q = q' ∧ j = j'.
Proof.
  intros Hn Hj Hj' E. unfold Cel in E.
  destruct (Z.lt_trichotomy q q') as [H|[H|H]].
  - pose proof (Mid_mono a n q q' Hn H). lia.
  - subst. lia.
  - pose proof (Mid_mono a n q' q Hn H). lia.
Qed.

Lemma Mid_ne a n q q' : 0 ≤ n → q ≠ q' → Mid a n q ≠ Mid a n q'.
Proof. intros Hn Hne E. by apply Mid_inj in E. Qed.

Lemma Cel_ne_Mid a n q q' j : 0 ≤ n → 0 ≤ j < n → Cel a n q' j ≠ Mid a n q.
Proof. intros Hn Hj E. by eapply Mid_ne_Cel. Qed.

Lemma Cel_ne a n q q' j j' :
  0 ≤ n → 0 ≤ j < n → 0 ≤ j' < n → q ≠ q' ∨ j ≠ j' →
  Cel a n q j ≠ Cel a n q' j'.
Proof. intros Hn Hj Hj' Hne E. apply Cel_inj in E; [|done..]. lia. Qed.

Lemma Cel_lower a n q j : 0 ≤ n → 0 ≤ q → 0 ≤ j → a + 2 < Cel a n q j.
Proof. intros. unfold Cel. pose proof (Mid_lower a n q). lia. Qed.

Lemma Cel_upper a n q j : 0 ≤ n → q < 4 → j < n → Cel a n q j < End a n.
Proof. intros. unfold Cel. pose proof (Mid_upper a n q). lia. Qed.

(** Every address of the instance past the port-level array is a pin-level
    or a function-level array. *)
Lemma layout_cover a n x :
  0 ≤ n → a + 2 ≤ x < End a n →
  ∃ q, 0 ≤ q < 4 ∧ (x = Mid a n q ∨ ∃ j, 0 ≤ j < n ∧ x = Cel a n q j).
Proof.
  intros Hn Hx. unfold End in Hx.
  assert (Hc : x < Mid a n 1 ∨ Mid a n 1 ≤ x < Mid a n 2 ∨
               Mid a n 2 ≤ x < Mid a n 3 ∨ Mid a n 3 ≤ x) by lia.
  unfold Cel. unfold Mid in *.
  destruct Hc as [H|[H|[H|H]]];
    [exists 0 | exists 1 | exists 2 | exists 3]; (split; [lia|]);
    match goal with
    | |- x = ?m ∨ _ =>
        destruct (decide (x = m)) as [->|Hne];
          [by left | right; exists (x - m - 1); lia]
    end.
Qed.

(** Side conditions on addresses: split the port indices into their four
    values, which leaves linear arithmetic. *)
Ltac port_cases :=
  repeat match goal with
         | H : 0 ≤ ?q < 4 |- _ =>
             is_var q;
             let E := fresh in
             assert (E : q = 0 ∨ q = 1 ∨ q = 2 ∨ q = 3) by lia;
             clear H; destruct E as [-> | [-> | [-> | ->]]]
         end.

Ltac addr :=
  try done; unfold Cel, Mid, End in *; first [lia | port_cases; lia].

Ltac lk :=
  repeat first
    [ rewrite lookup_insert_eq
    | rewrite lookup_delete_eq
    | rewrite lookup_insert_ne by addr
    | rewrite lookup_delete_ne by addr ].

(** ** How the shape evolves *)

Section shape_steps.
Context (a n : Z) (Hn : 0 ≤ n).
Context (cells : Z → Z → block) (h0 : gmap Z block).
Implicit Types (ps : Z → status) (cs : Z → Z → status) (h : gmap Z block).

Lemma shape_ext ps ps' cs cs' h :
  shape a n ps cs cells h0 h →
  (∀ q, 0 ≤ q < 4 → ps' q = ps q) →
  (∀ q j, 0 ≤ q < 4 → 0 ≤ j < n → is_live (cs' q j) = is_live (cs q j)) →
  (∀ q j, 0 ≤ q < 4 → 0 ≤ j < n → ps q = Live → cs' q j = cs q j) →
  shape a n ps' cs' cells h0 h.
Proof.
  intros [Hb Hh Hp Hm Hc Ha] Eps El Ecs. split; try done.
  - destruct Hp as (b & ? & ? & Hs). exists b. split_and!; try done.
    intros q Hq. rewrite Eps by done. auto.
  - intros q Hq. specialize (Hm q Hq). rewrite Eps by done.
    destruct (ps q) eqn:Eq; simpl in *; try done.
    destruct Hm as (b & ? & ? & Hs). exists b. split_and!; try done.
    intros j Hj. rewrite Ecs by done. auto.
  - intros q j Hq Hj. rewrite El by done. auto.
Qed.

Lemma shape_mid_block ps cs h q :
  shape a n ps cs cells h0 h → 0 ≤ q < 4 → ps q = Live →
  ∃ b, h !! Mid a n q = Some b ∧ length b = Z.to_nat n ∧
       ∀ j, 0 ≤ j < n → b !! Z.to_nat j = Some (slot_of (cs q j) (Cel a n q j)).
Proof.
  intros Hs Hq E. pose proof (sh_mid _ _ _ _ _ _ _ Hs q Hq) as H.
  by rewrite E in H.
Qed.

Lemma shape_kill_cel ps cs cs' h p i b :
  shape a n ps cs cells h0 h →
  0 ≤ p < 4 → 0 ≤ i < n → ps p = Live →
  h !! Mid a n p = Some b →
  cs' p i = Null →
  (∀ q j, q ≠ p ∨ j ≠ i → cs' q j = cs q j) →
  shape a n ps cs' cells h0
    (<[Mid a n p := <[Z.to_nat i := Some NULL]> b]> (delete (Cel a n p i) h)).
Proof.
  intros Hs Hp Hi Elive Hb E1 E2.
  destruct (shape_mid_block _ _ _ p Hs Hp Elive) as (b' & Hb' & Hlen & Hsl).
  assert (b' = b) as -> by congruence.
  destruct Hs as [Hbel Hh Hprt Hm Hc Ha]. split.
  - intros x Hx. lk. auto.
  - by lk.
  - destruct Hprt as (bp & ? & ? & ?). exists bp. by lk.
  - intros q Hq. destruct (decide (q = p)) as [->|Hne].
    + rewrite Elive. simpl. lk. eexists. split_and!; [done | by rewrite length_insert |].
      intros j Hj. destruct (decide (j = i)) as [->|Hji].
      * rewrite list_lookup_insert_eq by lia. by rewrite E1.
      * rewrite list_lookup_insert_ne by lia. rewrite E2 by auto. auto.
    + specialize (Hm q Hq).
      rewrite lookup_insert_ne by (apply Mid_ne; auto).
      rewrite lookup_delete_ne by (apply Cel_ne_Mid; auto).
      destruct (is_live (ps q)); [|done].
      destruct Hm as (bq & ? & ? & Hq'). exists bq. split_and!; try done.
      intros j Hj. rewrite E2 by auto. auto.
  - intros q j Hq Hj.
    rewrite lookup_insert_ne by (apply Mid_ne_Cel; done).
    destruct (decide (q = p ∧ j = i)) as [[-> ->]|Hne].
    + lk. by rewrite E1.
    + assert (q ≠ p ∨ j ≠ i) as Hor by lia.
      rewrite lookup_delete_ne by (apply Cel_ne; auto; lia).
      rewrite E2 by done. auto.
  - intros x Hx.
    pose proof (Mid_upper a n p). pose proof (Cel_upper a n p i).
    rewrite lookup_insert_ne, lookup_delete_ne by lia. auto.
Qed.
Lemma shape_kill_mid ps ps' cs h p b :
  shape a n ps cs cells h0 h →
  0 ≤ p < 4 →
  h !! (a + 1) = Some b →
  ps' p = Null →
  (∀ q, q ≠ p → ps' q = ps q) →
  (∀ j, 0 ≤ j < n → is_live (cs p j) = false) →
  shape a n ps' cs cells h0
    (<[a + 1 := <[Z.to_nat p := Some NULL]> b]> (delete (Mid a n p) h)).
Proof.
  intros Hs Hp Hb E1 E2 Hdead.
  destruct Hs as [Hbel Hh Hprt Hm Hc Ha].
  destruct Hprt as (b' & Hb' & Hlen & Hsl).
  assert (b' = b) as -> by congruence.
  pose proof (Mid_lower a n p Hn) as Hlo.
  pose proof (Mid_upper a n p Hn) as Hup.
  split.
  - intros x Hx. rewrite lookup_insert_ne, lookup_delete_ne by lia. auto.
  - rewrite lookup_insert_ne, lookup_delete_ne by lia. auto.
  - rewrite lookup_insert_eq. eexists. split_and!; [done | by rewrite length_insert |].
    intros q Hq. destruct (decide (q = p)) as [->|Hne].
    + rewrite list_lookup_insert_eq by lia. by rewrite E1.
    + rewrite list_lookup_insert_ne by lia. rewrite E2 by done. auto.
  - intros q Hq. pose proof (Mid_lower a n q Hn).
    rewrite lookup_insert_ne by lia.
    destruct (decide (q = p)) as [->|Hne].
    + rewrite E1. simpl. by rewrite lookup_delete_eq.
    + rewrite lookup_delete_ne by (apply Mid_ne; auto). rewrite E2 by done.
      by apply Hm.
  - intros q j Hq Hj. pose proof (Cel_lower a n q j Hn).
    rewrite lookup_insert_ne by lia.
    rewrite lookup_delete_ne by (apply Mid_ne_Cel; auto). auto.
  - intros x Hx. rewrite lookup_insert_ne, lookup_delete_ne by (unfold End in *; lia). auto.
Qed.

Lemma shape_new_mid ps ps' cs h p b :
  shape a n ps cs cells h0 h →
  0 ≤ p < 4 →
  is_live (ps p) = false →
  h !! (a + 1) = Some b →
  ps' p = Live →
  (∀ q, q ≠ p → ps' q = ps q) →
  (∀ j, 0 ≤ j < n → cs p j = Uninit) →
  shape a n ps' cs cells h0
    (<[a + 1 := <[Z.to_nat p := Some (Mid a n p)]> b]>
       (<[Mid a n p := replicate (Z.to_nat n) None]> h)).
Proof.
  intros Hs Hp Hdead Hb E1 E2 Hun.
  destruct Hs as [Hbel Hh Hprt Hm Hc Ha].
  destruct Hprt as (b' & Hb' & Hlen & Hsl).
  assert (b' = b) as -> by congruence.
  pose proof (Mid_lower a n p Hn) as Hlo.
  pose proof (Mid_upper a n p Hn) as Hup.
  split.
  - intros x Hx. rewrite !lookup_insert_ne by lia. auto.
  - rewrite !lookup_insert_ne by lia. auto.
  - rewrite lookup_insert_eq. eexists. split_and!; [done | by rewrite length_insert |].
    intros q Hq. destruct (decide (q = p)) as [->|Hne].
    + rewrite list_lookup_insert_eq by lia. by rewrite E1.
    + rewrite list_lookup_insert_ne by lia. rewrite E2 by done. auto.
  - intros q Hq. pose proof (Mid_lower a n q Hn).
    rewrite lookup_insert_ne by lia.
    destruct (decide (q = p)) as [->|Hne].
    + rewrite E1. simpl. rewrite lookup_insert_eq. eexists.
      split_and!; [done | by rewrite length_replicate |].
      intros j Hj. rewrite lookup_replicate_2 by lia. by rewrite Hun.
    + rewrite lookup_insert_ne by (apply Mid_ne; auto). rewrite E2 by done.
      by apply Hm.
  - intros q j Hq Hj. pose proof (Cel_lower a n q j Hn).
    rewrite lookup_insert_ne by lia.
    rewrite lookup_insert_ne by (apply Mid_ne_Cel; auto). auto.
  - intros x Hx. rewrite !lookup_insert_ne by (unfold End in *; lia). auto.
Qed.

Lemma shape_new_cel ps cs cs' h p i b :
  shape a n ps cs cells h0 h →
  0 ≤ p < 4 → 0 ≤ i < n → ps p = Live →
  h !! Mid a n p = Some b →
  cs' p i = Live →
  (∀ q j, q ≠ p ∨ j ≠ i → cs' q j = cs q j) →
  cells p i = replicate 3 None →
  shape a n ps cs' cells h0
    (<[Mid a n p := <[Z.to_nat i := Some (Cel a n p i)]> b]>
       (<[Cel a n p i := replicate 3 None]> h)).
Proof.
  intros Hs Hp Hi Elive Hb E1 E2 Ecell.
  destruct (shape_mid_block _ _ _ p Hs Hp Elive) as (b' & Hb' & Hlen & Hsl).
  assert (b' = b) as -> by congruence.
  destruct Hs as [Hbel Hh Hprt Hm Hc Ha].
  pose proof (Mid_lower a n p Hn) as Hlo.
  pose proof (Mid_upper a n p Hn) as Hup.
  pose proof (Cel_lower a n p i Hn) as Hlo'.
  pose proof (Cel_upper a n p i Hn) as Hup'.
  split.
  - intros x Hx. rewrite !lookup_insert_ne by lia. auto.
  - rewrite !lookup_insert_ne by lia. auto.
  - destruct Hprt as (bp & ? & ? & ?). exists bp.
    rewrite !lookup_insert_ne by lia. auto.
  - intros q Hq. destruct (decide (q = p)) as [->|Hne].
    + rewrite Elive. simpl. rewrite lookup_insert_eq. eexists.
      split_and!; [done | by rewrite length_insert |].
      intros j Hj. destruct (decide (j = i)) as [->|Hji].
      * rewrite list_lookup_insert_eq by lia. by rewrite E1.
      * rewrite list_lookup_insert_ne by lia. rewrite E2 by auto. auto.
    + specialize (Hm q Hq).
      rewrite lookup_insert_ne by (apply Mid_ne; auto).
      rewrite lookup_insert_ne by (apply Cel_ne_Mid; auto).
      destruct (is_live (ps q)); [|done].
      destruct Hm as (bq & ? & ? & Hq'). exists bq. split_and!; try done.
      intros j Hj. rewrite E2 by auto. auto.
  - intros q j Hq Hj.
    rewrite lookup_insert_ne by (apply Mid_ne_Cel; done).
    destruct (decide (q = p ∧ j = i)) as [[-> ->]|Hne].
    + rewrite lookup_insert_eq. by rewrite E1, Ecell.
    + assert (q ≠ p ∨ j ≠ i) as Hor by lia.
      rewrite lookup_insert_ne by (apply Cel_ne; auto; lia).
      rewrite E2 by done. auto.
  - intros x Hx. rewrite !lookup_insert_ne by lia. auto.
Qed.

(** The state in which [PINS_createInstance] enters its port loop. *)
Lemma shape_init :
  0 < a →
  (∀ x, a ≤ x → h0 !! x = None) →
  shape a n (fun _ => Uninit) (fun _ _ => Uninit) cells h0
    (<[a := [Some n; Some (a + 1)]]> (<[a + 1 := replicate 4 None]> h0)).
Proof.
  intros Ha Hfresh. split.
  - intros x Hx. by rewrite !lookup_insert_ne by lia.
  - by rewrite lookup_insert_eq.
  - rewrite lookup_insert_ne by lia. rewrite lookup_insert_eq.
    eexists. split_and!; [done..|].
    intros q Hq. by rewrite lookup_replicate_2 by (simpl; lia).
  - intros q Hq. simpl. pose proof (Mid_lower a n q Hn).
    rewrite !lookup_insert_ne by lia. apply Hfresh. lia.
  - intros q j Hq Hj. simpl. pose proof (Cel_lower a n q j Hn).
    rewrite !lookup_insert_ne by lia. apply Hfresh. lia.
  - intros x Hx. unfold End in Hx. rewrite !lookup_insert_ne by lia.
    apply Hfresh. lia.
Qed.

(** Once every sub-array is gone, releasing the port-level array and the
    header gives back the heap the instance was built on. *)
Lemma shape_final ps cs h hd :
  shape a n ps cs cells h0 h →
  (∀ x, a ≤ x → h0 !! x = None) →
  (∀ q, 0 ≤ q < 4 → is_live (ps q) = false) →
  (∀ q j, 0 ≤ q < 4 → 0 ≤ j < n → is_live (cs q j) = false) →
  delete a (<[a := hd]> (delete (a + 1) h)) = h0.
Proof.
  intros [Hbel Hh Hprt Hm Hc Ha] Hfresh Hps Hcs. apply map_eq. intros x.
  destruct (decide (x < a)).
  { rewrite lookup_delete_ne, lookup_insert_ne, lookup_delete_ne by lia. auto. }
  rewrite (Hfresh x) by lia.
  destruct (decide (x = a)) as [->|]; [by rewrite lookup_delete_eq|].
  rewrite lookup_delete_ne, lookup_insert_ne by lia.
  destruct (decide (x = a + 1)) as [->|]; [by rewrite lookup_delete_eq|].
  rewrite lookup_delete_ne by lia.
  destruct (decide (x < End a n)); [|apply Ha; lia].
  destruct (layout_cover a n x Hn) as (q & Hq & [->|(j & Hj & ->)]); [lia|..].
  - specialize (Hm q Hq). by rewrite Hps in Hm.
  - rewrite Hc by done. by rewrite Hcs.
Qed.
End shape_steps.

(** ** Access paths through an instance *)

Lemma wp_rd_pins a s0 pp Q J m :
  blocks m !! a = Some [s0; Some pp] →
  Q pp (log (EvLoad a F_pins pp) m) →
  wp (rd_pins a) Q J m.
Proof. intros Hh HQ. by eapply wp_load. Qed.

Lemma wp_rd_port a s0 pp bp p v Q J m :
  blocks m !! a = Some [s0; Some pp] →
  blocks m !! pp = Some bp →
  0 ≤ p →
  bp !! Z.to_nat p = Some (Some v) →
  Q v (log (EvLoad pp p v) (log (EvLoad a F_pins pp) m)) →
  wp (rd_port a p) Q J m.
Proof.
  intros Hh Hp H0 Hv HQ. apply wp_bind. eapply wp_rd_pins; [done|].
  by eapply wp_load.
Qed.

Lemma wp_rd_pin a s0 pp bp p pr br i v Q J m :
  blocks m !! a = Some [s0; Some pp] →
  blocks m !! pp = Some bp →
  0 ≤ p →
  bp !! Z.to_nat p = Some (Some pr) →
  blocks m !! pr = Some br →
  0 ≤ i →
  br !! Z.to_nat i = Some (Some v) →
  Q v (log (EvLoad pr i v) (log (EvLoad pp p pr) (log (EvLoad a F_pins pp) m))) →
  wp (rd_pin a p i) Q J m.
Proof.
  intros Hh Hp H0 Hpr Hr Hi Hv HQ. apply wp_bind.
  eapply wp_rd_port; [done..|]. by eapply wp_load.
Qed.

Lemma wp_wr_port a s0 pp bp p v Q J m :
  blocks m !! a = Some [s0; Some pp] →
  blocks m !! pp = Some bp →
  0 ≤ p < Z.of_nat (length bp) →
  Q tt (log (EvStore pp p v)
          (set_blocks (<[pp := <[Z.to_nat p := Some v]> bp]> (blocks m))
             (log (EvLoad a F_pins pp) m))) →
  wp (wr_port a p v) Q J m.
Proof.
  intros Hh Hp H0 HQ. apply wp_bind. eapply wp_rd_pins; [done|].
  by eapply wp_store.
Qed.

Lemma wp_wr_pin a s0 pp bp p pr br i v Q J m :
  blocks m !! a = Some [s0; Some pp] →
  blocks m !! pp = Some bp →
  0 ≤ p →
  bp !! Z.to_nat p = Some (Some pr) →
  blocks m !! pr = Some br →
  0 ≤ i < Z.of_nat (length br) →
  Q tt (log (EvStore pr i v)
          (set_blocks (<[pr := <[Z.to_nat i := Some v]> br]> (blocks m))
             (log (EvLoad pp p pr) (log (EvLoad a F_pins pp) m)))) →
  wp (wr_pin a p i v) Q J m.
Proof.
  intros Hh Hp H0 Hpr Hr Hi HQ. apply wp_bind.
  eapply wp_rd_port; [done..|]. by eapply wp_store.
Qed.

(** ** [PINS_destroyInstance] on a well-formed instance *)

Lemma freed_log e m :
  freed (log e m) = freed m ++ match e with EvFree p => [p] | _ => [] end.
Proof. unfold freed. simpl. rewrite omap_app. by destruct e. Qed.

Lemma freed_set_blocks h m : freed (set_blocks h m) = freed m.
Proof. done. Qed.

Lemma released_refl m : released m m [].
Proof. split; [done|]. by rewrite app_nil_r. Qed.

Lemma pin_frees_succ a n cs p i :
  0 ≤ i →
  pin_frees a n cs p (i + 1)
  = pin_frees a n cs p i ++ (if is_live (cs p i) then [Cel a n p i] else []).
Proof.
  intros Hi. unfold pin_frees. rewrite seqZ_app by lia. rewrite omap_app.
  f_equal. change (seqZ (0 + i) 1) with [i]. simpl.
  by destruct (is_live (cs p i)).
Qed.

Lemma port_frees_succ a n ps cs p :
  0 ≤ p →
  port_frees a n ps cs (p + 1) = port_frees a n ps cs p ++ port_step a n ps cs p.
Proof.
  intros Hp. unfold port_frees. rewrite seqZ_app by lia. rewrite bind_app.
  f_equal. change (seqZ (0 + p) 1) with [p]. apply bind_singleton.
Qed.

Lemma teardown_all_live a n :
  port_frees a n (fun _ => Live) (fun _ _ => Live) 4 ++ [a + 1; a]
  = teardown_order a n.
Proof.
  assert (E : ∀ q, pin_frees a n (fun _ _ => Live) q n = Cel a n q <$> seqZ 0 n).
  { intros q. unfold pin_frees.
    induction (seqZ 0 n) as [|j l IH]; [done|]. simpl. by f_equal. }
  unfold teardown_order, port_frees, port_step, MAX_PORTS. simpl.
  by rewrite !E.
Qed.

(** Carry [released] across the heap operations just performed. *)
Ltac rel H :=
  destruct H as [? Hfr]; split; [assumption|];
  repeat first [rewrite freed_log | rewrite freed_set_blocks];
  rewrite Hfr; simpl; rewrite ?app_nil_r, <- ?app_assoc; reflexivity.

Lemma cs_from_at p i cs : cs_from p (i + 1) cs p i = Null.
Proof.
  unfold cs_from. rewrite Z.eqb_refl.
  replace (i <? i + 1) with true by (symmetry; apply Z.ltb_lt; lia).
  by rewrite orb_true_r.
Qed.

Lemma cs_from_step p i cs q j :
  q ≠ p ∨ j ≠ i → cs_from p (i + 1) cs q j = cs_from p i cs q j.
Proof.
  intros Hne. unfold cs_from.
  destruct (Z.ltb_spec q p); [done|]. simpl.
  destruct (Z.eqb_spec q p); [|done]. simpl.
  destruct (Z.ltb_spec j (i + 1)), (Z.ltb_spec j i); try done; lia.
Qed.

Lemma cs_from_here p i cs : cs_from p i cs p i = cs p i.
Proof.
  unfold cs_from. by rewrite !Z.ltb_irrefl, Z.eqb_refl.
Qed.

Lemma ps_from_here p ps : ps_from p ps p = ps p.
Proof. unfold ps_from. by rewrite Z.ltb_irrefl. Qed.

Section destroy.
Context (a n : Z) (Ha : 0 < a) (Hn : 0 ≤ n < SIZE_MOD).
Context (ps : Z → status) (cs : Z → Z → status).
Context (cells : Z → Z → block) (h0 : gmap Z block).
Context (Hsettled : settled n ps cs).
Context (J : fault → mem → Prop).

Lemma size_succ_small i k : 0 ≤ i < k → k ≤ SIZE_MOD - 1 → size_succ i = i + 1.
Proof. intros. unfold size_succ. apply Z.mod_small. lia. Qed.

Lemma destroy_pin_shape p i m0 fl m :
  0 ≤ p < 4 → 0 ≤ i < n → ps p = Live →
  shape a n (ps_from p ps) (cs_from p i cs) cells h0 (blocks m) →
  released m0 m fl →
  wp (destroy_pin a p i)
     (fun r m' => r = None ∧
        shape a n (ps_from p ps) (cs_from p (i + 1) cs) cells h0 (blocks m') ∧
        released m0 m' (fl ++ (if is_live (cs p i) then [Cel a n p i] else [])))
     J m.
Proof.
  intros Hp Hi Hlive Hs Hrel.
  assert (Hpl : ps_from p ps p = Live) by by rewrite ps_from_here.
  destruct (shape_mid_block a n cells h0 _ _ _ p Hs Hp Hpl) as (br & Hbr & Hlen & Hsl).
  pose proof (sh_hdr _ _ _ _ _ _ _ Hs) as Hh.
  destruct (sh_prt _ _ _ _ _ _ _ Hs) as (bp & Hbp & Hlenp & Hslp).
  pose proof (Hslp p Hp) as Hsp. rewrite Hpl in Hsp. simpl in Hsp.
  pose proof (Hsl i Hi) as Hsi. rewrite cs_from_here in Hsi.
  pose proof (sh_cel _ _ _ _ _ _ _ Hs p i Hp Hi) as Hcel.
  rewrite cs_from_here in Hcel.
  destruct Hsettled as (_ & Hset2 & _).
  pose proof (Cel_lower a n p i) as Hlo.
  pose proof (Mid_lower a n p) as Hlo'.
  unfold destroy_pin.
  destruct (cs p i) eqn:Ecs; [by destruct (Hset2 p i) | |]; simpl in Hsi, Hcel.
  - (* the slot is already NULL *)
    apply wp_bind. eapply wp_rd_pin; [done | done | lia | done | done | lia | done |].
    simpl. apply wp_bind, wp_ret, wp_ret. split_and!; [done | | by rel Hrel].
    eapply shape_ext; [exact Hs | done | |].
    + intros q j _ _. destruct (decide (q = p ∧ j = i)) as [[-> ->]|].
      * by rewrite cs_from_at, cs_from_here, Ecs.
      * by rewrite cs_from_step by lia.
    + intros q j _ _ _. destruct (decide (q = p ∧ j = i)) as [[-> ->]|].
      * by rewrite cs_from_at, cs_from_here, Ecs.
      * by rewrite cs_from_step by lia.
  - (* the slot points to a live array: release it and clear the slot *)
    apply wp_bind. eapply wp_rd_pin; [done | done | lia | done | done | lia | done |].
    assert ((Cel a n p i =? NULL) = false) as -> by (apply Z.eqb_neq; unfold NULL; lia).
    simpl. apply wp_bind, wp_bind.
    eapply wp_rd_pin; [done | done | lia | done | done | lia | done |].
    apply wp_bind. eapply wp_free; [unfold NULL; lia | done |].
    eapply wp_wr_pin; simpl.
    + rewrite lookup_delete_ne by lia. done.
    + rewrite lookup_delete_ne by lia. done.
    + lia.
    + done.
    + rewrite lookup_delete_ne by (apply Cel_ne_Mid; lia). done.
    + lia.
    + apply wp_ret. split_and!; [done | | by rel Hrel].
      eapply shape_kill_cel; eauto; [lia | apply cs_from_at | apply cs_from_step].
Qed.

Lemma cs_from_next p q j :
  0 ≤ j < n → cs_from (p + 1) 0 cs q j = cs_from p n cs q j.
Proof.
  intros Hj. unfold cs_from.
  destruct (Z.ltb_spec q (p + 1)), (Z.ltb_spec q p), (Z.eqb_spec q p),
    (Z.eqb_spec q (p + 1)), (Z.ltb_spec j 0), (Z.ltb_spec j n);
    simpl; try done; lia.
Qed.

Lemma wp_load_num s1 Q m :
  blocks m !! a = Some [Some n; s1] →
  Q n (log (EvLoad a F_num_of_pins n) m) →
  wp (load a F_num_of_pins) Q J m.
Proof. intros Hh HQ. by eapply wp_load. Qed.

Lemma destroy_pins_shape p m0 fl m :
  0 ≤ p < 4 → ps p = Live →
  shape a n (ps_from p ps) (cs_from p 0 cs) cells h0 (blocks m) →
  released m0 m fl →
  wp (for_loop (Z.to_nat n)
        (fun pin => n' ← load a F_num_of_pins; mret (pin <? n'))
        (destroy_pin a p) 0)
     (fun _ m' =>
        shape a n (ps_from p ps) (cs_from p n cs) cells h0 (blocks m') ∧
        released m0 m' (fl ++ pin_frees a n cs p n)) J m.
Proof.
  intros Hp Hlive Hs Hrel.
  apply (wp_for (fun fuel i m' =>
           0 ≤ i ≤ n ∧ fuel = Z.to_nat (n - i) ∧
           shape a n (ps_from p ps) (cs_from p i cs) cells h0 (blocks m') ∧
           released m0 m' (fl ++ pin_frees a n cs p i))).
  - intros fuel i m1 (Hi & Hfuel & Hs1 & Hrel1).
    apply wp_bind. eapply wp_load_num; [by apply (sh_hdr _ _ _ _ _ _ _ Hs1)|].
    apply wp_ret. destruct (Z.ltb_spec i n) as [Hlt|Hge].
    + destruct fuel as [|k]; [lia|].
      eapply wp_mono;
        [apply (destroy_pin_shape p i m0 (fl ++ pin_frees a n cs p i));
           [lia | lia | done | exact Hs1 | by rel Hrel1] | | done].
      intros r m2 (-> & Hs2 & Hrel2).
      rewrite (size_succ_small i n) by lia.
      split_and!; try done; try lia.
      rewrite pin_frees_succ by lia. by rewrite app_assoc.
    + assert (i = n) as -> by lia. split; [done | by rel Hrel1].
  - split_and!; try done; try lia.
    unfold pin_frees. simpl. by rewrite app_nil_r.
Qed.

Lemma destroy_port_shape p m0 fl m :
  0 ≤ p < 4 →
  shape a n (ps_from p ps) (cs_from p 0 cs) cells h0 (blocks m) →
  released m0 m fl →
  wp (destroy_port a p)
     (fun r m' => r = None ∧
        shape a n (ps_from (p + 1) ps) (cs_from (p + 1) 0 cs) cells h0 (blocks m') ∧
        released m0 m' (fl ++ port_step a n ps cs p)) J m.
Proof.
  intros Hp Hs Hrel.
  pose proof (sh_hdr _ _ _ _ _ _ _ Hs) as Hh.
  destruct (sh_prt _ _ _ _ _ _ _ Hs) as (bp & Hbp & Hlenp & Hslp).
  pose proof (Hslp p Hp) as Hsp. rewrite ps_from_here in Hsp.
  destruct Hsettled as (Hset1 & Hset2 & Hset3).
  pose proof (Mid_lower a n p) as Hlo.
  assert (Hps : ∀ q, q ≠ p → ps_from (p + 1) ps q = ps_from p ps q).
  { intros q Hq. unfold ps_from.
    destruct (Z.ltb_spec q (p + 1)), (Z.ltb_spec q p); try done; lia. }
  unfold destroy_port.
  destruct (ps p) eqn:Eps; [by destruct (Hset1 p) | |]; simpl in Hsp.
  - (* the port slot is NULL: nothing hangs off it *)
    apply wp_bind. eapply wp_rd_port; [done | done | lia | done |].
    simpl. apply wp_bind, wp_ret, wp_ret.
    split_and!; [done | | unfold port_step; rewrite Eps; by rel Hrel].
    assert (Hpp : ps_from (p + 1) ps p = Null).
    { unfold ps_from. by replace (p <? p + 1) with true
        by (symmetry; apply Z.ltb_lt; lia). }
    eapply shape_ext; [exact Hs | | |].
    + intros q _. destruct (decide (q = p)) as [->|];
        [by rewrite Hpp, ps_from_here | by apply Hps].
    + intros q j Hq Hj. rewrite cs_from_next by done.
      unfold cs_from. destruct (Z.ltb_spec q p); [done|]. simpl.
      destruct (Z.eqb_spec q p) as [->|]; simpl; [|done].
      rewrite (proj2 (Z.ltb_lt j n)) by lia.
      replace (j <? 0) with false by (symmetry; apply Z.ltb_ge; lia).
      rewrite Hset3; [done..|]. by rewrite Eps.
    + intros q j Hq Hj Hl. rewrite cs_from_next by done.
      unfold cs_from. destruct (Z.ltb_spec q p); [done|]. simpl.
      destruct (Z.eqb_spec q p) as [->|]; simpl; [|done].
      rewrite ps_from_here, Eps in Hl. done.
  - (* the port slot points to a live pin-level array *)
    apply wp_bind. eapply wp_rd_port; [done | done | lia | done |].
    assert ((Mid a n p =? NULL) = false) as -> by (apply Z.eqb_neq; unfold NULL; lia).
    simpl. apply wp_bind, wp_bind. apply wp_pins_fuel. intros k ->.
    simpl. rewrite Hh. apply wp_bind.
    eapply wp_mono;
      [apply (destroy_pins_shape p m0 fl); [lia | done | exact Hs | by rel Hrel] | | done].
    intros _ m1 (Hs1 & Hrel1); simpl.
    pose proof (sh_hdr _ _ _ _ _ _ _ Hs1) as Hh1.
    destruct (sh_prt _ _ _ _ _ _ _ Hs1) as (bp1 & Hbp1 & Hlenp1 & Hslp1).
    pose proof (Hslp1 p Hp) as Hsp1. rewrite ps_from_here, Eps in Hsp1. simpl in Hsp1.
    destruct (shape_mid_block a n cells h0 _ _ _ p Hs1 Hp) as (br & Hbr & _);
      [by rewrite ps_from_here|].
    apply wp_bind. eapply wp_rd_port; [done | done | lia | done |].
    apply wp_bind. eapply wp_free; [unfold NULL; lia | done |].
    eapply wp_wr_port; simpl.
    + rewrite lookup_delete_ne by lia. done.
    + rewrite lookup_delete_ne by lia. done.
    + lia.
    + apply wp_ret.
      split_and!; [done | | unfold port_step; rewrite Eps; by rel Hrel1].
      eapply shape_ext with (ps := ps_from (p + 1) ps) (cs := cs_from p n cs);
        [| done | |].
      * eapply shape_kill_mid; eauto; [lia | |].
        { unfold ps_from. by replace (p <? p + 1) with true
            by (symmetry; apply Z.ltb_lt; lia). }
        { intros j Hj. unfold cs_from. rewrite Z.ltb_irrefl, Z.eqb_refl.
          by rewrite (proj2 (Z.ltb_lt j n)) by lia. }
      * intros q j _ Hj. by rewrite cs_from_next.
      * intros q j _ Hj _. by rewrite cs_from_next.
Qed.

Context (Hfresh : ∀ x, a ≤ x → h0 !! x = None).

(** On a settled instance the routine runs to completion, returns
    SUCCESS and gives back exactly the instance's blocks. *)
Lemma destroy_shape m :
  shape a n ps cs cells h0 (blocks m) →
  wp (PINS_destroyInstance a)
     (fun v m' => v = SUCCESS ∧ blocks m' = h0 ∧
                  released m m' (port_frees a n ps cs 4 ++ [a + 1; a])) J m.
Proof.
  intros Hs. unfold PINS_destroyInstance.
  assert ((a =? NULL) = false) as -> by (apply Z.eqb_neq; unfold NULL; lia).
  pose proof (sh_hdr _ _ _ _ _ _ _ Hs) as Hh.
  apply wp_bind. eapply wp_rd_pins; [done|].
  assert ((a + 1 =? NULL) = false) as -> by (apply Z.eqb_neq; unfold NULL; lia).
  cbn [negb]. apply wp_bind, wp_bind.
  eapply wp_mono with
    (Q := fun _ m' => shape a n (ps_from 4 ps) (cs_from 4 0 cs) cells h0 (blocks m') ∧
                      released m m' (port_frees a n ps cs 4)); [| | done].
  - apply (wp_for (fun fuel p m' =>
             0 ≤ p ≤ 4 ∧ fuel = Z.to_nat (4 - p) ∧
             shape a n (ps_from p ps) (cs_from p 0 cs) cells h0 (blocks m') ∧
             released m m' (port_frees a n ps cs p))).
    + intros fuel p m1 (Hp & Hfuel & Hs1 & Hrel1).
      apply wp_ret. unfold MAX_PORTS. destruct (Z.ltb_spec p 4) as [Hlt|Hge].
      * destruct fuel as [|k]; [lia|].
        eapply wp_mono;
          [apply (destroy_port_shape p m (port_frees a n ps cs p));
             [lia | exact Hs1 | by rel Hrel1] | | done].
        intros r m2 (-> & Hs2 & Hrel2).
        rewrite (size_succ_small p 4) by (unfold SIZE_MOD; lia).
        split_and!; try done; try lia.
        by rewrite port_frees_succ by lia.
      * assert (p = 4) as -> by lia. split; [done | by rel Hrel1].
    + split_and!; try done; try lia; [|by rel (released_refl m)]. simpl.
      eapply shape_ext; [exact Hs | | |].
      * intros q Hq. unfold ps_from.
        by replace (q <? 0) with false by (symmetry; apply Z.ltb_ge; lia).
      * intros q j Hq Hj. unfold cs_from.
        replace (q <? 0) with false by (symmetry; apply Z.ltb_ge; lia).
        replace (j <? 0) with false by (symmetry; apply Z.ltb_ge; lia).
        by rewrite andb_false_r.
      * intros q j Hq Hj _. unfold cs_from.
        replace (q <? 0) with false by (symmetry; apply Z.ltb_ge; lia).
        replace (j <? 0) with false by (symmetry; apply Z.ltb_ge; lia).
        by rewrite andb_false_r.
  - intros _ m1 (Hs1 & Hrel1); simpl.
    pose proof (sh_hdr _ _ _ _ _ _ _ Hs1) as Hh1.
    destruct (sh_prt _ _ _ _ _ _ _ Hs1) as (bp1 & Hbp1 & _).
    apply wp_bind. eapply wp_rd_pins; [done|].
    apply wp_bind. eapply wp_free; [unfold NULL; lia | done |].
    eapply wp_store; simpl.
    + rewrite lookup_delete_ne by lia. done.
    + simpl. unfold F_pins. lia.
    + apply wp_bind. eapply wp_free; simpl; [unfold NULL; lia | by rewrite lookup_insert_eq |].
      apply wp_ret. simpl. split_and!; [done | | by rel Hrel1].
      eapply shape_final; eauto; [lia | |].
      * intros q Hq. unfold ps_from. by rewrite (proj2 (Z.ltb_lt q 4)) by lia.
      * intros q j Hq Hj. unfold cs_from. by rewrite (proj2 (Z.ltb_lt q 4)) by lia.
Qed.
End destroy.

(** ** The teardown of any laid-out instance

    The lemmas of the teardown once more, now for an instance whose slots
    may be indeterminate: the routine goes through the ports as before
    until it reads a slot that was never written. *)

Section destroy_any.
Context (a n : Z) (Ha : 0 < a) (Hn : 0 ≤ n < SIZE_MOD).
Context (ps : Z → status) (cs : Z → Z → status).
Context (cells : Z → Z → block) (h0 : gmap Z block).
Context (Hrooted : rooted n ps cs).

Local Abbreviation Ju :=
  (fun (f : fault) (_ : mem) => f = UninitRead ∧ ¬ settled n ps cs).

Lemma destroy_pin_any p i m :
  0 ≤ p < 4 → 0 ≤ i < n → ps p = Live →
  shape a n (ps_from p ps) (cs_from p i cs) cells h0 (blocks m) →
  wp (destroy_pin a p i)
     (fun r m' => r = None ∧ cs p i ≠ Uninit ∧
        shape a n (ps_from p ps) (cs_from p (i + 1) cs) cells h0 (blocks m'))
     Ju m.
Proof.
  intros Hp Hi Hlive Hs.
  assert (Hpl : ps_from p ps p = Live) by by rewrite ps_from_here.
  destruct (shape_mid_block a n cells h0 _ _ _ p Hs Hp Hpl) as (br & Hbr & Hlen & Hsl).
  pose proof (sh_hdr _ _ _ _ _ _ _ Hs) as Hh.
  destruct (sh_prt _ _ _ _ _ _ _ Hs) as (bp & Hbp & Hlenp & Hslp).
  pose proof (Hslp p Hp) as Hsp. rewrite Hpl in Hsp. simpl in Hsp.
  pose proof (Hsl i Hi) as Hsi. rewrite cs_from_here in Hsi.
  pose proof (sh_cel _ _ _ _ _ _ _ Hs p i Hp Hi) as Hcel.
  rewrite cs_from_here in Hcel.
  pose proof (Cel_lower a n p i) as Hlo.
  pose proof (Mid_lower a n p) as Hlo'.
  unfold destroy_pin.
  destruct (cs p i) eqn:Ecs; simpl in Hsi, Hcel.
  - (* the slot was never written *)
    apply wp_bind. unfold rd_pin. apply wp_bind.
    eapply wp_rd_port; [done | done | lia | done |].
    eapply wp_load_uninit; [done | lia | done |].
    split; [done|]. intros (_ & H2 & _). apply (H2 p i); done.
  - (* the slot is NULL *)
    apply wp_bind. eapply wp_rd_pin; [done | done | lia | done | done | lia | done |].
    simpl. apply wp_bind, wp_ret, wp_ret. split_and!; [done | done |].
    eapply shape_ext; [exact Hs | done | |].
    + intros q j _ _. destruct (decide (q = p ∧ j = i)) as [[-> ->]|].
      * by rewrite cs_from_at, cs_from_here, Ecs.
      * by rewrite cs_from_step by lia.
    + intros q j _ _ _. destruct (decide (q = p ∧ j = i)) as [[-> ->]|].
      * by rewrite cs_from_at, cs_from_here, Ecs.
      * by rewrite cs_from_step by lia.
  - (* the slot points to a live array *)
    apply wp_bind. eapply wp_rd_pin; [done | done | lia | done | done | lia | done |].
    assert ((Cel a n p i =? NULL) = false) as -> by (apply Z.eqb_neq; unfold NULL; lia).
    simpl. apply wp_bind, wp_bind.
    eapply wp_rd_pin; [done | done | lia | done | done | lia | done |].
    apply wp_bind. eapply wp_free; [unfold NULL; lia | done |].
    eapply wp_wr_pin; simpl.
    + rewrite lookup_delete_ne by lia. done.
    + rewrite lookup_delete_ne by lia. done.
    + lia.
    + done.
    + rewrite lookup_delete_ne by (apply Cel_ne_Mid; lia). done.
    + lia.
    + apply wp_ret. split_and!; [done | done |].
      eapply shape_kill_cel; eauto; [lia | apply cs_from_at | apply cs_from_step].
Qed.

Lemma destroy_pins_any p m :
  0 ≤ p < 4 → ps p = Live →
  shape a n (ps_from p ps) (cs_from p 0 cs) cells h0 (blocks m) →
  wp (for_loop (Z.to_nat n)
        (fun pin => n' ← load a F_num_of_pins; mret (pin <? n'))
        (destroy_pin a p) 0)
     (fun _ m' =>
        (∀ j, 0 ≤ j < n → cs p j ≠ Uninit) ∧
        shape a n (ps_from p ps) (cs_from p n cs) cells h0 (blocks m')) Ju m.
Proof.
  intros Hp Hlive Hs.
  apply (wp_for (fun fuel i m' =>
           0 ≤ i ≤ n ∧ fuel = Z.to_nat (n - i) ∧
           (∀ j, 0 ≤ j < i → cs p j ≠ Uninit) ∧
           shape a n (ps_from p ps) (cs_from p i cs) cells h0 (blocks m'))).
  - intros fuel i m1 (Hi & Hfuel & Hgood & Hs1).
    apply wp_bind.
    eapply wp_load; [by apply (sh_hdr _ _ _ _ _ _ _ Hs1) | done | done |].
    apply wp_ret. destruct (Z.ltb_spec i n) as [Hlt|Hge].
    + destruct fuel as [|k]; [lia|].
      eapply wp_mono;
        [apply (destroy_pin_any p i); [lia | lia | done | exact Hs1] | | done].
      intros r m2 (-> & Hgi & Hs2).
      rewrite (size_succ_small i n) by lia.
      split_and!; try done; try lia.
      intros j Hj. destruct (decide (j = i)) as [->|]; [done|]. apply Hgood. lia.
    + assert (i = n) as -> by lia. done.
  - split_and!; try done; lia.
Qed.

Lemma destroy_port_any p m :
  0 ≤ p < 4 →
  shape a n (ps_from p ps) (cs_from p 0 cs) cells h0 (blocks m) →
  wp (destroy_port a p)
     (fun r m' => r = None ∧ port_settled n ps cs p ∧
        shape a n (ps_from (p + 1) ps) (cs_from (p + 1) 0 cs) cells h0 (blocks m'))
     Ju m.
Proof.
  intros Hp Hs.
  pose proof (sh_hdr _ _ _ _ _ _ _ Hs) as Hh.
  destruct (sh_prt _ _ _ _ _ _ _ Hs) as (bp & Hbp & Hlenp & Hslp).
  pose proof (Hslp p Hp) as Hsp. rewrite ps_from_here in Hsp.
  pose proof (Mid_lower a n p) as Hlo.
  assert (Hps : ∀ q, q ≠ p → ps_from (p + 1) ps q = ps_from p ps q).
  { intros q Hq. unfold ps_from.
    destruct (Z.ltb_spec q (p + 1)), (Z.ltb_spec q p); try done; lia. }
  unfold destroy_port.
  destruct (ps p) eqn:Eps; simpl in Hsp.
  - (* the port slot was never written *)
    apply wp_bind. unfold rd_port. apply wp_bind.
    eapply wp_rd_pins; [done|].
    eapply wp_load_uninit; [done | lia | done |].
    split; [done|]. intros (H1 & _). apply (H1 p); done.
  - (* the port slot is NULL: nothing hangs off it *)
    apply wp_bind. eapply wp_rd_port; [done | done | lia | done |].
    simpl. apply wp_bind, wp_ret, wp_ret.
    split_and!; [done | by split; [rewrite Eps | rewrite Eps] |].
    assert (Hpp : ps_from (p + 1) ps p = Null).
    { unfold ps_from. by replace (p <? p + 1) with true
        by (symmetry; apply Z.ltb_lt; lia). }
    eapply shape_ext; [exact Hs | | |].
    + intros q _. destruct (decide (q = p)) as [->|];
        [by rewrite Hpp, ps_from_here | by apply Hps].
    + intros q j Hq Hj. rewrite (cs_from_next n) by done.
      unfold cs_from. destruct (Z.ltb_spec q p); [done|]. simpl.
      destruct (Z.eqb_spec q p) as [->|]; simpl; [|done].
      rewrite (proj2 (Z.ltb_lt j n)) by lia.
      replace (j <? 0) with false by (symmetry; apply Z.ltb_ge; lia).
      rewrite Hrooted; [done..|]. by rewrite Eps.
    + intros q j Hq Hj Hl. rewrite (cs_from_next n) by done.
      unfold cs_from. destruct (Z.ltb_spec q p); [done|]. simpl.
      destruct (Z.eqb_spec q p) as [->|]; simpl; [|done].
      rewrite ps_from_here, Eps in Hl. done.
  - (* the port slot points to a live pin-level array *)
    apply wp_bind. eapply wp_rd_port; [done | done | lia | done |].
    assert ((Mid a n p =? NULL) = false) as -> by (apply Z.eqb_neq; unfold NULL; lia).
    simpl. apply wp_bind, wp_bind. apply wp_pins_fuel. intros k ->.
    simpl. rewrite Hh. apply wp_bind.
    eapply wp_mono;
      [apply (destroy_pins_any p); [lia | done | exact Hs] | | done].
    intros _ m1 (Hgood & Hs1); simpl.
    pose proof (sh_hdr _ _ _ _ _ _ _ Hs1) as Hh1.
    destruct (sh_prt _ _ _ _ _ _ _ Hs1) as (bp1 & Hbp1 & Hlenp1 & Hslp1).
    pose proof (Hslp1 p Hp) as Hsp1. rewrite ps_from_here, Eps in Hsp1. simpl in Hsp1.
    destruct (shape_mid_block a n cells h0 _ _ _ p Hs1 Hp) as (br & Hbr & _);
      [by rewrite ps_from_here|].
    apply wp_bind. eapply wp_rd_port; [done | done | lia | done |].
    apply wp_bind. eapply wp_free; [unfold NULL; lia | done |].
    eapply wp_wr_port; simpl.
    + rewrite lookup_delete_ne by lia. done.
    + rewrite lookup_delete_ne by lia. done.
    + lia.
    + apply wp_ret.
      split_and!; [done | by split; [rewrite Eps |] |].
      eapply shape_ext with (ps := ps_from (p + 1) ps) (cs := cs_from p n cs);
        [| done | |].
      * eapply shape_kill_mid; eauto; [lia | |].
        { unfold ps_from. by replace (p <? p + 1) with true
            by (symmetry; apply Z.ltb_lt; lia). }
        { intros j Hj. unfold cs_from. rewrite Z.ltb_irrefl, Z.eqb_refl.
          by rewrite (proj2 (Z.ltb_lt j n)) by lia. }
      * intros q j _ Hj. by rewrite (cs_from_next n).
      * intros q j _ Hj _. by rewrite (cs_from_next n).
Qed.

Context (Hfresh : ∀ x, a ≤ x → h0 !! x = None).

(** Whatever the slots of a laid-out instance hold, the routine either
    returns SUCCESS, the instance being settled and all of it released, or
    reads a slot that was never written, the instance not being
    settled. *)
Lemma destroy_any m :
  shape a n ps cs cells h0 (blocks m) →
  wp (PINS_destroyInstance a)
     (fun v m' => v = SUCCESS ∧ settled n ps cs ∧ blocks m' = h0) Ju m.
Proof.
  intros Hs. unfold PINS_destroyInstance.
  assert ((a =? NULL) = false) as -> by (apply Z.eqb_neq; unfold NULL; lia).
  pose proof (sh_hdr _ _ _ _ _ _ _ Hs) as Hh.
  apply wp_bind. eapply wp_rd_pins; [done|].
  assert ((a + 1 =? NULL) = false) as -> by (apply Z.eqb_neq; unfold NULL; lia).
  cbn [negb]. apply wp_bind, wp_bind.
  eapply wp_mono with
    (Q := fun _ m' =>
            (∀ q, 0 ≤ q < 4 → port_settled n ps cs q) ∧
            shape a n (ps_from 4 ps) (cs_from 4 0 cs) cells h0 (blocks m'))
    (J := Ju); [| | done].
  - apply (wp_for (fun fuel p m' =>
             0 ≤ p ≤ 4 ∧ fuel = Z.to_nat (4 - p) ∧
             (∀ q, 0 ≤ q < p → port_settled n ps cs q) ∧
             shape a n (ps_from p ps) (cs_from p 0 cs) cells h0 (blocks m'))).
    + intros fuel p m1 (Hp & Hfuel & Hgood & Hs1).
      apply wp_ret. unfold MAX_PORTS. destruct (Z.ltb_spec p 4) as [Hlt|Hge].
      * destruct fuel as [|k]; [lia|].
        eapply wp_mono;
          [apply (destroy_port_any p); [lia | exact Hs1] | | done].
        intros r m2 (-> & Hgp & Hs2).
        rewrite (size_succ_small p 4) by (unfold SIZE_MOD; lia).
        split_and!; try done; try lia.
        intros q Hq. destruct (decide (q = p)) as [->|]; [done|]. apply Hgood. lia.
      * assert (p = 4) as -> by lia. done.
    + split_and!; try done; try lia. simpl.
      eapply shape_ext; [exact Hs | | |].
      * intros q Hq. unfold ps_from.
        by replace (q <? 0) with false by (symmetry; apply Z.ltb_ge; lia).
      * intros q j Hq Hj. unfold cs_from.
        replace (q <? 0) with false by (symmetry; apply Z.ltb_ge; lia).
        replace (j <? 0) with false by (symmetry; apply Z.ltb_ge; lia).
        by rewrite andb_false_r.
      * intros q j Hq Hj _. unfold cs_from.
        replace (q <? 0) with false by (symmetry; apply Z.ltb_ge; lia).
        replace (j <? 0) with false by (symmetry; apply Z.ltb_ge; lia).
        by rewrite andb_false_r.
  - intros _ m1 (Hgood & Hs1); simpl.
    pose proof (sh_hdr _ _ _ _ _ _ _ Hs1) as Hh1.
    destruct (sh_prt _ _ _ _ _ _ _ Hs1) as (bp1 & Hbp1 & _).
    apply wp_bind. eapply wp_rd_pins; [done|].
    apply wp_bind. eapply wp_free; [unfold NULL; lia | done |].
    eapply wp_store; simpl.
    + rewrite lookup_delete_ne by lia. done.
    + simpl. unfold F_pins. lia.
    + apply wp_bind. eapply wp_free; simpl; [unfold NULL; lia | by rewrite lookup_insert_eq |].
      apply wp_ret. simpl. split_and!; [done | |].
      * split_and!.
        { intros q Hq. apply (Hgood q Hq). }
        { intros q j Hq Hj Hl. by apply (Hgood q Hq). }
        { intros q j Hq Hj Hl. by apply Hrooted. }
      * eapply shape_final; eauto; [lia | |].
        { intros q Hq. unfold ps_from. by rewrite (proj2 (Z.ltb_lt q 4)) by lia. }
        { intros q j Hq Hj. unfold cs_from. by rewrite (proj2 (Z.ltb_lt q 4)) by lia. }
Qed.
End destroy_any.

(** ** [PINS_createInstance] *)

Lemma cs_to_at p i : cs_to p (i + 1) p i = Live.
Proof.
  unfold cs_to. rewrite Z.eqb_refl.
  replace (i <? i + 1) with true by (symmetry; apply Z.ltb_lt; lia).
  by rewrite orb_true_r.
Qed.

Lemma cs_to_step p i q j :
  q ≠ p ∨ j ≠ i → cs_to p (i + 1) q j = cs_to p i q j.
Proof.
  intros Hne. unfold cs_to.
  destruct (Z.ltb_spec q p); [done|]. simpl.
  destruct (Z.eqb_spec q p); [|done]. simpl.
  destruct (Z.ltb_spec j (i + 1)), (Z.ltb_spec j i); try done; lia.
Qed.

Lemma ps_to_here p : ps_to (p + 1) p = Live.
Proof.
  unfold ps_to. by replace (p <? p + 1) with true by (symmetry; apply Z.ltb_lt; lia).
Qed.

Lemma ps_to_step p q : q ≠ p → ps_to (p + 1) q = ps_to p q.
Proof.
  intros Hne. unfold ps_to.
  destruct (Z.ltb_spec q (p + 1)), (Z.ltb_spec q p); try done; lia.
Qed.

Lemma cs_to_next n p q j : 0 ≤ j < n → cs_to (p + 1) 0 q j = cs_to p n q j.
Proof.
  intros Hj. unfold cs_to.
  destruct (Z.ltb_spec q (p + 1)), (Z.ltb_spec q p), (Z.eqb_spec q p),
    (Z.eqb_spec q (p + 1)), (Z.ltb_spec j 0), (Z.ltb_spec j n);
    simpl; try done; lia.
Qed.

Section create.
Context (n : Z) (m0 : mem) (Hwf : wf_mem m0) (Hn : 0 ≤ n < 2 ^ 30).

Local Abbreviation a := (next m0).
Local Abbreviation h0 := (blocks m0).
Local Abbreviation Jf := (fun (_ : fault) (_ : mem) => refused n m0).

Lemma wp_malloc_progress bytes c Q m :
  progress m0 c m →
  0 ≤ c < requests n →
  (progress m0 (c + 1) (malloc_ok_mem bytes m) → Q (a + c) (malloc_ok_mem bytes m)) →
  (refused n m0 → Q NULL (malloc_ko_mem bytes m)) →
  wp (malloc bytes) Q Jf m.
Proof.
  intros (Hnext & Hok & Hna & Hall) Hc H1 H2.
  assert (Ek : nallocs m = (nallocs m0 + Z.to_nat c)%nat) by lia.
  apply wp_malloc; intros E; rewrite Hok, Ek in E.
  - rewrite Hnext. apply H1. split_and!; simpl; try done; try lia.
    intros k Hk. destruct (decide (Z.of_nat k < c)); [by apply Hall|].
    by replace k with (Z.to_nat c) by lia.
  - apply H2. exists (Z.to_nat c). split; [lia | done].
Qed.

Lemma wp_rollback {B} (k : M B) (Q : B → mem → Prop) m :
  refused n m0 →
  (∀ m', wp k Q Jf m') →
  wp (PINS_destroyInstance a;; k) Q Jf m.
Proof.
  intros Href Hk. apply wp_bind.
  eapply wp_mono; [by apply (wp_const _ (refused n m0)) | | done].
  intros _ m' _. apply Hk.
Qed.

Lemma create_func_spec p i m :
  0 ≤ p < 4 → 0 ≤ i < n →
  shape a n (ps_to (p + 1)) (cs_to p i) fresh_cells h0 (blocks m) →
  progress m0 (Cel a n p i - a) m →
  wp (create_func a p i)
     (fun r m' =>
        match r with
        | Some v => v = NULL ∧ refused n m0
        | None =>
            shape a n (ps_to (p + 1)) (cs_to p (i + 1)) fresh_cells h0 (blocks m') ∧
            progress m0 (Cel a n p (i + 1) - a) m'
        end) Jf m.
Proof.
  intros Hp Hi Hs Hprog.
  destruct (shape_mid_block a n fresh_cells h0 _ _ _ p Hs Hp (ps_to_here p))
    as (br & Hbr & Hlen & Hsl).
  pose proof (sh_hdr _ _ _ _ _ _ _ Hs) as Hh.
  destruct (sh_prt _ _ _ _ _ _ _ Hs) as (bp & Hbp & Hlenp & Hslp).
  pose proof (Hslp p Hp) as Hsp. rewrite ps_to_here in Hsp. simpl in Hsp.
  destruct Hwf as [Hpos _].
  pose proof (Cel_lower a n p i) as Hlo.
  pose proof (Cel_upper a n p i) as Hup.
  pose proof (Mid_lower a n p) as Hlo'.
  assert (Hne : Cel a n p i ≠ Mid a n p) by (apply Cel_ne_Mid; lia).
  unfold create_func. apply wp_bind.
  eapply wp_malloc_progress; [done | unfold requests, End in *; lia | |].
  - (* granted *)
    intros Hprog'. replace (a + (Cel a n p i - a)) with (Cel a n p i) by lia.
    assert (Enext : next m = Cel a n p i) by (destruct Hprog as [-> _]; lia).
    apply wp_bind. eapply wp_wr_pin; simpl; rewrite ?Enext.
    + rewrite lookup_insert_ne by lia. done.
    + rewrite lookup_insert_ne by lia. done.
    + lia.
    + done.
    + rewrite lookup_insert_ne by done. done.
    + lia.
    + apply wp_bind. eapply wp_rd_pin; simpl.
      * rewrite !lookup_insert_ne by lia. done.
      * rewrite !lookup_insert_ne by lia. done.
      * lia.
      * done.
      * rewrite lookup_insert_eq. done.
      * lia.
      * rewrite list_lookup_insert_eq by lia. done.
      * assert ((Cel a n p i =? NULL) = false) as ->
          by (apply Z.eqb_neq; unfold NULL; lia).
        apply wp_ret. split.
        { eapply shape_new_cel; eauto; [lia | apply ps_to_here | apply cs_to_at
                                       | apply cs_to_step]. }
        { replace (Cel a n p (i + 1) - a) with (Cel a n p i - a + 1)
            by (unfold Cel; lia). done. }
  - (* refused *)
    intros Href.
    apply wp_bind. eapply wp_wr_pin; simpl; [done | done | lia | done | done | lia |].
    apply wp_bind. eapply wp_rd_pin; simpl.
    + rewrite !lookup_insert_ne by lia. done.
    + rewrite !lookup_insert_ne by lia. done.
    + lia.
    + done.
    + rewrite lookup_insert_eq. done.
    + lia.
    + rewrite list_lookup_insert_eq by lia. done.
    + simpl. apply wp_rollback; [done|]. intros m'. by apply wp_ret.
Qed.

Lemma create_funcs_spec p m :
  0 ≤ p < 4 →
  shape a n (ps_to (p + 1)) (cs_to p 0) fresh_cells h0 (blocks m) →
  progress m0 (Cel a n p 0 - a) m →
  wp (for_loop (Z.to_nat n)
        (fun func => n' ← load a F_num_of_pins; mret (func <? n'))
        (create_func a p) 0)
     (fun r m' =>
        match r with
        | Some v => v = NULL ∧ refused n m0
        | None =>
            shape a n (ps_to (p + 1)) (cs_to p n) fresh_cells h0 (blocks m') ∧
            progress m0 (Cel a n p n - a) m'
        end) Jf m.
Proof.
  intros Hp Hs Hprog.
  apply (wp_for (fun fuel i m' =>
           0 ≤ i ≤ n ∧ fuel = Z.to_nat (n - i) ∧
           shape a n (ps_to (p + 1)) (cs_to p i) fresh_cells h0 (blocks m') ∧
           progress m0 (Cel a n p i - a) m')).
  - intros fuel i m1 (Hi & Hfuel & Hs1 & Hprog1).
    apply wp_bind. eapply wp_load; [by apply (sh_hdr _ _ _ _ _ _ _ Hs1) | done | done |].
    apply wp_ret. destruct (Z.ltb_spec i n) as [Hlt|Hge].
    + destruct fuel as [|k]; [lia|].
      eapply wp_mono;
        [apply (create_func_spec p i); [lia | lia | exact Hs1 | exact Hprog1] | | done].
      intros [v|] m2; [done|]. intros (Hs2 & Hprog2).
      rewrite (size_succ_small i n) by (unfold SIZE_MOD; lia).
      split_and!; try done; lia.
    + assert (i = n) as -> by lia. done.
  - split_and!; try done; try lia; f_equal; lia.
Qed.

Lemma create_port_spec p m :
  0 ≤ p < 4 →
  shape a n (ps_to p) (cs_to p 0) fresh_cells h0 (blocks m) →
  progress m0 (Mid a n p - a) m →
  wp (create_port a p)
     (fun r m' =>
        match r with
        | Some v => v = NULL ∧ refused n m0
        | None =>
            shape a n (ps_to (p + 1)) (cs_to (p + 1) 0) fresh_cells h0 (blocks m') ∧
            progress m0 (Mid a n (p + 1) - a) m'
        end) Jf m.
Proof.
  intros Hp Hs Hprog.
  pose proof (sh_hdr _ _ _ _ _ _ _ Hs) as Hh.
  destruct (sh_prt _ _ _ _ _ _ _ Hs) as (bp & Hbp & Hlenp & Hslp).
  destruct Hwf as [Hpos _].
  pose proof (Mid_lower a n p) as Hlo.
  pose proof (Mid_upper a n p) as Hup.
  assert (Esz : Z.to_nat (size_mul n sizeof_ptr / WORD) = Z.to_nat n).
  { unfold size_mul, sizeof_ptr, WORD, SIZE_MOD.
    rewrite Z.mod_small by lia. by rewrite Z.div_mul by lia. }
  unfold create_port.
  apply wp_bind. eapply wp_load; [done | done | done |].
  apply wp_bind.
  eapply wp_malloc_progress; [done | unfold requests, End in *; lia | |].
  - (* granted *)
    intros Hprog'. replace (a + (Mid a n p - a)) with (Mid a n p) by lia.
    assert (Enext : next m = Mid a n p) by (destruct Hprog as [-> _]; lia).
    assert (Hs' : shape a n (ps_to (p + 1)) (cs_to p 0) fresh_cells h0
              (<[a + 1 := <[Z.to_nat p := Some (Mid a n p)]> bp]>
                 (<[Mid a n p := replicate (Z.to_nat n) None]> (blocks m)))).
    { eapply shape_new_mid; eauto; [lia | | apply ps_to_here | by apply ps_to_step |].
      - unfold ps_to. by rewrite Z.ltb_irrefl.
      - intros j Hj. unfold cs_to. rewrite Z.ltb_irrefl, Z.eqb_refl. simpl.
        by replace (j <? 0) with false by (symmetry; apply Z.ltb_ge; lia). }
    apply wp_bind. eapply wp_wr_port; simpl; rewrite ?Enext, ?Esz.
    + rewrite lookup_insert_ne by lia. done.
    + rewrite lookup_insert_ne by lia. done.
    + lia.
    + apply wp_bind. eapply wp_rd_port; simpl.
      * rewrite !lookup_insert_ne by lia. done.
      * rewrite lookup_insert_eq. done.
      * lia.
      * rewrite list_lookup_insert_eq by lia. done.
      * assert ((Mid a n p =? NULL) = false) as ->
          by (apply Z.eqb_neq; unfold NULL; lia).
        apply wp_bind, wp_pins_fuel. intros k ->. simpl.
        rewrite !lookup_insert_ne by lia. rewrite Hh.
        eapply wp_mono; [apply (create_funcs_spec p); [lia | exact Hs' |] | | done].
        { simpl. replace (Cel a n p 0 - a) with (Mid a n p - a + 1)
            by (unfold Cel; lia). done. }
        intros [v|] m2; [done|]. intros (Hs2 & Hprog2). split.
        { eapply shape_ext; [exact Hs2 | done | |].
          - intros q j _ Hj. by rewrite (cs_to_next n).
          - intros q j _ Hj _. by rewrite (cs_to_next n). }
        { replace (Mid a n (p + 1) - a) with (Cel a n p n - a)
            by (unfold Cel, Mid; lia). done. }
  - (* refused *)
    intros Href.
    apply wp_bind. eapply wp_wr_port; simpl; [done | done | lia |].
    apply wp_bind. eapply wp_rd_port; simpl.
    + rewrite !lookup_insert_ne by lia. done.
    + rewrite lookup_insert_eq. done.
    + lia.
    + rewrite list_lookup_insert_eq by lia. done.
    + simpl. apply wp_rollback; [done|]. intros m'. by apply wp_ret.
Qed.

(** [PINS_createInstance] either builds the whole instance at the first
    fresh address, all its requests having been granted, or a request was
    refused and it returns NULL or stops on a fault. *)
Lemma create_spec :
  wp (PINS_createInstance n)
     (fun v m' => (v = a ∧ built n m0 m') ∨ (v = NULL ∧ refused n m0)) Jf m0.
Proof.
  destruct Hwf as [Hpos Hfresh'].
  assert (Hfresh : ∀ x, a ≤ x → h0 !! x = None) by (intros; apply Hfresh'; lia).
  assert (Hprog0 : progress m0 0 m0).
  { split_and!; try done; try lia. }
  unfold PINS_createInstance. apply wp_bind.
  eapply wp_malloc_progress; [done | unfold requests; lia | |].
  2: { intros Href. simpl. apply wp_ret. by right. }
  intros Hprog1. replace (a + 0) with a by lia. change (0 + 1) with 1 in Hprog1.
  assert ((a =? NULL) = false) as -> by (apply Z.eqb_neq; unfold NULL; lia).
  apply wp_bind. eapply wp_store; simpl; [by rewrite lookup_insert_eq | unfold F_num_of_pins, F_pins; simpl; lia |].
  apply wp_bind.
  eapply wp_malloc_progress; simpl; [exact Hprog1 | unfold requests; lia | |].
  2: { intros Href. simpl.
       apply wp_bind. eapply wp_store; simpl; [by rewrite lookup_insert_eq | unfold F_num_of_pins, F_pins; simpl; lia |].
       apply wp_bind. eapply wp_rd_pins; simpl; [by rewrite lookup_insert_eq|].
       simpl. apply wp_bind.
       eapply wp_free; simpl; [unfold NULL; lia | by rewrite lookup_insert_eq |].
       apply wp_ret. by right. }
  intros Hprog2. change (1 + 1) with 2 in Hprog2.
  apply wp_bind. eapply wp_store; simpl.
  { rewrite lookup_insert_ne by lia. by rewrite lookup_insert_eq. }
  { unfold F_pins; simpl; lia. }
  apply wp_bind. eapply wp_rd_pins; simpl; [by rewrite lookup_insert_eq|].
  assert ((a + 1 =? NULL) = false) as -> by (apply Z.eqb_neq; unfold NULL; lia).
  set (h1 := <[a := _]> _).
  assert (Eh1 : h1 = <[a := [Some n; Some (a + 1)]]>
                      (<[a + 1 := replicate 4 None]> h0)).
  { subst h1. apply map_eq. intros x.
    destruct (decide (x = a)) as [->|].
    - by rewrite !lookup_insert_eq.
    - rewrite !(lookup_insert_ne _ a) by done.
      destruct (decide (x = a + 1)) as [->|].
      + by rewrite !lookup_insert_eq.
      + rewrite !(lookup_insert_ne _ (a + 1)) by done.
        by rewrite !(lookup_insert_ne _ a) by done. }
  apply wp_bind.
  eapply wp_mono with
    (Q := fun r m' =>
            match r with
            | Some v => v = NULL ∧ refused n m0
            | None =>
                shape a n (ps_to 4) (cs_to 4 0) fresh_cells h0 (blocks m') ∧
                progress m0 (Mid a n 4 - a) m'
            end) (J := Jf); [| | done].
  - apply (wp_for (fun fuel p m' =>
             0 ≤ p ≤ 4 ∧ fuel = Z.to_nat (4 - p) ∧
             shape a n (ps_to p) (cs_to p 0) fresh_cells h0 (blocks m') ∧
             progress m0 (Mid a n p - a) m')).
    + intros fuel p m1 (Hp & Hfuel & Hs1 & Hprog').
      apply wp_ret. unfold MAX_PORTS. destruct (Z.ltb_spec p 4) as [Hlt|Hge].
      * destruct fuel as [|k]; [lia|].
        eapply wp_mono;
          [apply (create_port_spec p); [lia | exact Hs1 | exact Hprog'] | | done].
        intros [v|] m2; [done|]. intros (Hs2 & Hprog2').
        rewrite (size_succ_small p 4) by (unfold SIZE_MOD; lia).
        split_and!; try done; lia.
      * assert (p = 4) as -> by lia. done.
    + split_and!; try done; try lia; simpl.
      * rewrite Eh1. eapply shape_ext; [apply shape_init; try done; lia | | |].
        { intros q Hq. unfold ps_to.
          by replace (q <? 0) with false by (symmetry; apply Z.ltb_ge; lia). }
        { intros q j Hq Hj. unfold cs_to.
          replace (q <? 0) with false by (symmetry; apply Z.ltb_ge; lia).
          replace (j <? 0) with false by (symmetry; apply Z.ltb_ge; lia).
          by rewrite andb_false_r. }
        { done. }
      * rewrite Mid_0. replace (a + 2 - a) with 2 by lia. done.
  - intros [v|] m1; simpl.
    + intros [-> Href]. apply wp_ret. by right.
    + intros (Hs1 & Hprog'). apply wp_ret. left. split; [done|]. split.
      * eapply shape_ext; [exact Hs1 | | |].
        { intros q Hq. unfold ps_to. by rewrite (proj2 (Z.ltb_lt q 4)) by lia. }
        { intros q j Hq Hj. unfold cs_to. by rewrite (proj2 (Z.ltb_lt q 4)) by lia. }
        { intros q j Hq Hj _. unfold cs_to. by rewrite (proj2 (Z.ltb_lt q 4)) by lia. }
      * rewrite Mid_4 in Hprog'. unfold End in Hprog'.
        replace (a + 2 + 4 * (n + 1) - a) with (requests n) in Hprog'
          by (unfold requests; lia). done.
Qed.
End create.

(** The partial instances a rollback works on: which of them are
    settled. *)
Lemma stop_mid_rooted n p : rooted n (ps_stop p) (cs_to p 0).
Proof.
  intros q j Hq Hj. unfold ps_stop, cs_to.
  destruct (Z.ltb_spec q p); [done|]. intros _. simpl.
  replace (j <? 0) with false by (symmetry; apply Z.ltb_ge; lia).
  by rewrite andb_false_r.
Qed.

Lemma stop_cel_rooted n p i : rooted n (ps_to (p + 1)) (cs_stop p i).
Proof.
  intros q j Hq Hj. unfold ps_to, cs_stop.
  destruct (Z.ltb_spec q (p + 1)); [done|]. intros _.
  destruct (Z.ltb_spec q p); [lia|]. destruct (Z.eqb_spec q p); [lia|]. done.
Qed.

Lemma stop_mid_settled n p :
  0 ≤ p < 4 → settled n (ps_stop p) (cs_to p 0) ↔ p = 3.
Proof.
  intros Hp. split.
  - intros (H1 & _). destruct (decide (p = 3)) as [|Hne]; [done|]. exfalso.
    apply (H1 (p + 1)); [lia|]. unfold ps_stop.
    destruct (Z.ltb_spec (p + 1) p); [lia|].
    by destruct (Z.eqb_spec (p + 1) p); [lia|].
  - intros ->. split_and!.
    + intros q Hq. unfold ps_stop.
      destruct (Z.ltb_spec q 3); [done|]. by destruct (Z.eqb_spec q 3); [|lia].
    + intros q j Hq Hj. unfold ps_stop, cs_to.
      destruct (Z.ltb_spec q 3); [done|]. by destruct (Z.eqb_spec q 3).
    + apply stop_mid_rooted.
Qed.

Lemma stop_cel_settled n p i :
  0 ≤ p < 4 → 0 ≤ i < n →
  settled n (ps_to (p + 1)) (cs_stop p i) ↔ p = 3 ∧ i = n - 1.
Proof.
  intros Hp Hi. split.
  - intros (H1 & H2 & _).
    destruct (decide (i = n - 1)) as [->|Hne].
    + split; [|done]. destruct (decide (p = 3)) as [|Hne]; [done|]. exfalso.
      apply (H1 (p + 1)); [lia|]. unfold ps_to.
      by rewrite Z.ltb_irrefl.
    + exfalso. apply (H2 p (i + 1)); [lia | lia | apply ps_to_here |].
      unfold cs_stop. rewrite Z.ltb_irrefl, Z.eqb_refl. simpl.
      destruct (Z.ltb_spec (i + 1) i); [lia|].
      by destruct (Z.eqb_spec (i + 1) i); [lia|].
  - intros [-> ->]. split_and!.
    + intros q Hq. unfold ps_to. by rewrite (proj2 (Z.ltb_lt q (3 + 1))) by lia.
    + intros q j Hq Hj _. unfold cs_stop.
      destruct (Z.ltb_spec q 3); [done|]. simpl.
      assert (q = 3) as -> by lia. rewrite Z.eqb_refl. simpl.
      destruct (Z.ltb_spec j (n - 1)); [done|].
      by destruct (Z.eqb_spec j (n - 1)); [|lia].
    + apply stop_cel_rooted.
Qed.


(** ** A pin count whose array size wraps

    From 2^30 pins on, [num_of_pins * sizeof(int * )] exceeds [size_t]: the
    pin-level array is shorter than the loop that fills it, and the
    construction cannot complete. *)

Section create_wrap.
Context (n : Z) (m0 : mem) (Hwf : wf_mem m0) (Hn : 2 ^ 30 ≤ n < SIZE_MOD).

Local Abbreviation a := (next m0).
Local Abbreviation Jt := (fun (_ : fault) (_ : mem) => True).
Local Abbreviation k := (Z.to_nat (size_mul n sizeof_ptr / WORD)).

Lemma wrapped_short : Z.of_nat k < n.
Proof.
  unfold size_mul, sizeof_ptr, WORD, SIZE_MOD in *.
  pose proof (Z.mod_pos_bound (n * 4) (2 ^ 32)).
  assert ((n * 4) mod 2 ^ 32 / 4 < 2 ^ 30) by (apply Z.div_lt_upper_bound; lia).
  assert (0 ≤ (n * 4) mod 2 ^ 32 / 4) by (apply Z.div_pos; lia).
  lia.
Qed.

Lemma wp_rollback_any {B} (c : M B) (Q : B → mem → Prop) p m :
  (∀ m', wp c Q Jt m') →
  wp (PINS_destroyInstance p;; c) Q Jt m.
Proof.
  intros Hc. apply wp_bind.
  eapply wp_mono; [by apply (wp_const _ True) | | done].
  intros _ m' _. apply Hc.
Qed.

Lemma create_func_wrap i m :
  filling n m0 m → 0 ≤ i →
  wp (create_func a 0 i)
     (fun r m' =>
        match r with
        | Some v => v = NULL
        | None => filling n m0 m' ∧ i < Z.of_nat k
        end) Jt m.
Proof.
  intros (Hh & (bp & Hbp & Hsp) & (br & Hbr & Hlen) & Hnext) Hi.
  destruct Hwf as [Hpos _].
  unfold create_func. apply wp_bind, wp_malloc; intros _.
  - (* granted *)
    apply wp_bind, wp_bind.
    eapply wp_rd_port; simpl.
    { rewrite lookup_insert_ne by lia. done. }
    { rewrite lookup_insert_ne by lia. done. }
    { done. }
    { done. }
    apply wp_store_any; [|done]. simpl.
    rewrite lookup_insert_ne by lia. rewrite Hbr.
    intros ? [= <-] Hr.
    apply wp_bind. eapply wp_rd_pin; simpl.
    + rewrite !lookup_insert_ne by lia. done.
    + rewrite !lookup_insert_ne by lia. done.
    + done.
    + done.
    + rewrite lookup_insert_eq. done.
    + lia.
    + rewrite list_lookup_insert_eq by lia. done.
    + assert ((next m =? NULL) = false) as ->
        by (apply Z.eqb_neq; unfold NULL; lia).
      apply wp_ret. split; [|lia]. unfold filling; simpl. split_and!.
      * rewrite !lookup_insert_ne by lia. done.
      * exists bp. rewrite !lookup_insert_ne by lia. done.
      * eexists. rewrite lookup_insert_eq. split; [done|].
        by rewrite length_insert.
      * lia.
  - (* refused *)
    apply wp_bind, wp_bind.
    eapply wp_rd_port; simpl; [done..|].
    apply wp_store_any; [|done]. simpl. rewrite Hbr.
    intros ? [= <-] Hr.
    apply wp_bind. eapply wp_rd_pin; simpl.
    + rewrite !lookup_insert_ne by lia. done.
    + rewrite !lookup_insert_ne by lia. done.
    + done.
    + done.
    + rewrite lookup_insert_eq. done.
    + lia.
    + rewrite list_lookup_insert_eq by lia. done.
    + simpl. apply wp_rollback_any. intros m'. by apply wp_ret.
Qed.

Lemma create_port_wrap m :
  blocks m !! a = Some [Some n; Some (a + 1)] →
  (∃ bp, blocks m !! (a + 1) = Some bp ∧ length bp = 4%nat) →
  next m = a + 2 →
  wp (create_port a 0) (fun r _ => r = Some NULL) Jt m.
Proof.
  intros Hh (bp & Hbp & Hlen) Hnext.
  destruct Hwf as [Hpos _]. pose proof wrapped_short as Hk.
  unfold create_port.
  apply wp_bind. eapply wp_load; [done | done | done |].
  apply wp_bind, wp_malloc; intros _.
  - (* granted *)
    apply wp_bind. eapply wp_wr_port; simpl; rewrite ?Hnext.
    { rewrite lookup_insert_ne by lia. done. }
    { rewrite lookup_insert_ne by lia. done. }
    { lia. }
    apply wp_bind. eapply wp_rd_port; simpl.
    + rewrite !lookup_insert_ne by lia. done.
    + rewrite lookup_insert_eq. done.
    + done.
    + rewrite list_lookup_insert_eq by (simpl; lia). done.
    + assert ((a + 2 =? NULL) = false) as ->
        by (apply Z.eqb_neq; unfold NULL; lia).
      apply wp_bind, wp_pins_fuel. intros fuel _.
      eapply wp_mono with
        (Q := fun r _ => match r with Some v => v = NULL | None => False end)
        (J := Jt); [| by intros [v|] ? ?; [subst|] | done].
      apply (wp_for (fun _ i m' => filling n m0 m' ∧ 0 ≤ i ≤ Z.of_nat k)).
      * intros fuel' i m1 (Hf & Hi).
        apply wp_bind. eapply wp_load; [apply Hf | done | done |].
        apply wp_ret. destruct (Z.ltb_spec i n) as [Hlt|Hge]; [|lia].
        destruct fuel' as [|fuel']; [done|].
        eapply wp_mono; [apply (create_func_wrap i); [exact Hf | lia] | | done].
        intros [v|] m2; [done|]. intros (Hf2 & Hi2).
        rewrite (size_succ_small i n) by (unfold SIZE_MOD in *; lia).
        split; [done | lia].
      * split; [|lia]. unfold filling; simpl. split_and!.
        { rewrite !lookup_insert_ne by lia. done. }
        { eexists. rewrite lookup_insert_eq. split; [done|].
          apply list_lookup_insert_eq. lia. }
        { eexists. rewrite lookup_insert_ne by lia. rewrite lookup_insert_eq.
          split; [done|]. by rewrite length_replicate. }
        { lia. }
  - (* refused *)
    apply wp_bind. eapply wp_wr_port; simpl; [done | done | lia |].
    apply wp_bind. eapply wp_rd_port; simpl.
    + rewrite !lookup_insert_ne by lia. done.
    + rewrite lookup_insert_eq. done.
    + done.
    + rewrite list_lookup_insert_eq by (simpl; lia). done.
    + simpl. apply wp_rollback_any. intros m'. by apply wp_ret.
Qed.

(** With 2^30 pins or more the construction never hands back an
    instance. *)
Lemma create_wrap :
  wp (PINS_createInstance n) (fun v _ => v = NULL) Jt m0.
Proof.
  destruct Hwf as [Hpos Hfresh].
  unfold PINS_createInstance. apply wp_bind, wp_malloc; intros _.
  2: { simpl. by apply wp_ret. }
  assert ((a =? NULL) = false) as -> by (apply Z.eqb_neq; unfold NULL; lia).
  apply wp_bind. eapply wp_store; simpl;
    [by rewrite lookup_insert_eq | unfold F_num_of_pins; simpl; lia |].
  apply wp_bind, wp_malloc; intros _.
  2: { apply wp_bind. eapply wp_store; simpl;
         [by rewrite lookup_insert_eq | unfold F_pins; simpl; lia |].
       apply wp_bind. eapply wp_rd_pins; simpl; [by rewrite lookup_insert_eq|].
       simpl. apply wp_bind.
       eapply wp_free; simpl; [unfold NULL; lia | by rewrite lookup_insert_eq |].
       by apply wp_ret. }
  apply wp_bind. eapply wp_store; simpl.
  { rewrite lookup_insert_ne by lia. by rewrite lookup_insert_eq. }
  { unfold F_pins; simpl; lia. }
  apply wp_bind. eapply wp_rd_pins; simpl; [by rewrite lookup_insert_eq|].
  assert ((a + 1 =? NULL) = false) as -> by (apply Z.eqb_neq; unfold NULL; lia).
  apply wp_bind.
  eapply wp_mono with
    (Q := fun r _ => match r with Some v => v = NULL | None => False end)
    (J := Jt); [| | done].
  - apply (wp_for (fun fuel p m' =>
             p = 0 ∧ fuel = 4%nat ∧
             blocks m' !! a = Some [Some n; Some (a + 1)] ∧
             (∃ bp, blocks m' !! (a + 1) = Some bp ∧ length bp = 4%nat) ∧
             next m' = a + 2)).
    + intros fuel p m1 (-> & -> & Hh & Hbp & Hnext).
      apply wp_ret. simpl.
      eapply wp_mono; [by apply create_port_wrap | | done].
      by intros r m2 ->.
    + split_and!; try done; simpl.
      * by rewrite lookup_insert_eq.
      * eexists. rewrite lookup_insert_ne by lia. rewrite lookup_insert_eq. done.
      * lia.
  - intros [v|] m1; [|done]. intros ->. by apply wp_ret.
Qed.
End create_wrap.

(** ** The [num_of_pins] field is written once

    An invariant of every run of the two routines on the instance at [a],
    faulting runs included: the pointer slots of the instance only hold
    NULL or addresses above [a], so no store reaches the header's first
    field, and every load of that field yields [n]. *)

Section guard.
Context (a n : Z) (Ha : 0 < a) (tr0 : list event).

Local Abbreviation G := (guard a n tr0).
Local Abbreviation Jg := (fun (_ : fault) (m : mem) => guard a n tr0 m).





















End guard.


(** ** Consequences for whole runs *)

Lemma create_result n m0 inst m' :
  wf_mem m0 → 0 ≤ n < SIZE_MOD →
  PINS_createInstance n m0 = Ok inst m' → inst ≠ NULL →
  inst = next m0 ∧ n < 2 ^ 30 ∧ built n m0 m'.
Proof.
  intros Hwf Hn Hrun Hinst.
  destruct (decide (n < 2 ^ 30)) as [Hlt|Hge].
  - assert (Hn' : 0 ≤ n < 2 ^ 30) by lia.
    pose proof (wp_run _ _ _ _ (create_spec n m0 Hwf Hn')) as H.
    rewrite Hrun in H. destruct H as [[-> Hb]|[-> _]]; done.
  - assert (Hn' : 2 ^ 30 ≤ n < SIZE_MOD) by lia.
    pose proof (wp_run _ _ _ _ (create_wrap n m0 Hwf Hn')) as H.
    rewrite Hrun in H. done.
Qed.

Lemma create_granted n m0 :
  wf_mem m0 → 0 ≤ n < 2 ^ 30 →
  (∀ k : nat, Z.of_nat k < requests n → alloc_ok m0 (nallocs m0 + k)%nat = true) →
  ∃ m', PINS_createInstance n m0 = Ok (next m0) m' ∧ built n m0 m'.
Proof.
  intros Hwf Hn Hall.
  assert (Hno : ¬ refused n m0).
  { intros (k & Hk & E). rewrite Hall in E by done. done. }
  pose proof (wp_run _ _ _ _ (create_spec n m0 Hwf Hn)) as H.
  destruct (PINS_createInstance n m0) as [v m'|f m'].
  - destruct H as [[-> Hb]|[_ Href]]; [by exists m' | done].
  - done.
Qed.

Lemma destroy_built n m0 m' :
  wf_mem m0 → 0 ≤ n < 2 ^ 30 → built n m0 m' →
  ∃ m'', PINS_destroyInstance (next m0) m' = Ok SUCCESS m'' ∧
         blocks m'' = blocks m0 ∧
         freed m'' = freed m' ++ teardown_order (next m0) n.
Proof.
  intros [Hpos Hfresh] Hn [Hs _].
  assert (Hset : settled n (fun _ => Live) (fun _ _ => Live)) by by split_and!.
  assert (Hn' : 0 ≤ n < SIZE_MOD) by (unfold SIZE_MOD; lia).
  assert (Hf : ∀ x, next m0 ≤ x → blocks m0 !! x = None)
    by (intros; apply Hfresh; lia).
  pose proof (wp_run _ _ _ _
    (destroy_shape (next m0) n Hpos Hn' _ _ fresh_cells (blocks m0) Hset
       (fun _ _ => False) Hf m' Hs)) as H.
  destruct (PINS_destroyInstance (next m0) m') as [v m''|f m'']; [|done].
  destruct H as (-> & Hb & _ & Hfr). exists m''. split_and!; [done..|].
  by rewrite Hfr, teardown_all_live.
Qed.

(** ** Live matrices and their cells *)

Lemma shape_live a n cells h0 h :
  0 < a → 0 ≤ n →
  (∀ q j, length (cells q j) = 3%nat) →
  shape a n (fun _ => Live) (fun _ _ => Live) cells h0 h →
  live_matrix h a n (a + 1) (Mid a n) (Cel a n).
Proof.
  intros Ha Hn Hlen [Hb Hh Hp Hm Hc Habove]. split.
  - done.
  - exact Hp.
  - intros q Hq. apply (Hm q Hq).
  - intros q j Hq Hj. rewrite (Hc q j Hq Hj). simpl. eauto.
  - unfold NULL. split_and!; [lia | lia | |].
    + intros q Hq. pose proof (Mid_lower a n q). lia.
    + intros q j Hq Hj. pose proof (Cel_lower a n q j). lia.
  - split_and!; [lia | |].
    + intros q Hq. pose proof (Mid_lower a n q). lia.
    + intros q j Hq Hj. pose proof (Cel_lower a n q j). lia.
  - split.
    + intros q q' _ _. by apply Mid_inj.
    + intros q q' j _ _ Hj. by apply Cel_ne_Mid.
  - intros q j q' j' _ Hj _ Hj'. by apply Cel_inj.
Qed.

Lemma built_live n m0 m' :
  wf_mem m0 → 0 ≤ n → built n m0 m' →
  live_matrix (blocks m') (next m0) n (next m0 + 1)
    (Mid (next m0) n) (Cel (next m0) n).
Proof.
  intros [Hpos _] Hn [Hs _].
  by apply (shape_live _ _ fresh_cells (blocks m0)).
Qed.

Section cells.
Context (h : gmap Z block) (inst n pp : Z) (pr : Z → Z) (cl : Z → Z → Z).
Context (Hlive : live_matrix h inst n pp pr cl).

Lemma cell_slot_live p i f bc :
  0 ≤ p < 4 → 0 ≤ i < n →
  h !! cl p i = Some bc →
  cell_slot h inst p i f = bc !! Z.to_nat f.
Proof.
  intros Hp Hi Hbc. unfold cell_slot.
  rewrite (lm_hdr _ _ _ _ _ _ Hlive).
  destruct (lm_prt _ _ _ _ _ _ Hlive) as (bp & -> & _ & Hsp).
  rewrite (Hsp p Hp).
  destruct (lm_mid _ _ _ _ _ _ Hlive p Hp) as (br & -> & _ & Hsr).
  by rewrite (Hsr i Hi), Hbc.
Qed.

Lemma live_matrix_write p i f bc v :
  0 ≤ p < 4 → 0 ≤ i < n →
  h !! cl p i = Some bc →
  live_matrix (<[cl p i := <[Z.to_nat f := Some v]> bc]> h) inst n pp pr cl.
Proof.
  intros Hp Hi Hbc.
  destruct Hlive as [Hh Hprt Hm Hc Hnn (Hs1 & Hs2 & Hs3) (Hs4 & Hs5) Hs6].
  destruct (Hs3 p i Hp Hi) as [Hne1 Hne2].
  split; [| | | | done..].
  - by rewrite lookup_insert_ne.
  - destruct Hprt as (bp & ? & ?). exists bp. by rewrite lookup_insert_ne.
  - intros q Hq. destruct (Hm q Hq) as (br & ? & ?). exists br.
    rewrite lookup_insert_ne by (by apply Hs5). done.
  - intros q j Hq Hj. destruct (decide (cl p i = cl q j)) as [E|Hne].
    + rewrite <- E, lookup_insert_eq. eexists. split; [done|].
      rewrite length_insert. destruct (Hc p i Hp Hi) as (bc' & Hbc' & ?).
      congruence.
    + rewrite lookup_insert_ne by done. by apply Hc.
Qed.
End cells.

Section cell_access.
Context (m : mem) (inst n pp : Z) (pr : Z → Z) (cl : Z → Z → Z).
Context (Hlive : live_matrix (blocks m) inst n pp pr cl).
Context (p i f : Z) (Hp : 0 ≤ p < 4) (Hi : 0 ≤ i < n) (Hf : 0 ≤ f < MAX_FUNC).

Lemma wp_rd_pin_live Q J :
  Q (cl p i)
    (log (EvLoad (pr p) i (cl p i))
       (log (EvLoad pp p (pr p)) (log (EvLoad inst F_pins pp) m))) →
  wp (rd_pin inst p i) Q J m.
Proof.
  intros HQ.
  destruct (lm_prt _ _ _ _ _ _ Hlive) as (bp & Hbp & _ & Hsp).
  destruct (lm_mid _ _ _ _ _ _ Hlive p Hp) as (br & Hbr & _ & Hsr).
  eapply wp_rd_pin; [apply (lm_hdr _ _ _ _ _ _ Hlive) | done | lia | by apply Hsp
                    | done | lia | by apply Hsr | done].
Qed.

Lemma write_cell_live v :
  ∃ bc m1, blocks m !! cl p i = Some bc ∧ length bc = 3%nat ∧
           write_cell inst p i f v m = Ok tt m1 ∧
           blocks m1 = <[cl p i := <[Z.to_nat f := Some v]> bc]> (blocks m).
Proof.
  destruct (lm_cel _ _ _ _ _ _ Hlive p i Hp Hi) as (bc & Hbc & Hlen).
  exists bc.
  assert (H : wp (write_cell inst p i f v)
                (fun _ m1 => blocks m1 =
                   <[cl p i := <[Z.to_nat f := Some v]> bc]> (blocks m))
                (fun _ _ => False) m).
  { unfold write_cell. apply wp_bind, wp_rd_pin_live.
    eapply wp_store; simpl; [done | unfold MAX_FUNC in *; lia | done]. }
  apply wp_run in H.
  destruct (write_cell inst p i f v m) as [[] m1|]; [|done]. by exists m1.
Qed.

Lemma read_cell_live :
  ∃ bc s, blocks m !! cl p i = Some bc ∧ bc !! Z.to_nat f = Some s ∧
          match s with
          | Some v => ∃ m', read_cell inst p i f m = Ok v m' ∧ blocks m' = blocks m
          | None => ∃ m', read_cell inst p i f m = Fault UninitRead m'
          end.
Proof.
  destruct (lm_cel _ _ _ _ _ _ Hlive p i Hp Hi) as (bc & Hbc & Hlen).
  destruct (lookup_lt_is_Some_2 bc (Z.to_nat f)) as [s Hs];
    [unfold MAX_FUNC in *; lia|].
  exists bc, s. split_and!; [done..|].
  assert (H : wp (read_cell inst p i f)
                (fun v m' => s = Some v ∧ blocks m' = blocks m)
                (fun fl _ => s = None ∧ fl = UninitRead) m).
  { unfold read_cell. apply wp_bind, wp_rd_pin_live.
    destruct s as [v|].
    - eapply wp_load; simpl; [done | lia | done | done].
    - eapply wp_load_uninit; simpl; [done | lia | done | done]. }
  apply wp_run in H.
  destruct (read_cell inst p i f m) as [v m'|fl m'].
  - destruct H as [-> ?]. by exists m'.
  - destruct H as [-> ->]. by exists m'.
Qed.
End cell_access.

(** ** The status returned by [PINS_destroyInstance] *)

Lemma wp_then_any {A B} (c : M A) (k : A → M B) (Q : B → mem → Prop) m :
  (∀ x m', wp (k x) Q (fun _ _ => True) m') →
  wp (c ≫= k) Q (fun _ _ => True) m.
Proof.
  intros Hk. apply wp_bind. unfold wp at 1. destruct (c m); [apply Hk | done].
Qed.


Lemma destroy_null m : PINS_destroyInstance NULL m = Ok SUCCESS m.
Proof. done. Qed.

(** ** Unfolding a loop with known fuel *)

Lemma for_loop_S {R} fuel (cond : Z → M bool) (body : Z → M (option R)) i :
  for_loop (S fuel) cond body i =
  (c ← cond i;
   if c : bool then
     r ← body i;
     match r with
     | Some x => ret (Some x)
     | None => for_loop fuel cond body (size_succ i)
     end
   else ret None).
Proof. done. Qed.

(** ** The rollback when the first pin-level request is refused *)

Lemma rollback_port0_faults n m0 :
  wf_mem m0 →
  alloc_ok m0 (nallocs m0) = true →
  alloc_ok m0 (S (nallocs m0)) = true →
  alloc_ok m0 (S (S (nallocs m0))) = false →
  wp (PINS_createInstance n) (fun _ _ => False)
     (fun f m' =>
        f = UninitRead ∧
        blocks m' = <[next m0 + 1 := [Some NULL; None; None; None]]>
                      (<[next m0 := [Some n; Some (next m0 + 1)]]> (blocks m0)))
     m0.
Proof.
  intros [Hpos Hfresh] H0 H1 H2. set (a := next m0).
  unfold PINS_createInstance. apply wp_bind, wp_malloc; intros E; [|congruence].
  fold a. clear E.
  assert ((a =? NULL) = false) as -> by (apply Z.eqb_neq; unfold NULL; lia).
  apply wp_bind. eapply wp_store; simpl;
    [by rewrite lookup_insert_eq | unfold F_num_of_pins; simpl; lia |].
  apply wp_bind, wp_malloc; simpl; intros E; [|congruence].
  fold a. clear E.
  apply wp_bind. eapply wp_store; simpl.
  { rewrite lookup_insert_ne by lia. by rewrite lookup_insert_eq. }
  { unfold F_pins; simpl; lia. }
  apply wp_bind. eapply wp_rd_pins; simpl; [by rewrite lookup_insert_eq|].
  assert ((a + 1 =? NULL) = false) as -> by (apply Z.eqb_neq; unfold NULL; lia).
  apply wp_bind. rewrite for_loop_S. apply wp_bind, wp_ret. simpl.
  apply wp_bind. unfold create_port.
  apply wp_bind. eapply wp_load; simpl; [by rewrite lookup_insert_eq | done | done |].
  apply wp_bind, wp_malloc; simpl; intros E; [congruence|]. clear E.
  apply wp_bind. eapply wp_wr_port; simpl.
  { by rewrite lookup_insert_eq. }
  { rewrite lookup_insert_ne by lia. by rewrite lookup_insert_eq. }
  { simpl. lia. }
  apply wp_bind. eapply wp_rd_port; simpl.
  { rewrite lookup_insert_ne by lia. by rewrite lookup_insert_eq. }
  { by rewrite lookup_insert_eq. }
  { done. }
  { done. }
  simpl.
  (* the rollback *)
  apply wp_bind. unfold PINS_destroyInstance.
  assert ((a =? NULL) = false) as -> by (apply Z.eqb_neq; unfold NULL; lia).
  apply wp_bind. eapply wp_rd_pins; simpl.
  { rewrite lookup_insert_ne by lia. by rewrite lookup_insert_eq. }
  assert ((a + 1 =? NULL) = false) as -> by (apply Z.eqb_neq; unfold NULL; lia).
  simpl. apply wp_bind, wp_bind.
  (* port 0: its slot is NULL *)
  rewrite for_loop_S. apply wp_bind, wp_ret. simpl.
  apply wp_bind. unfold destroy_port at 1.
  apply wp_bind. eapply wp_rd_port; simpl.
  { rewrite lookup_insert_ne by lia. by rewrite lookup_insert_eq. }
  { by rewrite lookup_insert_eq. }
  { done. }
  { done. }
  simpl. apply wp_bind, wp_ret, wp_ret.
  (* port 1: its slot was never written *)
  rewrite for_loop_S. apply wp_bind, wp_ret. simpl.
  apply wp_bind. unfold destroy_port at 1.
  apply wp_bind, wp_bind. eapply wp_rd_pins; simpl.
  { rewrite lookup_insert_ne by lia. by rewrite lookup_insert_eq. }
  eapply wp_load_uninit; simpl.
  { by rewrite lookup_insert_eq. }
  { unfold size_succ. done. }
  { done. }
  split; [done|]. subst a. apply map_eq. intros x.
  destruct (decide (x = next m0 + 1)) as [->|].
  { by rewrite !lookup_insert_eq. }
  destruct (decide (x = next m0)) as [->|].
  { rewrite !(lookup_insert_ne _ (next m0 + 1)) by lia. by rewrite !lookup_insert_eq. }
  by rewrite !lookup_insert_ne by done.
Qed.

(** * The claims *)

Lemma wf_init ok : wf_mem (init_mem ok).
Proof. split; [done|]. intros x _. apply lookup_empty. Qed.

(** C2: [PINS_destroyInstance] on NULL.  The routine returns SUCCESS, not
    the [-EINVAL] it assigns to [ret] on that path, and SUCCESS differs
    from [-EINVAL]; it does not fault and leaves the memory untouched. *)
Theorem destroy_null_reports_success (m : mem) :
  PINS_destroyInstance NULL m = Ok SUCCESS m ∧ SUCCESS ≠ - EINVAL.
Proof. split; [apply destroy_null | done]. Qed.

(** C5: whenever [PINS_createInstance] returns a handle, the instance is
    fully allocated: header, port-level array of 4 slots, 4 pin-level
    arrays of [n] slots and 4 * n function-level arrays of 3 slots, every
    pointer non-null and the blocks pairwise distinct. *)
Theorem create_never_partial (n : Z) (m : mem) (inst : Z) (m' : mem) :
  wf_mem m → 0 ≤ n < SIZE_MOD →
  PINS_createInstance n m = Ok inst m' → inst ≠ NULL →
  ∃ pp pr cl, live_matrix (blocks m') inst n pp pr cl.
Proof.
  intros Hwf Hn Hrun Hinst.
  destruct (create_result n m inst m' Hwf Hn Hrun Hinst) as (-> & Hlt & Hb).
  eexists _, _, _. apply (built_live n m m'); [done | lia | done].
Qed.

Lemma create_never_partial_witness :
  ∃ pp pr cl,
    live_matrix (blocks (mem_after_create 2)) 1 2 pp pr cl.
Proof.
  apply (create_never_partial 2 (init_mem all_ok) 1 (mem_after_create 2)).
  - apply wf_init.
  - unfold SIZE_MOD. lia.
  - vm_compute. reflexivity.
  - unfold NULL. lia.
Defined.

(** C6: for every pin count above 0, a successful [PINS_createInstance]
    followed at once by [PINS_destroyInstance] returns SUCCESS and leaves
    exactly the blocks that were live before the construction; the blocks
    handed to [free] are those of the instance, each once, bottom-up. *)
Theorem create_destroy_no_leak (n : Z) (m : mem) (inst : Z) (m' : mem) :
  wf_mem m → 0 < n < SIZE_MOD →
  PINS_createInstance n m = Ok inst m' → inst ≠ NULL →
  ∃ m'', PINS_destroyInstance inst m' = Ok SUCCESS m'' ∧
         blocks m'' = blocks m ∧
         live_count m'' = live_count m ∧
         freed m'' = freed m' ++ teardown_order inst n.
Proof.
  intros Hwf Hn Hrun Hinst.
  destruct (create_result n m inst m' Hwf) as (-> & Hlt & Hb); [lia | done..|].
  destruct (destroy_built n m m' Hwf) as (m'' & Hd & Hblocks & Hfr); [lia | done |].
  exists m''. split_and!; [done.. | | done]. unfold live_count. by rewrite Hblocks.
Qed.

Lemma create_destroy_no_leak_witness :
  ∃ m'', PINS_destroyInstance 1 (mem_after_create 3) = Ok SUCCESS m'' ∧
         blocks m'' = blocks (init_mem all_ok) ∧
         live_count m'' = live_count (init_mem all_ok) ∧
         freed m'' = freed (mem_after_create 3) ++ teardown_order 1 3.
Proof.
  apply (create_destroy_no_leak 3 (init_mem all_ok) 1 (mem_after_create 3)).
  - apply wf_init.
  - unfold SIZE_MOD. lia.
  - vm_compute. reflexivity.
  - unfold NULL. lia.
Defined.




(** C4: a second [PINS_destroyInstance] on the same handle.  After a
    successful construction and a first destruction, the handle held by the
    caller still addresses the freed header ([instance = NULL] only clears
    the routine's own copy), and the second call reads [instance->pins]
    from that freed block: it faults instead of being a no-op. *)
Theorem destroy_twice_faults (n : Z) (m : mem) (inst : Z) (m1 m2 : mem) :
  wf_mem m → 0 ≤ n < SIZE_MOD →
  PINS_createInstance n m = Ok inst m1 → inst ≠ NULL →
  PINS_destroyInstance inst m1 = Ok SUCCESS m2 →
  PINS_destroyInstance inst m2 = Fault InvalidAccess m2.
Proof.
  intros Hwf Hn Hrun Hinst Hd.
  destruct (create_result n m inst m1 Hwf Hn Hrun Hinst) as (-> & Hlt & Hb).
  destruct (destroy_built n m m1 Hwf) as (m'' & Hd' & Hblocks & _); [lia | done |].
  assert (m'' = m2) as -> by congruence.
  destruct Hwf as [Hpos Hfresh].
  unfold PINS_destroyInstance.
  destruct (Z.eqb_spec (next m) NULL) as [E|_]; [done|].
  unfold rd_pins, load, mbind, M_bind, bind.
  rewrite Hblocks, Hfresh by lia. done.
Qed.

Lemma destroy_twice_faults_witness :
  PINS_destroyInstance 1 (final (PINS_destroyInstance 1 (mem_after_create 1)))
  = Fault InvalidAccess (final (PINS_destroyInstance 1 (mem_after_create 1))).
Proof.
  apply (destroy_twice_faults 1 (init_mem all_ok) 1 (mem_after_create 1)).
  - apply wf_init.
  - unfold SIZE_MOD. lia.
  - vm_compute. reflexivity.
  - unfold NULL. lia.
  - vm_compute. reflexivity.
Defined.

(** Where the rollback does not go through [PINS_destroyInstance] it is
    clean: a refused header, or a refused port-level array, gives NULL and
    the heap as it was. *)
Lemma rollback_before_ports n m0 :
  wf_mem m0 →
  alloc_ok m0 (nallocs m0) = false ∨
  (alloc_ok m0 (nallocs m0) = true ∧ alloc_ok m0 (S (nallocs m0)) = false) →
  ∃ m', PINS_createInstance n m0 = Ok NULL m' ∧ blocks m' = blocks m0.
Proof.
  intros [Hpos Hfresh] Hor.
  assert (H : wp (PINS_createInstance n)
                (fun v m' => v = NULL ∧ blocks m' = blocks m0)
                (fun _ _ => False) m0).
  { unfold PINS_createInstance. apply wp_bind, wp_malloc; intros E.
    - destruct Hor as [E'|[_ E']]; [congruence|].
      assert ((next m0 =? NULL) = false) as ->
        by (apply Z.eqb_neq; unfold NULL; lia).
      apply wp_bind. eapply wp_store; simpl;
        [by rewrite lookup_insert_eq | unfold F_num_of_pins; simpl; lia |].
      apply wp_bind, wp_malloc; simpl; intros E''; [congruence|].
      apply wp_bind. eapply wp_store; simpl;
        [by rewrite lookup_insert_eq | unfold F_pins; simpl; lia |].
      apply wp_bind. eapply wp_rd_pins; simpl; [by rewrite lookup_insert_eq|].
      simpl. apply wp_bind.
      eapply wp_free; simpl; [unfold NULL; lia | by rewrite lookup_insert_eq |].
      apply wp_ret. split; [done|]. simpl.
      rewrite !insert_insert_eq. apply delete_insert_id, Hfresh. lia.
    - destruct Hor as [_|[E' _]]; [|congruence]. simpl. by apply wp_ret. }
  apply wp_run in H.
  destruct (PINS_createInstance n m0) as [v m'|]; [|done].
  destruct H as [-> Hb]. by exists m'.
Qed.

(** The run of [main] on the empty heap with every request granted: it
    returns 0 and leaves no block allocated. *)
Lemma main_example :
  outcome (main (init_mem all_ok)) = inl (Some 0) ∧
  live_count (final (main (init_mem all_ok))) = 0%nat.
Proof. split; vm_compute; reflexivity. Qed.

(** C1: the rollback when the pin-level array of port A is refused.  The
    header and the port-level array were granted; [PINS_createInstance]
    stores NULL into [pins[0]] and calls [PINS_destroyInstance], which
    walks all four port slots and reads [pins[1]], a slot [malloc] left
    indeterminate: the run stops on that read, returns nothing, and the two
    blocks stay allocated. *)
Theorem rollback_reads_uninitialised (n : Z) (m : mem) :
  wf_mem m →
  alloc_ok m (nallocs m) = true →
  alloc_ok m (S (nallocs m)) = true →
  alloc_ok m (S (S (nallocs m))) = false →
  ∃ m', PINS_createInstance n m = Fault UninitRead m' ∧
        live_count m' = (live_count m + 2)%nat.
Proof.
  intros Hwf H0 H1 H2.
  pose proof (wp_run _ _ _ _ (rollback_port0_faults n m Hwf H0 H1 H2)) as H.
  destruct (PINS_createInstance n m) as [|f m']; [done|].
  destruct H as [-> Hb]. exists m'. split; [done|].
  destruct Hwf as [Hpos Hfresh].
  unfold live_count. rewrite Hb.
  rewrite map_size_insert_None.
  - rewrite map_size_insert_None; [lia|]. apply Hfresh. lia.
  - rewrite lookup_insert_ne by lia. apply Hfresh. lia.
Qed.

Lemma rollback_reads_uninitialised_witness :
  ∃ m', PINS_createInstance 1 (init_mem (fail_at 2)) = Fault UninitRead m' ∧
        live_count m' = (live_count (init_mem (fail_at 2)) + 2)%nat.
Proof.
  apply (rollback_reads_uninitialised 1 (init_mem (fail_at 2))).
  - apply wf_init.
  - reflexivity.
  - reflexivity.
  - reflexivity.
Defined.

(** C8, as the source has it: [PINS_createInstance] does not check its
    argument.  With a pin count of 0 and its six requests granted (header,
    port-level array, four empty pin-level arrays) it returns a handle to a
    matrix whose [num_of_pins] is 0 and which has no cell. *)
Theorem create_zero_pins (m : mem) :
  wf_mem m →
  (∀ k : nat, (k < 6)%nat → alloc_ok m (nallocs m + k)%nat = true) →
  ∃ m' pp pr cl,
    PINS_createInstance 0 m = Ok (next m) m' ∧ next m ≠ NULL ∧
    live_matrix (blocks m') (next m) 0 pp pr cl.
Proof.
  intros Hwf Hall.
  destruct (create_granted 0 m Hwf) as (m' & Hrun & Hb); [lia | |].
  { intros k Hk. apply Hall. unfold requests in Hk. lia. }
  exists m'. eexists _, _, _. split_and!; [done | |].
  - destruct Hwf as [Hpos _]. unfold NULL. lia.
  - by apply built_live.
Qed.

Lemma create_zero_pins_witness :
  ∃ m' pp pr cl,
    PINS_createInstance 0 (init_mem all_ok) = Ok 1 m' ∧ 1 ≠ NULL ∧
    live_matrix (blocks m') 1 0 pp pr cl.
Proof.
  apply (create_zero_pins (init_mem all_ok)).
  - apply wf_init.
  - reflexivity.
Defined.

(** C8, as the claim has it, fails: with every request granted,
    [PINS_createInstance 0] returns the handle 1, not the failure signal. *)
Lemma create_zero_returns_handle :
  outcome (PINS_createInstance 0 (init_mem all_ok)) = inl (Some 1) ∧
  1 ≠ NULL.
Proof. split; [vm_compute; reflexivity | done]. Qed.

(** A write to one cell of a live matrix succeeds, keeps the matrix live,
    sets the slot of that cell and changes the slot of no other cell. *)
Lemma write_cell_slots (m : mem) (inst n pp : Z) (pr : Z → Z)
    (cl : Z → Z → Z) (p i f v : Z) :
  live_matrix (blocks m) inst n pp pr cl →
  0 ≤ p < 4 → 0 ≤ i < n → 0 ≤ f < MAX_FUNC →
  ∃ m1,
    write_cell inst p i f v m = Ok tt m1 ∧
    live_matrix (blocks m1) inst n pp pr cl ∧
    cell_slot (blocks m1) inst p i f = Some (Some v) ∧
    ∀ p' i' f',
      0 ≤ p' < 4 → 0 ≤ i' < n → 0 ≤ f' < MAX_FUNC →
      (p', i', f') ≠ (p, i, f) →
      cell_slot (blocks m1) inst p' i' f' = cell_slot (blocks m) inst p' i' f'.
Proof.
  intros Hlive Hp Hi Hf.
  destruct (write_cell_live m inst n pp pr cl Hlive p i f Hp Hi Hf v)
    as (bc & m1 & Hbc & Hlen & Hw & Hb1).
  assert (Hlive1 : live_matrix (blocks m1) inst n pp pr cl).
  { rewrite Hb1. by apply live_matrix_write. }
  assert (Hc1 : blocks m1 !! cl p i = Some (<[Z.to_nat f := Some v]> bc)).
  { rewrite Hb1. apply lookup_insert_eq. }
  exists m1. split_and!; [done..| |].
  - rewrite (cell_slot_live _ _ _ _ _ _ Hlive1 p i f _ Hp Hi Hc1).
    apply list_lookup_insert_eq. unfold MAX_FUNC in Hf. lia.
  - intros p' i' f' Hp' Hi' Hf' Hne.
    destruct (lm_cel _ _ _ _ _ _ Hlive p' i' Hp' Hi') as (b0 & Hb0 & _).
    rewrite (cell_slot_live _ _ _ _ _ _ Hlive p' i' f' _ Hp' Hi' Hb0).
    destruct (decide (cl p i = cl p' i')) as [E|Hcl].
    + apply (lm_sep_cel _ _ _ _ _ _ Hlive) in E as [-> ->]; [|done..].
      assert (b0 = bc) as -> by congruence.
      rewrite (cell_slot_live _ _ _ _ _ _ Hlive1 p' i' f' _ Hp' Hi' Hc1).
      apply list_lookup_insert_ne. intros E%Z2Nat.inj; [congruence|lia..].
    + assert (Hc1' : blocks m1 !! cl p' i' = Some b0).
      { rewrite Hb1. by rewrite lookup_insert_ne. }
      by rewrite (cell_slot_live _ _ _ _ _ _ Hlive1 p' i' f' _ Hp' Hi' Hc1').
Qed.

(** Reading a cell of a live matrix answers what its slot holds. *)
Lemma read_cell_slot (m : mem) (inst n pp : Z) (pr : Z → Z)
    (cl : Z → Z → Z) (p i f : Z) :
  live_matrix (blocks m) inst n pp pr cl →
  0 ≤ p < 4 → 0 ≤ i < n → 0 ≤ f < MAX_FUNC →
  outcome (read_cell inst p i f m)
  = match cell_slot (blocks m) inst p i f with
    | Some (Some v) => inl (Some v)
    | _ => inr UninitRead
    end.
Proof.
  intros Hlive Hp Hi Hf.
  destruct (read_cell_live m inst n pp pr cl Hlive p i f Hp Hi Hf)
    as (bc & s & Hbc & Hs & Hr).
  rewrite (cell_slot_live _ _ _ _ _ _ Hlive p i f _ Hp Hi Hbc), Hs.
  destruct s as [v|].
  - by destruct Hr as (m' & -> & _).
  - by destruct Hr as (m' & ->).
Qed.

(** C9: cell writes are independent.  On a live matrix, writing [v] to the
    cell (p, i, f) succeeds and keeps the matrix live; reading that cell
    back yields [v]; and every other in-range cell holds what it held
    before, so that reading it gives the same outcome as before. *)
Theorem cell_write_independent (m : mem) (inst n pp : Z) (pr : Z → Z)
    (cl : Z → Z → Z) (p i f v : Z) :
  live_matrix (blocks m) inst n pp pr cl →
  0 ≤ p < MAX_PORTS → 0 ≤ i < n → 0 ≤ f < MAX_FUNC →
  ∃ m1,
    write_cell inst p i f v m = Ok tt m1 ∧
    live_matrix (blocks m1) inst n pp pr cl ∧
    cell_slot (blocks m1) inst p i f = Some (Some v) ∧
    (∃ m2, read_cell inst p i f m1 = Ok v m2) ∧
    ∀ p' i' f',
      0 ≤ p' < MAX_PORTS → 0 ≤ i' < n → 0 ≤ f' < MAX_FUNC →
      (p', i', f') ≠ (p, i, f) →
      cell_slot (blocks m1) inst p' i' f' = cell_slot (blocks m) inst p' i' f' ∧
      outcome (read_cell inst p' i' f' m1) = outcome (read_cell inst p' i' f' m).
Proof.
  unfold MAX_PORTS. intros Hlive Hp Hi Hf.
  destruct (write_cell_slots m inst n pp pr cl p i f v Hlive Hp Hi Hf)
    as (m1 & Hw & Hlive1 & Hs1 & Hframe).
  exists m1. split_and!; [done..| |].
  - pose proof (read_cell_slot m1 inst n pp pr cl p i f Hlive1 Hp Hi Hf) as Hr.
    rewrite Hs1 in Hr.
    destruct (read_cell inst p i f m1) as [w m2|]; [|done].
    injection Hr as ->. by exists m2.
  - intros p' i' f' Hp' Hi' Hf' Hne.
    pose proof (Hframe p' i' f' Hp' Hi' Hf' Hne) as E. split; [done|].
    rewrite (read_cell_slot m1 inst n pp pr cl p' i' f' Hlive1 Hp' Hi' Hf').
    rewrite (read_cell_slot m inst n pp pr cl p' i' f' Hlive Hp' Hi' Hf').
    by rewrite E.
Qed.

Lemma mem_after_create_live :
  live_matrix (blocks (mem_after_create 6)) 1 6 2 (Mid 1 6) (Cel 1 6).
Proof.
  destruct (create_granted 6 (init_mem all_ok)) as (m' & Hrun & Hb);
    [apply wf_init | lia | done |].
  unfold mem_after_create. rewrite Hrun. simpl.
  apply (built_live 6 (init_mem all_ok) m'); [apply wf_init | lia | done].
Qed.

Lemma cell_write_independent_witness :
  ∃ m1,
    write_cell 1 GPIO_B 2 GPIO_ALT GPIO_ON (mem_after_create 6) = Ok tt m1 ∧
    live_matrix (blocks m1) 1 6 2 (Mid 1 6) (Cel 1 6) ∧
    cell_slot (blocks m1) 1 GPIO_B 2 GPIO_ALT = Some (Some GPIO_ON) ∧
    (∃ m2, read_cell 1 GPIO_B 2 GPIO_ALT m1 = Ok GPIO_ON m2) ∧
    ∀ p' i' f',
      0 ≤ p' < MAX_PORTS → 0 ≤ i' < 6 → 0 ≤ f' < MAX_FUNC →
      (p', i', f') ≠ (GPIO_B, 2, GPIO_ALT) →
      cell_slot (blocks m1) 1 p' i' f' =
        cell_slot (blocks (mem_after_create 6)) 1 p' i' f' ∧
      outcome (read_cell 1 p' i' f' m1) =
        outcome (read_cell 1 p' i' f' (mem_after_create 6)).
Proof.
  apply (cell_write_independent (mem_after_create 6) 1 6 2 (Mid 1 6) (Cel 1 6)
           GPIO_B 2 GPIO_ALT GPIO_ON).
  - apply mem_after_create_live.
  - unfold GPIO_B, MAX_PORTS. lia.
  - lia.
  - unfold GPIO_ALT, MAX_FUNC. lia.
Defined.

(** C3, as the source has it: [PINS_createInstance] writes no cell.  After
    a successful construction every cell exists and still holds the
    indeterminate content [malloc] left; after the three writes of [main]
    on a 6-pin matrix the three written cells hold ON and every other cell
    is still indeterminate. *)
Theorem create_leaves_cells_indeterminate (n : Z) (m : mem) (inst : Z)
    (m' : mem) :
  wf_mem m → 0 < n < SIZE_MOD →
  PINS_createInstance n m = Ok inst m' → inst ≠ NULL →
  (∀ p i f, 0 ≤ p < MAX_PORTS → 0 ≤ i < n → 0 ≤ f < MAX_FUNC →
            cell_slot (blocks m') inst p i f = Some None) ∧
  (n = 6 →
   ∃ m3, main_writes inst m' = Ok tt m3 ∧
         cell_slot (blocks m3) inst GPIO_A 0 GPIO_OUT = Some (Some GPIO_ON) ∧
         cell_slot (blocks m3) inst GPIO_B 2 GPIO_ALT = Some (Some GPIO_ON) ∧
         cell_slot (blocks m3) inst GPIO_C 5 GPIO_IN = Some (Some GPIO_ON) ∧
         ∀ p i f, 0 ≤ p < MAX_PORTS → 0 ≤ i < 6 → 0 ≤ f < MAX_FUNC →
                  (p, i, f) ≠ (GPIO_A, 0, GPIO_OUT) →
                  (p, i, f) ≠ (GPIO_B, 2, GPIO_ALT) →
                  (p, i, f) ≠ (GPIO_C, 5, GPIO_IN) →
                  cell_slot (blocks m3) inst p i f = Some None).
Proof.
  intros Hwf Hn Hrun Hinst.
  destruct (create_result n m inst m' Hwf) as (-> & Hlt & Hb); [lia | done..|].
  pose proof (built_live n m m' Hwf) as Hlive.
  specialize (Hlive ltac:(lia) Hb).
  assert (Hcells : ∀ p i f, 0 ≤ p < MAX_PORTS → 0 ≤ i < n → 0 ≤ f < MAX_FUNC →
            cell_slot (blocks m') (next m) p i f = Some None).
  { unfold MAX_PORTS, MAX_FUNC. intros p i f Hp Hi Hf.
    destruct Hb as [Hs _].
    pose proof (sh_cel _ _ _ _ _ _ _ Hs p i Hp Hi) as Hc. simpl in Hc.
    rewrite (cell_slot_live _ _ _ _ _ _ Hlive p i f _ Hp Hi Hc).
    apply lookup_replicate_2. lia. }
  split; [done|]. intros ->.
  destruct (write_cell_slots m' _ _ _ _ _ GPIO_A 0 GPIO_OUT GPIO_ON Hlive)
    as (m1 & Hw1 & Hl1 & Hs1 & Hf1); [done..|].
  destruct (write_cell_slots m1 _ _ _ _ _ GPIO_B 2 GPIO_ALT GPIO_ON Hl1)
    as (m2 & Hw2 & Hl2 & Hs2 & Hf2); [done..|].
  destruct (write_cell_slots m2 _ _ _ _ _ GPIO_C 5 GPIO_IN GPIO_ON Hl2)
    as (m3 & Hw3 & Hl3 & Hs3 & Hf3); [done..|].
  exists m3. split_and!.
  - unfold main_writes, mbind, M_bind, bind. by rewrite Hw1, Hw2.
  - rewrite (Hf3 GPIO_A 0 GPIO_OUT) by done. by rewrite (Hf2 GPIO_A 0 GPIO_OUT).
  - by rewrite (Hf3 GPIO_B 2 GPIO_ALT).
  - done.
  - intros p i f Hp Hi Hf HA HB HC.
    rewrite (Hf3 p i f Hp Hi Hf HC), (Hf2 p i f Hp Hi Hf HB),
      (Hf1 p i f Hp Hi Hf HA).
    by apply Hcells.
Qed.

Lemma create_leaves_cells_indeterminate_witness :
  (∀ p i f, 0 ≤ p < MAX_PORTS → 0 ≤ i < 6 → 0 ≤ f < MAX_FUNC →
            cell_slot (blocks (mem_after_create 6)) 1 p i f = Some None) ∧
  (6 = 6 →
   ∃ m3, main_writes 1 (mem_after_create 6) = Ok tt m3 ∧
         cell_slot (blocks m3) 1 GPIO_A 0 GPIO_OUT = Some (Some GPIO_ON) ∧
         cell_slot (blocks m3) 1 GPIO_B 2 GPIO_ALT = Some (Some GPIO_ON) ∧
         cell_slot (blocks m3) 1 GPIO_C 5 GPIO_IN = Some (Some GPIO_ON) ∧
         ∀ p i f, 0 ≤ p < MAX_PORTS → 0 ≤ i < 6 → 0 ≤ f < MAX_FUNC →
                  (p, i, f) ≠ (GPIO_A, 0, GPIO_OUT) →
                  (p, i, f) ≠ (GPIO_B, 2, GPIO_ALT) →
                  (p, i, f) ≠ (GPIO_C, 5, GPIO_IN) →
                  cell_slot (blocks m3) 1 p i f = Some None).
Proof.
  apply (create_leaves_cells_indeterminate 6 (init_mem all_ok) 1
           (mem_after_create 6)).
  - apply wf_init.
  - unfold SIZE_MOD. lia.
  - vm_compute. reflexivity.
  - unfold NULL. lia.
Defined.

(** C3, as the claim has it, fails: after [PINS_createInstance 1] has
    succeeded, the cell (A, 0, OUT) does not hold OFF; it was never
    written, and reading it is a use of an indeterminate value. *)
Lemma create_cell_not_off :
  outcome (PINS_createInstance 1 (init_mem all_ok)) = inl (Some 1) ∧
  cell_slot (blocks (mem_after_create 1)) 1 GPIO_A 0 GPIO_OUT
    ≠ Some (Some GPIO_OFF) ∧
  outcome (read_cell 1 GPIO_A 0 GPIO_OUT (mem_after_create 1)) = inr UninitRead.
Proof.
  split_and!.
  - vm_compute. reflexivity.
  - vm_compute. discriminate.
  - vm_compute. reflexivity.
Qed.




(** * Further properties of the routines *)

(** ** What [PINS_destroyInstance] never does *)

Section shrinking.
Context (m0 : mem).

Local Abbreviation K := (shrunk m0).
Local Abbreviation Jk := (fun (_ : fault) (m : mem) => shrunk m0 m).

Lemma shrunk_refl : K m0.
Proof.
  split; [done | eauto |]. exists []. by rewrite app_nil_r.
Qed.

Lemma shrunk_log e m : quiet e → K m → K (log e m).
Proof.
  intros He [H1 H2 (evs & E & Hall)]. split; simpl; [done..|].
  exists (evs ++ [e]). rewrite E, app_assoc. split; [done|].
  apply Forall_app. split; [done|]. by apply Forall_singleton.
Qed.

Lemma k_load Q p i m :
  K m → (∀ v m', K m' → Q v m') → wp (load p i) Q Jk m.
Proof.
  intros Hk HQ. apply wp_load_any; [|done].
  intros b v _ _ _. by apply HQ, shrunk_log.
Qed.

Lemma k_clear Q p i m :
  K m → (∀ m', K m' → Q tt m') → wp (store p i NULL) Q Jk m.
Proof.
  intros Hk HQ. apply wp_store_any; [|done].
  intros b Hb Hi. apply HQ, shrunk_log; [done|].
  destruct Hk as [H1 H2 H3]. split; simpl; [done | | done].
  intros x b'. destruct (decide (x = p)) as [->|].
  - rewrite lookup_insert_eq. intros [= <-].
    destruct (H2 p b Hb) as (b0 & ? & ?). exists b0.
    by rewrite length_insert.
  - rewrite lookup_insert_ne by done. apply H2.
Qed.

Lemma k_free Q p m :
  K m → (∀ m', K m' → Q tt m') → wp (free p) Q Jk m.
Proof.
  intros Hk HQ. apply wp_free_any; [| |done].
  - intros _. by apply HQ, shrunk_log.
  - intros b _ Hb. apply HQ, shrunk_log; [done|].
    destruct Hk as [H1 H2 H3]. split; simpl; [done | | done].
    intros x b' [_ Hx]%lookup_delete_Some. by apply H2.
Qed.

Lemma k_rd_pins Q a m :
  K m → (∀ v m', K m' → Q v m') → wp (rd_pins a) Q Jk m.
Proof. apply k_load. Qed.

Lemma k_rd_port Q a p m :
  K m → (∀ v m', K m' → Q v m') → wp (rd_port a p) Q Jk m.
Proof.
  intros Hk HQ. apply wp_bind, k_rd_pins; [done|].
  intros pp m1 Hk1. by apply k_load.
Qed.

Lemma k_rd_pin Q a p i m :
  K m → (∀ v m', K m' → Q v m') → wp (rd_pin a p i) Q Jk m.
Proof.
  intros Hk HQ. apply wp_bind, k_rd_port; [done|].
  intros pr m1 Hk1. by apply k_load.
Qed.

Lemma k_for {R} fuel (cond : Z → M bool) (body : Z → M (option R)) i m :
  (∀ i m, K m → wp (cond i) (fun _ m' => K m') Jk m) →
  (∀ i m, K m → wp (body i) (fun _ m' => K m') Jk m) →
  K m →
  wp (for_loop fuel cond body i) (fun _ m' => K m') Jk m.
Proof.
  intros Hc Hb Hk. apply (wp_for (fun _ _ m' => K m')); [|done].
  intros fuel' i' m1 Hk1.
  eapply wp_mono; [by apply Hc | | done].
  intros [] m2 Hk2; [|done]. destruct fuel'; [done|].
  eapply wp_mono; [by apply Hb | | done].
  by intros [] m3 Hk3.
Qed.

Lemma destroy_pin_shrinks a p i m :
  K m → wp (destroy_pin a p i) (fun _ m' => K m') Jk m.
Proof.
  intros Hk. unfold destroy_pin.
  apply wp_bind, k_rd_pin; [done|]. intros c m1 Hk1.
  apply wp_bind. destruct (negb (c =? NULL)).
  - apply wp_bind, k_rd_pin; [done|]. intros q m2 Hk2.
    apply wp_bind, k_free; [done|]. intros m3 Hk3.
    unfold wr_pin. apply wp_bind, k_rd_port; [done|]. intros pr m4 Hk4.
    apply k_clear; [done|]. intros m5 Hk5. by apply wp_ret.
  - by apply wp_ret, wp_ret.
Qed.

Lemma destroy_port_shrinks a p m :
  K m → wp (destroy_port a p) (fun _ m' => K m') Jk m.
Proof.
  intros Hk. unfold destroy_port.
  apply wp_bind, k_rd_port; [done|]. intros pr m1 Hk1.
  apply wp_bind. destruct (negb (pr =? NULL)).
  - apply wp_bind, wp_pins_fuel. intros fuel _.
    apply wp_bind. eapply wp_mono; [apply k_for; [| |exact Hk1] | | done].
    + intros i m2 Hk2. apply wp_bind, k_load; [done|].
      intros n m3 Hk3. by apply wp_ret.
    + intros i m2 Hk2. by apply destroy_pin_shrinks.
    + intros ? m2 Hk2.
      apply wp_bind, k_rd_port; [done|]. intros q m3 Hk3.
      apply wp_bind, k_free; [done|]. intros m4 Hk4.
      unfold wr_port. apply wp_bind, k_rd_pins; [done|]. intros pp m5 Hk5.
      apply k_clear; [done|]. intros m6 Hk6. by apply wp_ret.
  - by apply wp_ret, wp_ret.
Qed.

Lemma destroy_shrinks a m :
  K m → wp (PINS_destroyInstance a) (fun _ m' => K m') Jk m.
Proof.
  intros Hk. unfold PINS_destroyInstance.
  destruct (a =? NULL); [by apply wp_ret|].
  apply wp_bind, k_rd_pins; [done|]. intros pp m1 Hk1.
  apply wp_bind. destruct (negb (pp =? NULL)).
  - apply wp_bind. eapply wp_mono; [apply k_for; [| |exact Hk1] | | done].
    + intros i m2 Hk2. by apply wp_ret.
    + intros i m2 Hk2. by apply destroy_port_shrinks.
    + intros ? m2 Hk2.
      apply wp_bind, k_rd_pins; [done|]. intros q m3 Hk3.
      apply wp_bind, k_free; [done|]. intros m4 Hk4.
      apply k_clear; [done|]. intros m5 Hk5.
      apply wp_bind, k_free; [done|]. intros m6 Hk6. by apply wp_ret.
  - apply wp_ret. apply wp_bind, k_free; [done|]. intros m6 Hk6. by apply wp_ret.
Qed.
End shrinking.

(** X1: [PINS_destroyInstance] only clears and releases.  On every input,
    a wild pointer or a damaged heap included, and whether the run returns
    or faults, it has made no request to the allocator, no block has
    appeared or changed size, and every store it made wrote NULL. *)
Theorem destroy_only_releases (inst : Z) (m : mem) :
  shrunk m (final (PINS_destroyInstance inst m)).
Proof.
  pose proof (wp_run _ _ _ _ (destroy_shrinks m inst m (shrunk_refl m))) as H.
  by destruct (PINS_destroyInstance inst m).
Qed.

(** ** Partial instances *)

Lemma partial_mem_shape :
  shape 1 2 partial_ps partial_cs fresh_cells ∅ (blocks partial_mem).
Proof.
  split; simpl.
  - intros x Hx. by rewrite !lookup_insert_ne by lia.
  - by rewrite lookup_insert_eq.
  - rewrite lookup_insert_ne by lia. rewrite lookup_insert_eq.
    eexists. split_and!; [done..|]. intros q Hq. by port_cases.
  - intros q Hq. port_cases; simpl.
    + rewrite !lookup_insert_ne by (unfold Mid; lia). rewrite lookup_insert_eq.
      eexists. split_and!; [done..|]. intros j Hj.
      assert (j = 0 ∨ j = 1) as [->| ->] by lia; done.
    + done.
    + done.
    + done.
  - intros q j Hq Hj. assert (j = 0 ∨ j = 1) as [->| ->] by lia; by port_cases.
  - intros x Hx. unfold End in Hx. by rewrite !lookup_insert_ne by lia.
Qed.

Lemma partial_settled : settled 2 partial_ps partial_cs.
Proof.
  split_and!.
  - intros q Hq. by port_cases.
  - intros q j Hq Hj _. assert (j = 0 ∨ j = 1) as [->| ->] by lia; by port_cases.
  - intros q j Hq Hj. assert (j = 0 ∨ j = 1) as [->| ->] by lia; by port_cases.
Qed.

(** X2: [PINS_destroyInstance] on a partial instance.  When every port
    slot is NULL or points to a live pin-level array, and every pin slot of
    a live array is NULL or points to a live function-level array, the
    routine returns SUCCESS, hands to [free] exactly the live arrays
    (function-level arrays of a port, then its pin-level array, port by
    port), then the port-level array and the header, skips every NULL
    slot, and leaves the heap the instance was built on. *)
Theorem destroy_partial_instance (a n : Z) (ps : Z → status)
    (cs : Z → Z → status) (cells : Z → Z → block) (h0 : gmap Z block)
    (m : mem) :
  0 < a → 0 ≤ n < SIZE_MOD →
  settled n ps cs →
  (∀ x, a ≤ x → h0 !! x = None) →
  shape a n ps cs cells h0 (blocks m) →
  ∃ m', PINS_destroyInstance a m = Ok SUCCESS m' ∧
        blocks m' = h0 ∧
        freed m' = freed m ++ port_frees a n ps cs 4 ++ [a + 1; a].
Proof.
  intros Ha Hn Hset Hfresh Hs.
  pose proof (wp_run _ _ _ _
    (destroy_shape a n Ha Hn ps cs cells h0 Hset (fun _ _ => False) Hfresh m Hs))
    as H.
  destruct (PINS_destroyInstance a m) as [v m'|]; [|done].
  destruct H as (-> & Hb & _ & Hfr). by exists m'.
Qed.

Lemma destroy_partial_instance_witness :
  ∃ m', PINS_destroyInstance 1 partial_mem = Ok SUCCESS m' ∧
        blocks m' = ∅ ∧
        freed m' = freed partial_mem
                   ++ port_frees 1 2 partial_ps partial_cs 4 ++ [1 + 1; 1].
Proof.
  apply (destroy_partial_instance 1 2 partial_ps partial_cs fresh_cells ∅
           partial_mem).
  - lia.
  - unfold SIZE_MOD. lia.
  - apply partial_settled.
  - intros x _. apply lookup_empty.
  - apply partial_mem_shape.
Defined.

(** ** Whole instances: writes, teardown, and the memory around them *)

Lemma built_wf n m0 m' : wf_mem m0 → 0 ≤ n → built n m0 m' → wf_mem m'.
Proof.
  intros [Hpos Hfresh] Hn [Hs (Hnext & _)]. split; [unfold requests in *; lia|].
  intros x [Hx|Hx].
  - rewrite (sh_below _ _ _ _ _ _ _ Hs) by lia. apply Hfresh. lia.
  - apply (sh_above _ _ _ _ _ _ _ Hs). unfold End, requests in *. lia.
Qed.

Lemma built_whole n m0 m' : built n m0 m' → whole (next m0) n (blocks m0) m'.
Proof. intros [Hs _]. by exists fresh_cells. Qed.

Lemma whole_live a n h0 m :
  0 < a → 0 ≤ n → whole a n h0 m →
  live_matrix (blocks m) a n (a + 1) (Mid a n) (Cel a n).
Proof. intros Ha Hn (cells & Hs & Hlen). by eapply shape_live. Qed.

Lemma shape_write_cell a n ps cs cells h0 h p i bc :
  0 ≤ n → 0 ≤ p < 4 → 0 ≤ i < n →
  is_live (cs p i) = true →
  shape a n ps cs cells h0 h →
  shape a n ps cs
    (fun q j => if decide (q = p ∧ j = i) then bc else cells q j) h0
    (<[Cel a n p i := bc]> h).
Proof.
  intros Hn Hp Hi Hl [Hb Hh Hprt Hm Hc Ha].
  pose proof (Cel_lower a n p i Hn) as Hlo.
  pose proof (Cel_upper a n p i Hn) as Hup.
  split.
  - intros x Hx. rewrite lookup_insert_ne by lia. auto.
  - by rewrite lookup_insert_ne by lia.
  - destruct Hprt as (bp & ? & ?). exists bp. by rewrite lookup_insert_ne by lia.
  - intros q Hq. specialize (Hm q Hq).
    rewrite lookup_insert_ne by (apply Cel_ne_Mid; lia). done.
  - intros q j Hq Hj. destruct (decide (q = p ∧ j = i)) as [[-> ->]|Hne].
    + by rewrite lookup_insert_eq, Hl.
    + rewrite lookup_insert_ne by (apply Cel_ne; lia). by apply Hc.
  - intros x Hx. rewrite lookup_insert_ne by lia. auto.
Qed.

Lemma write_cell_whole a n h0 m p i f v :
  0 < a → 0 ≤ n → whole a n h0 m →
  0 ≤ p < 4 → 0 ≤ i < n → 0 ≤ f < MAX_FUNC →
  ∃ m1, write_cell a p i f v m = Ok tt m1 ∧ whole a n h0 m1 ∧
        released m m1 [].
Proof.
  intros Ha Hn Hw Hp Hi Hf. pose proof (whole_live a n h0 m Ha Hn Hw) as Hlive.
  destruct Hw as (cells & Hs & Hlen).
  pose proof (sh_cel _ _ _ _ _ _ _ Hs p i Hp Hi) as Hc. simpl in Hc.
  assert (H : wp (write_cell a p i f v)
                (fun _ m1 =>
                   blocks m1 = <[Cel a n p i := <[Z.to_nat f := Some v]> (cells p i)]>
                                 (blocks m) ∧
                   released m m1 [])
                (fun _ _ => False) m).
  { unfold write_cell. apply wp_bind.
    eapply (wp_rd_pin_live m a n (a + 1) (Mid a n) (Cel a n) Hlive p i Hp Hi).
    eapply wp_store; simpl; [done | rewrite Hlen; unfold MAX_FUNC in *; lia |].
    split; [done|]. by rel (released_refl m). }
  apply wp_run in H. destruct (write_cell a p i f v m) as [[] m1|]; [|done].
  destruct H as [Hb Hrel]. exists m1. split_and!; [done | | done].
  eexists. rewrite Hb. split.
  - by apply shape_write_cell.
  - intros q j. simpl. destruct (decide (q = p ∧ j = i)); [|done].
    by rewrite length_insert.
Qed.

Lemma write_cells_whole a n h0 ws :
  0 < a → 0 ≤ n → Forall (in_range n) ws →
  ∀ m, whole a n h0 m →
       ∃ m1, write_cells a ws m = Ok tt m1 ∧ whole a n h0 m1 ∧
             released m m1 [].
Proof.
  intros Ha Hn Hall. induction Hall as [|[[[p i] f] v] ws (Hp & Hi & Hf) _ IH];
    intros m Hw.
  - exists m. split_and!; [done | done | apply released_refl].
  - destruct (write_cell_whole a n h0 m p i f v Ha Hn Hw Hp Hi Hf)
      as (m1 & Hw1 & Hwh1 & Hsame1 & Hfr1).
    destruct (IH m1 Hwh1) as (m2 & Hw2 & Hwh2 & Hsame2 & Hfr2).
    exists m2. split_and!; [| done |].
    + simpl. unfold mbind, M_bind, bind. by rewrite Hw1.
    + destruct Hsame1 as (? & ? & ?), Hsame2 as (? & ? & ?).
      split; [split_and!; congruence|]. rewrite Hfr2, Hfr1. by rewrite !app_nil_r.
Qed.

Lemma whole_destroy a n h0 m :
  0 < a → 0 ≤ n < SIZE_MOD →
  (∀ x, a ≤ x → h0 !! x = None) →
  whole a n h0 m →
  ∃ m', PINS_destroyInstance a m = Ok SUCCESS m' ∧ blocks m' = h0 ∧
        released m m' (teardown_order a n).
Proof.
  intros Ha Hn Hfresh (cells & Hs & _).
  assert (Hset : settled n (fun _ => Live) (fun _ _ => Live)) by by split_and!.
  pose proof (wp_run _ _ _ _
    (destroy_shape a n Ha Hn _ _ cells h0 Hset (fun _ _ => False) Hfresh m Hs))
    as H.
  destruct (PINS_destroyInstance a m) as [v m'|]; [|done].
  destruct H as (-> & Hb & Hsame & Hfr). exists m'. split_and!; [done..|].
  split; [done|]. by rewrite Hfr, teardown_all_live.
Qed.

(** ** What holds along the successful path of a construction

    A property of the memory that loads, stores and calls to [malloc]
    keep holds when [PINS_createInstance] returns a handle: on that path
    the routine does nothing else. *)

Section kept.
Context (F : mem → Prop).
Context (F_load : ∀ p i v m, F m → F (log (EvLoad p i v) m)).
Context (F_store : ∀ p i v h m, F m → F (log (EvStore p i v) (set_blocks h m))).
Context (F_ok : ∀ bytes m, F m → F (malloc_ok_mem bytes m)).
Context (F_ko : ∀ bytes m, F m → F (malloc_ko_mem bytes m)).

Local Abbreviation Jt := (fun (_ : fault) (_ : mem) => True).

Lemma f_load {B} p i (k : Z → M B) Q m :
  F m → (∀ v m', F m' → wp (k v) Q Jt m') → wp (load p i ≫= k) Q Jt m.
Proof.
  intros Hf Hk. apply wp_bind, wp_load_any; [|done].
  intros b v _ _ _. apply Hk. by apply F_load.
Qed.

Lemma f_store {B} p i v (k : unit → M B) Q m :
  F m → (∀ m', F m' → wp (k tt) Q Jt m') → wp (store p i v ≫= k) Q Jt m.
Proof.
  intros Hf Hk. apply wp_bind, wp_store_any; [|done].
  intros b _ _. apply Hk. by apply F_store.
Qed.

Lemma f_malloc {B} bytes (k : Z → M B) Q m :
  F m → (∀ v m', F m' → wp (k v) Q Jt m') → wp (malloc bytes ≫= k) Q Jt m.
Proof.
  intros Hf Hk. apply wp_bind, wp_malloc; intros _; apply Hk;
    [by apply F_ok | by apply F_ko].
Qed.

Lemma f_rd_port {B} a p (k : Z → M B) Q m :
  F m → (∀ v m', F m' → wp (k v) Q Jt m') → wp (rd_port a p ≫= k) Q Jt m.
Proof.
  intros Hf Hk. apply wp_bind. unfold rd_port, rd_pins.
  apply f_load; [done|]. intros pp m1 Hf1.
  apply wp_load_any; [|done].
  intros b v _ _ _. apply Hk. by apply F_load.
Qed.

Lemma create_func_keeps a p i m :
  F m →
  wp (create_func a p i)
     (fun r m' => match r with Some v => v = NULL | None => F m' end) Jt m.
Proof.
  intros Hf. unfold create_func.
  apply f_malloc; [done|]. intros c m1 Hf1.
  apply wp_bind. unfold wr_pin. apply f_rd_port; [done|]. intros pr m2 Hf2.
  apply wp_store_any; [|done]. intros b _ _.
  assert (Hf3 : F (log (EvStore pr i c)
                     (set_blocks (<[pr := <[Z.to_nat i := Some c]> b]> (blocks m2)) m2)))
    by by apply F_store.
  revert Hf3. generalize (log (EvStore pr i c)
    (set_blocks (<[pr := <[Z.to_nat i := Some c]> b]> (blocks m2)) m2)).
  intros m3 Hf3. unfold rd_pin.
  apply wp_bind, f_rd_port; [done|]. intros pr' m4 Hf4.
  apply wp_load_any; [|done]. intros b' c' _ _ _.
  destruct (c' =? NULL).
  - apply wp_then_any. intros _ m5. by apply wp_ret.
  - apply wp_ret. by apply F_load.
Qed.

Lemma create_port_keeps a p m :
  F m →
  wp (create_port a p)
     (fun r m' => match r with Some v => v = NULL | None => F m' end) Jt m.
Proof.
  intros Hf. unfold create_port.
  apply f_load; [done|]. intros n m1 Hf1.
  apply f_malloc; [done|]. intros c m2 Hf2.
  apply wp_bind. unfold wr_port, rd_pins. apply f_load; [done|]. intros pp m3 Hf3.
  apply wp_store_any; [|done]. intros b _ _.
  assert (Hf4 : F (log (EvStore pp p c)
                     (set_blocks (<[pp := <[Z.to_nat p := Some c]> b]> (blocks m3)) m3)))
    by by apply F_store.
  revert Hf4. generalize (log (EvStore pp p c)
    (set_blocks (<[pp := <[Z.to_nat p := Some c]> b]> (blocks m3)) m3)).
  intros m4 Hf4.
  apply f_rd_port; [done|]. intros pr m5 Hf5.
  destruct (pr =? NULL).
  - apply wp_then_any. intros _ m6. by apply wp_ret.
  - apply wp_bind, wp_pins_fuel. intros fuel _.
    apply (wp_for (fun _ _ m' => F m')); [|done].
    intros fuel' j m6 Hf6. apply f_load; [done|]. intros n' m7 Hf7.
    apply wp_ret. destruct (j <? n'); [|done].
    destruct fuel'; [done|]. by apply create_func_keeps.
Qed.

Lemma create_keeps n m0 :
  F m0 →
  wp (PINS_createInstance n) (fun v m' => v = NULL ∨ F m') Jt m0.
Proof.
  intros Hf0. unfold PINS_createInstance.
  apply f_malloc; [done|]. intros a m1 Hf1.
  destruct (a =? NULL); [by apply wp_ret; left|].
  apply f_store; [done|]. intros m2 Hf2.
  apply f_malloc; [done|]. intros c m3 Hf3.
  apply f_store; [done|]. intros m4 Hf4.
  unfold rd_pins. apply f_load; [done|]. intros pp m5 Hf5.
  destruct (pp =? NULL).
  - apply wp_then_any. intros _ m6. apply wp_ret. by left.
  - apply wp_bind.
    eapply wp_mono with
      (Q := fun r m' => match r with Some v => v = NULL | None => F m' end)
      (J := Jt);
      [apply (wp_for (fun _ _ m' => F m')); [|exact Hf5] | | done].
    + intros fuel j m6 Hf6. apply wp_ret. destruct (j <? MAX_PORTS); [|done].
      destruct fuel; [done|]. by apply create_port_keeps.
    + intros [v|] m6 H; apply wp_ret; [by left | by right].
Qed.
End kept.

Lemma create_no_free m0 n :
  wp (PINS_createInstance n) (fun v m' => v = NULL ∨ freed m' = freed m0)
     (fun _ _ => True) m0.
Proof.
  apply (create_keeps (fun m => freed m = freed m0)); [| | | | done].
  - intros p i v m Hf. by rewrite freed_log, app_nil_r.
  - intros p i v h m Hf. by rewrite freed_log, app_nil_r.
  - intros bytes m Hf. unfold freed in *. simpl. rewrite omap_app. simpl.
    by rewrite app_nil_r.
  - intros bytes m Hf. unfold freed in *. simpl. rewrite omap_app. simpl.
    by rewrite app_nil_r.
Qed.

(** ** When a construction succeeds, and what it has done *)

(** X3: [PINS_createInstance] returns a handle exactly when the allocator
    grants all of its 2 + 4 * (n + 1) requests (header, port-level array,
    and per port one pin-level and [n] function-level arrays), for every
    pin count below 2^30. *)
Theorem create_succeeds_iff_granted (n : Z) (m : mem) :
  wf_mem m → 0 ≤ n < 2 ^ 30 →
  ((∃ inst m', PINS_createInstance n m = Ok inst m' ∧ inst ≠ NULL) ↔
   (∀ k : nat, Z.of_nat k < requests n →
               alloc_ok m (nallocs m + k)%nat = true)).
Proof.
  intros Hwf Hn. split.
  - intros (inst & m' & Hrun & Hinst).
    destruct (create_result n m inst m' Hwf) as (_ & _ & [_ Hp]);
      [unfold SIZE_MOD; lia | done..|].
    apply Hp.
  - intros Hall. destruct (create_granted n m Hwf Hn Hall) as (m' & Hrun & _).
    exists (next m), m'. split; [done|]. destruct Hwf. unfold NULL. lia.
Qed.

Lemma create_succeeds_iff_granted_witness :
  (∃ inst m', PINS_createInstance 1 (init_mem (fail_at 5)) = Ok inst m' ∧
              inst ≠ NULL) ↔
  (∀ k : nat, Z.of_nat k < requests 1 →
              alloc_ok (init_mem (fail_at 5))
                (nallocs (init_mem (fail_at 5)) + k)%nat = true).
Proof.
  apply (create_succeeds_iff_granted 1 (init_mem (fail_at 5))).
  - apply wf_init.
  - lia.
Defined.

(** X4: what a successful [PINS_createInstance] has done.  The handle is
    the first address the allocator handed out; exactly 2 + 4 * (n + 1)
    requests were made; no pointer was handed to [free]; every block that
    was live before is untouched; and the memory is again well formed, so
    that further calls can follow. *)
Theorem create_success_effects (n : Z) (m : mem) (inst : Z) (m' : mem) :
  wf_mem m → 0 ≤ n < SIZE_MOD →
  PINS_createInstance n m = Ok inst m' → inst ≠ NULL →
  inst = next m ∧
  Z.of_nat (nallocs m') = Z.of_nat (nallocs m) + requests n ∧
  next m' = next m + requests n ∧
  freed m' = freed m ∧
  (∀ x, x < inst → blocks m' !! x = blocks m !! x) ∧
  wf_mem m'.
Proof.
  intros Hwf Hn Hrun Hinst.
  destruct (create_result n m inst m' Hwf Hn Hrun Hinst) as (-> & Hlt & Hb).
  pose proof (wp_run _ _ _ _ (create_no_free m n)) as Hf. rewrite Hrun in Hf.
  destruct Hf as [E|Hf]; [done|].
  pose proof (built_wf n m m' Hwf (proj1 Hn) Hb) as Hwf'.
  destruct Hb as [Hs (Hnext & _ & Hna & _)].
  split_and!; try done. apply (sh_below _ _ _ _ _ _ _ Hs).
Qed.

Lemma create_success_effects_witness :
  1 = next (init_mem all_ok) ∧
  Z.of_nat (nallocs (mem_after_create 2))
    = Z.of_nat (nallocs (init_mem all_ok)) + requests 2 ∧
  next (mem_after_create 2) = next (init_mem all_ok) + requests 2 ∧
  freed (mem_after_create 2) = freed (init_mem all_ok) ∧
  (∀ x, x < 1 → blocks (mem_after_create 2) !! x
                = blocks (init_mem all_ok) !! x) ∧
  wf_mem (mem_after_create 2).
Proof.
  apply (create_success_effects 2 (init_mem all_ok) 1 (mem_after_create 2)).
  - apply wf_init.
  - unfold SIZE_MOD. lia.
  - vm_compute. reflexivity.
  - unfold NULL. lia.
Defined.

(** X5: the size of the pin-level array wraps.  From 2^30 pins on,
    [num_of_pins * sizeof(int * )] exceeds 32 bits, the array obtained is
    shorter than [num_of_pins], and [PINS_createInstance] never returns a
    handle, whatever the allocator grants: a run that returns, returns
    NULL. *)
Theorem create_wrapped_size_no_handle (n : Z) (m : mem) (inst : Z)
    (m' : mem) :
  wf_mem m → 2 ^ 30 ≤ n < SIZE_MOD →
  PINS_createInstance n m = Ok inst m' →
  inst = NULL ∧ Z.of_nat (Z.to_nat (size_mul n sizeof_ptr / WORD)) < n.
Proof.
  intros Hwf Hn Hrun.
  pose proof (wp_run _ _ _ _ (create_wrap n m Hwf Hn)) as H.
  rewrite Hrun in H. split; [done|]. by apply wrapped_short.
Qed.

Lemma create_wrapped_size_no_handle_witness :
  outcome (PINS_createInstance (2 ^ 30 + 3) (init_mem (fail_at 1)))
    = inl (Some NULL) ∧
  Z.of_nat (Z.to_nat (size_mul (2 ^ 30 + 3) sizeof_ptr / WORD)) < 2 ^ 30 + 3.
Proof.
  pose proof (create_wrapped_size_no_handle (2 ^ 30 + 3) (init_mem (fail_at 1))
    NULL (final (PINS_createInstance (2 ^ 30 + 3) (init_mem (fail_at 1))))) as H.
  destruct H as [_ H].
  - apply wf_init.
  - unfold SIZE_MOD. lia.
  - vm_compute. reflexivity.
  - split; [vm_compute; reflexivity | exact H].
Defined.

(** A refusal of the header or of the port-level array: the routine
    undoes by hand what it has done and returns NULL. *)
Lemma create_early_stop n m :
  wf_mem m →
  alloc_ok m (nallocs m) = false ∨
  (alloc_ok m (nallocs m) = true ∧ alloc_ok m (S (nallocs m)) = false) →
  wp (PINS_createInstance n)
     (fun v m' => v = NULL ∧ blocks m' = blocks m ∧
        freed m' = freed m ++
          (if alloc_ok m (nallocs m) then [next m] else []))
     (fun _ _ => False) m.
Proof.
  intros [Hpos Hfresh] Hor.
  unfold PINS_createInstance. apply wp_bind, wp_malloc; intros E.
    - destruct Hor as [E'|[_ E']]; [congruence|]. rewrite E.
      assert ((next m =? NULL) = false) as ->
        by (apply Z.eqb_neq; unfold NULL; lia).
      apply wp_bind. eapply wp_store; simpl;
        [by rewrite lookup_insert_eq | unfold F_num_of_pins; simpl; lia |].
      apply wp_bind, wp_malloc; simpl; intros E''; [congruence|].
      apply wp_bind. eapply wp_store; simpl;
        [by rewrite lookup_insert_eq | unfold F_pins; simpl; lia |].
      apply wp_bind. eapply wp_rd_pins; simpl; [by rewrite lookup_insert_eq|].
      simpl. apply wp_bind.
      eapply wp_free; simpl; [unfold NULL; lia | by rewrite lookup_insert_eq |].
      apply wp_ret. split_and!; [done | |].
      + simpl. rewrite !insert_insert_eq. apply delete_insert_id, Hfresh. lia.
      + unfold freed. simpl. rewrite !omap_app. simpl.
        by rewrite !app_nil_r.
    - destruct Hor as [_|[E' _]]; [|congruence]. rewrite E. simpl.
      apply wp_ret. split_and!; [done..|].
      unfold freed. simpl. rewrite omap_app. done.
Qed.

(** X6: a failure before the port loop is rolled back by hand, and
    cleanly.  If the header is refused, or the header is granted and the
    port-level array refused, [PINS_createInstance] returns NULL, the heap
    is what it was before the call, and the only pointer handed to [free]
    is the header (in the second case). *)
Theorem create_early_failure_clean (n : Z) (m : mem) :
  wf_mem m →
  alloc_ok m (nallocs m) = false ∨
  (alloc_ok m (nallocs m) = true ∧ alloc_ok m (S (nallocs m)) = false) →
  ∃ m', PINS_createInstance n m = Ok NULL m' ∧
        blocks m' = blocks m ∧
        freed m' = freed m ++
                   (if alloc_ok m (nallocs m) then [next m] else []).
Proof.
  intros Hwf Hor.
  pose proof (wp_run _ _ _ _ (create_early_stop n m Hwf Hor)) as H.
  destruct (PINS_createInstance n m) as [v m'|]; [|done].
  destruct H as (-> & Hb & Hfr). by exists m'.
Qed.

Lemma create_early_failure_clean_witness :
  ∃ m', PINS_createInstance 3 (init_mem (fail_at 1)) = Ok NULL m' ∧
        blocks m' = blocks (init_mem (fail_at 1)) ∧
        freed m' = freed (init_mem (fail_at 1)) ++
                   (if alloc_ok (init_mem (fail_at 1))
                         (nallocs (init_mem (fail_at 1)))
                    then [next (init_mem (fail_at 1))] else []).
Proof.
  apply (create_early_failure_clean 3 (init_mem (fail_at 1))).
  - apply wf_init.
  - right. split; reflexivity.
Defined.

(** ** The life of an instance: writes, then teardown *)

(** X7: the teardown does not depend on what the cells hold.  After a
    successful construction and any sequence of in-range cell writes,
    [PINS_destroyInstance] returns SUCCESS, leaves exactly the blocks that
    were live before the construction, and the writes themselves have
    neither allocated nor released anything. *)
Theorem destroy_after_writes (n : Z) (m : mem) (inst : Z) (m1 : mem)
    (ws : list (Z * Z * Z * Z)) :
  wf_mem m → 0 < n < SIZE_MOD →
  PINS_createInstance n m = Ok inst m1 → inst ≠ NULL →
  Forall (in_range n) ws →
  ∃ m2 m3,
    write_cells inst ws m1 = Ok tt m2 ∧
    same_alloc m1 m2 ∧ freed m2 = freed m1 ∧
    PINS_destroyInstance inst m2 = Ok SUCCESS m3 ∧
    blocks m3 = blocks m ∧
    freed m3 = freed m2 ++ teardown_order inst n.
Proof.
  intros Hwf Hn Hrun Hinst Hws.
  destruct (create_result n m inst m1 Hwf) as (-> & Hlt & Hb); [lia | done..|].
  destruct Hwf as [Hpos Hfresh].
  destruct (write_cells_whole (next m) n (blocks m) ws Hpos) with (m := m1)
    as (m2 & Hw & Hwh & Hsame & Hfr); [lia | done | by apply built_whole |].
  destruct (whole_destroy (next m) n (blocks m) m2 Hpos) as (m3 & Hd & Hb3 & _ & Hfr3);
    [lia | intros; apply Hfresh; lia | done |].
  exists m2, m3. rewrite app_nil_r in Hfr. by split_and!.
Qed.

Lemma destroy_after_writes_witness :
  ∃ m2 m3,
    write_cells 1 [(GPIO_D, 1, GPIO_IN, 7); (GPIO_A, 0, GPIO_OUT, GPIO_ON)]
      (mem_after_create 2) = Ok tt m2 ∧
    same_alloc (mem_after_create 2) m2 ∧ freed m2 = freed (mem_after_create 2) ∧
    PINS_destroyInstance 1 m2 = Ok SUCCESS m3 ∧
    blocks m3 = blocks (init_mem all_ok) ∧
    freed m3 = freed m2 ++ teardown_order 1 2.
Proof.
  apply (destroy_after_writes 2 (init_mem all_ok) 1 (mem_after_create 2)).
  - apply wf_init.
  - unfold SIZE_MOD. lia.
  - vm_compute. reflexivity.
  - unfold NULL. lia.
  - repeat constructor; unfold GPIO_D, GPIO_A, GPIO_IN, GPIO_OUT, MAX_PORTS,
      MAX_FUNC; lia.
Defined.

Lemma then_ret_tt (c : M unit) m : (c;; mret tt) m = c m.
Proof.
  unfold mbind, M_bind, bind. by destruct (c m) as [[] ?|].
Qed.

Lemma main_writes_cells inst m :
  main_writes inst m
  = write_cells inst [(GPIO_A, 0, GPIO_OUT, GPIO_ON);
                      (GPIO_B, 2, GPIO_ALT, GPIO_ON);
                      (GPIO_C, 5, GPIO_IN, GPIO_ON)] m.
Proof.
  unfold main_writes. simpl. unfold mbind, M_bind, bind.
  destruct (write_cell inst GPIO_A 0 GPIO_OUT GPIO_ON m) as [[] m1|]; [|done].
  destruct (write_cell inst GPIO_B 2 GPIO_ALT GPIO_ON m1) as [[] m2|]; [|done].
  by destruct (write_cell inst GPIO_C 5 GPIO_IN GPIO_ON m2) as [[] m3|].
Qed.

(** [main] once its instance is built: three writes, one teardown. *)
Lemma main_of_built m m1 :
  wf_mem m →
  PINS_createInstance 6 m = Ok (next m) m1 → built 6 m m1 →
  ∃ m', main m = Ok 0 m' ∧
        blocks m' = blocks m ∧
        freed m' = freed m1 ++ teardown_order (next m) 6.
Proof.
  intros Hwf Hrun Hb.
  assert (Hinst : next m ≠ NULL) by (destruct Hwf; unfold NULL; lia).
  destruct Hwf as [Hpos Hfresh].
  destruct (write_cells_whole (next m) 6 (blocks m)
              [(GPIO_A, 0, GPIO_OUT, GPIO_ON); (GPIO_B, 2, GPIO_ALT, GPIO_ON);
               (GPIO_C, 5, GPIO_IN, GPIO_ON)] Hpos) with (m := m1)
    as (m2 & Hw & Hwh & Hsame & Hfr2); [lia | | by apply built_whole |].
  { repeat constructor; unfold GPIO_A, GPIO_B, GPIO_C, GPIO_IN, GPIO_OUT,
      GPIO_ALT, MAX_PORTS, MAX_FUNC; lia. }
  destruct (whole_destroy (next m) 6 (blocks m) m2 Hpos)
    as (m3 & Hd & Hb3 & _ & Hfr3); [unfold SIZE_MOD; lia | intros; apply Hfresh; lia | done |].
  rewrite app_nil_r in Hfr2.
  exists m3. split_and!; [| done | by rewrite Hfr3, Hfr2].
  unfold main, mbind, M_bind, bind. rewrite Hrun.
  assert ((next m =? NULL) = false) as -> by (by apply Z.eqb_neq).
  simpl. rewrite main_writes_cells. unfold mbind, M_bind, bind in Hw.
  rewrite Hw. unfold mbind, M_bind, bind. by rewrite Hd.
Qed.

(** X8: [main] with every request granted.  From any well-formed memory in
    which the allocator grants the next 30 requests, [main] returns 0 and
    leaves exactly the blocks that were live before; its [do ... while]
    loop calls [PINS_destroyInstance] once: the pointers handed to [free]
    are the blocks of the 6-pin instance, each once. *)
Theorem main_returns_clean (m : mem) :
  wf_mem m →
  (∀ k : nat, (k < 30)%nat → alloc_ok m (nallocs m + k)%nat = true) →
  ∃ m', main m = Ok 0 m' ∧
        blocks m' = blocks m ∧
        freed m' = freed m ++ teardown_order (next m) 6.
Proof.
  intros Hwf Hall.
  destruct (create_granted 6 m Hwf) as (m1 & Hrun & Hb); [lia | |].
  { intros k Hk. apply Hall. unfold requests in Hk. lia. }
  pose proof (wp_run _ _ _ _ (create_no_free m 6)) as Hf. rewrite Hrun in Hf.
  destruct Hf as [E|Hfr1]; [destruct Hwf; unfold NULL in E; lia|].
  destruct (main_of_built m m1 Hwf Hrun Hb) as (m' & Hm & Hb' & Hfr).
  exists m'. split_and!; [done | done |]. by rewrite Hfr, Hfr1.
Qed.

Lemma main_returns_clean_witness :
  ∃ m', main (init_mem all_ok) = Ok 0 m' ∧
        blocks m' = blocks (init_mem all_ok) ∧
        freed m' = freed (init_mem all_ok) ++ teardown_order (next (init_mem all_ok)) 6.
Proof.
  apply (main_returns_clean (init_mem all_ok)).
  - apply wf_init.
  - intros k _. reflexivity.
Defined.

(** ** Two instances side by side *)

(** A live matrix only depends on the blocks it is made of. *)
Lemma live_matrix_agree h h' inst n pp pr cl :
  live_matrix h inst n pp pr cl →
  (∀ x b, h !! x = Some b → h' !! x = Some b) →
  live_matrix h' inst n pp pr cl ∧
  ∀ p i f, 0 ≤ p < 4 → 0 ≤ i < n →
           cell_slot h' inst p i f = cell_slot h inst p i f.
Proof.
  intros Hlive Hag.
  assert (Hlive' : live_matrix h' inst n pp pr cl).
  { destruct Hlive as [Hh Hp Hm Hc Hnn Ht Hsm Hsc].
    split; [by apply Hag | | | | done..].
    - destruct Hp as (bp & Hbp & Hl). exists bp. split; [by apply Hag | done].
    - intros q Hq. destruct (Hm q Hq) as (br & Hbr & Hl).
      exists br. split; [by apply Hag | done].
    - intros q j Hq Hj. destruct (Hc q j Hq Hj) as (bc & Hbc & Hl).
      exists bc. split; [by apply Hag | done]. }
  split; [done|]. intros p i f Hp Hi.
  destruct (lm_cel _ _ _ _ _ _ Hlive p i Hp Hi) as (bc & Hbc & _).
  rewrite (cell_slot_live _ _ _ _ _ _ Hlive p i f bc Hp Hi Hbc).
  by rewrite (cell_slot_live _ _ _ _ _ _ Hlive' p i f bc Hp Hi (Hag _ _ Hbc)).
Qed.

Lemma whole_below a n h0 m x b :
  whole a n h0 m → (∀ y, a ≤ y → h0 !! y = None) →
  h0 !! x = Some b → blocks m !! x = Some b.
Proof.
  intros (cells & Hs & _) Hfresh Hx.
  destruct (decide (x < a)) as [Hlt|Hge].
  - by rewrite (sh_below _ _ _ _ _ _ _ Hs x Hlt).
  - rewrite Hfresh in Hx by lia. done.
Qed.

(** X10: instances do not disturb each other.  A matrix that is live when
    a second instance is constructed stays live, cell for cell, while the
    second instance is built, written to and torn down. *)
Theorem second_instance_leaves_first (m : mem) (i0 n0 pp : Z) (pr : Z → Z)
    (cl : Z → Z → Z) (n inst : Z) (m1 : mem) (ws : list (Z * Z * Z * Z))
    (m2 m3 : mem) :
  wf_mem m → live_matrix (blocks m) i0 n0 pp pr cl →
  0 ≤ n < SIZE_MOD →
  PINS_createInstance n m = Ok inst m1 → inst ≠ NULL →
  Forall (in_range n) ws →
  write_cells inst ws m1 = Ok tt m2 →
  PINS_destroyInstance inst m2 = Ok SUCCESS m3 →
  ∀ m', m' = m1 ∨ m' = m2 ∨ m' = m3 →
    live_matrix (blocks m') i0 n0 pp pr cl ∧
    ∀ p i f, 0 ≤ p < MAX_PORTS → 0 ≤ i < n0 →
             cell_slot (blocks m') i0 p i f = cell_slot (blocks m) i0 p i f.
Proof.
  intros Hwf Hlive Hn Hrun Hinst Hws Hw Hd m' Hm'.
  destruct (create_result n m inst m1 Hwf Hn Hrun Hinst) as (-> & Hlt & Hb).
  destruct Hwf as [Hpos Hfresh].
  assert (Hfr : ∀ y, next m ≤ y → blocks m !! y = None)
    by (intros; apply Hfresh; lia).
  pose proof (built_whole n m m1 Hb) as Hwh1.
  destruct (write_cells_whole (next m) n (blocks m) ws Hpos (proj1 Hn) Hws m1 Hwh1)
    as (m2' & Hw' & Hwh2 & _).
  assert (m2' = m2) as -> by congruence.
  destruct (whole_destroy (next m) n (blocks m) m2 Hpos Hn Hfr Hwh2)
    as (m3' & Hd' & Hb3 & _).
  assert (m3' = m3) as -> by congruence.
  unfold MAX_PORTS.
  apply live_matrix_agree; [done|]. intros x b Hx.
  destruct Hm' as [-> | [-> | ->]].
  - by apply (whole_below (next m) n (blocks m)).
  - by apply (whole_below (next m) n (blocks m)).
  - by rewrite Hb3.
Qed.

Lemma mem_after_create_built n :
  0 ≤ n < 2 ^ 30 → built n (init_mem all_ok) (mem_after_create n).
Proof.
  intros Hn.
  destruct (create_granted n (init_mem all_ok)) as (m' & Hrun & Hb);
    [apply wf_init | done | done |].
  unfold mem_after_create. by rewrite Hrun.
Qed.

Lemma second_instance_leaves_first_witness :
  let m := mem_after_create 1 in
  let m1 := final (PINS_createInstance 2 m) in
  let m2 := final (write_cells 11 [(GPIO_B, 1, GPIO_ALT, GPIO_ON)] m1) in
  live_matrix (blocks m2) 1 1 2 (Mid 1 1) (Cel 1 1) ∧
  ∀ p i f, 0 ≤ p < MAX_PORTS → 0 ≤ i < 1 →
           cell_slot (blocks m2) 1 p i f = cell_slot (blocks m) 1 p i f.
Proof.
  intros m m1 m2.
  apply (second_instance_leaves_first m 1 1 2 (Mid 1 1) (Cel 1 1) 2 11 m1
           [(GPIO_B, 1, GPIO_ALT, GPIO_ON)] m2
           (final (PINS_destroyInstance 11 m2))).
  - apply (built_wf 1 (init_mem all_ok)); [apply wf_init | lia |].
    apply mem_after_create_built. lia.
  - apply (built_live 1 (init_mem all_ok)); [apply wf_init | lia |].
    apply mem_after_create_built. lia.
  - unfold SIZE_MOD. lia.
  - vm_compute. reflexivity.
  - unfold NULL. lia.
  - repeat constructor; unfold GPIO_B, GPIO_ALT, MAX_PORTS, MAX_FUNC; lia.
  - vm_compute. reflexivity.
  - vm_compute. reflexivity.
  - right. left. reflexivity.
Defined.

(** ** Every block obtained is given back *)

Lemma granted_log e m :
  granted (log e m)
  = granted m ++ match e with
                 | EvMalloc _ p => if p =? NULL then [] else [p]
                 | _ => []
                 end.
Proof.
  unfold granted, log. simpl. rewrite omap_app. simpl.
  destruct e as [b p| | |]; try done. by destruct (p =? NULL).
Qed.

Lemma granted_quiet m0 m' : shrunk m0 m' → granted m' = granted m0.
Proof.
  intros [_ _ (evs & E & Hq)]. unfold granted. rewrite E, omap_app. clear E.
  match goal with |- _ ++ ?l = _ => assert (l = []) as -> end;
    [|by rewrite app_nil_r].
  induction Hq as [|e evs He _ IH]; [done|].
  destruct e; [destruct He | exact IH..].
Qed.

(** What a successful construction started in [m0] has obtained: the
    addresses from [next m0] on, one per request. *)
Lemma create_granted_blocks m0 n :
  0 < next m0 →
  wp (PINS_createInstance n)
     (fun v m' => v = NULL ∨
        (next m0 ≤ next m' ∧
         granted m' = granted m0 ++ seqZ (next m0) (next m' - next m0)))
     (fun _ _ => True) m0.
Proof.
  intros Hpos.
  apply (create_keeps (fun m =>
           next m0 ≤ next m ∧
           granted m = granted m0 ++ seqZ (next m0) (next m - next m0))).
  - intros p i v m [Hle Hg]. split; [done|]. rewrite granted_log. simpl.
    by rewrite app_nil_r.
  - intros p i v h m [Hle Hg]. split; [done|]. rewrite granted_log. simpl.
    by rewrite app_nil_r.
  - intros bytes m [Hle Hg]. split; [simpl; lia|].
    change (malloc_ok_mem bytes m) with
      (log (EvMalloc bytes (next m))
         (Mem (<[next m := replicate (Z.to_nat (bytes / WORD)) None]> (blocks m))
              (next m + 1) (alloc_ok m) (S (nallocs m)) (trace m))).
    rewrite granted_log. simpl.
    assert ((next m =? NULL) = false) as -> by (apply Z.eqb_neq; unfold NULL; lia).
    change (granted (Mem _ _ _ _ (trace m))) with (granted m). rewrite Hg.
    replace (next m + 1 - next m0) with ((next m - next m0) + 1) by lia.
    rewrite seqZ_app by lia. rewrite <- app_assoc. do 2 f_equal.
    replace (next m0 + (next m - next m0)) with (next m) by lia. done.
  - intros bytes m [Hle Hg]. split; [done|].
    change (malloc_ko_mem bytes m) with
      (log (EvMalloc bytes NULL)
         (Mem (blocks m) (next m) (alloc_ok m) (S (nallocs m)) (trace m))).
    rewrite granted_log. simpl.
    change (granted (Mem _ _ _ _ (trace m))) with (granted m).
    by rewrite app_nil_r.
  - split; [lia|]. by rewrite Z.sub_diag, app_nil_r.
Qed.

Lemma cells_of_port a n q : Cel a n q <$> seqZ 0 n = seqZ (Mid a n q + 1) n.
Proof.
  replace (Mid a n q + 1) with (Mid a n q + 1 + 0) by lia.
  rewrite <- (fmap_add_seqZ (Mid a n q + 1) 0 n).
  apply list_fmap_ext. intros _ j _. unfold Cel. lia.
Qed.

Lemma teardown_order_perm a n :
  0 ≤ n → teardown_order a n ≡ₚ seqZ a (requests n).
Proof.
  intros Hn. unfold teardown_order, requests, MAX_PORTS.
  assert (Hport : ∀ q, (Cel a n q <$> seqZ 0 n) ++ [Mid a n q]
                       ≡ₚ seqZ (Mid a n q) (n + 1)).
  { intros q. rewrite cells_of_port.
    rewrite (seqZ_cons (Mid a n q) (n + 1)) by lia.
    replace (Z.pred (n + 1)) with n by lia.
    replace (Z.succ (Mid a n q)) with (Mid a n q + 1) by lia.
    by rewrite Permutation_app_comm. }
  change (seqZ 0 4) with [0; 1; 2; 3]. simpl.
  rewrite !Hport, app_nil_r.
  rewrite (Permutation_app_comm _ [a + 1; a]). simpl.
  etrans; [apply perm_swap|].
  replace (2 + 4 * (n + 1))
    with (1 + (1 + ((n + 1) + ((n + 1) + ((n + 1) + (n + 1)))))) by lia.
  rewrite (seqZ_app a 1) by lia. rewrite (seqZ_app (a + 1) 1) by lia.
  rewrite (seqZ_app (a + 1 + 1) (n + 1)) by lia.
  rewrite (seqZ_app (a + 1 + 1 + (n + 1)) (n + 1)) by lia.
  rewrite (seqZ_app (a + 1 + 1 + (n + 1) + (n + 1)) (n + 1)) by lia.
  change (seqZ a 1) with [a]. change (seqZ (a + 1) 1) with [a + 1].
  replace (Mid a n 0) with (a + 1 + 1) by (unfold Mid; lia).
  replace (Mid a n 1) with (a + 1 + 1 + (n + 1)) by (unfold Mid; lia).
  replace (Mid a n 2) with (a + 1 + 1 + (n + 1) + (n + 1)) by (unfold Mid; lia).
  replace (Mid a n 3) with (a + 1 + 1 + (n + 1) + (n + 1) + (n + 1))
    by (unfold Mid; lia).
  done.
Qed.

(** X11: every block obtained is given back, once.  After a successful
    construction and its teardown, the pointers handed to [free] are a
    rearrangement of the pointers [malloc] handed out: one per request
    of the construction, no pointer twice; neither call touches the other's
    record. *)
Theorem teardown_frees_what_create_got (n : Z) (m : mem) (inst : Z)
    (m1 m2 : mem) :
  wf_mem m → 0 ≤ n < SIZE_MOD →
  PINS_createInstance n m = Ok inst m1 → inst ≠ NULL →
  PINS_destroyInstance inst m1 = Ok SUCCESS m2 →
  ∃ got given,
    granted m1 = granted m ++ got ∧ freed m1 = freed m ∧
    freed m2 = freed m1 ++ given ∧ granted m2 = granted m1 ∧
    given ≡ₚ got ∧ NoDup got ∧ Z.of_nat (length got) = requests n.
Proof.
  intros Hwf Hn Hrun Hinst Hd.
  destruct (create_result n m inst m1 Hwf Hn Hrun Hinst) as (-> & Hlt & Hb).
  destruct (destroy_built n m m1 Hwf) as (m2' & Hd' & _ & Hfr); [lia | done |].
  assert (m2' = m2) as -> by congruence.
  pose proof (wp_run _ _ _ _ (create_no_free m n)) as Hf. rewrite Hrun in Hf.
  destruct Hf as [E|Hf]; [done|].
  pose proof (wp_run _ _ _ _ (create_granted_blocks m n (proj1 Hwf))) as Hg.
  rewrite Hrun in Hg. destruct Hg as [E|[_ Hg]]; [done|].
  destruct Hb as [_ (Hnext & _)]. rewrite Hnext in Hg.
  replace (next m + requests n - next m) with (requests n) in Hg by lia.
  pose proof (wp_run _ _ _ _ (destroy_shrinks m1 (next m) m1 (shrunk_refl m1)))
    as Hk.
  rewrite Hd in Hk.
  exists (seqZ (next m) (requests n)), (teardown_order (next m) n).
  split_and!; [done | done | done | by apply granted_quiet | | apply NoDup_seqZ |].
  - apply teardown_order_perm. lia.
  - rewrite length_seqZ. unfold requests. lia.
Qed.

Lemma teardown_frees_what_create_got_witness :
  ∃ got given,
    granted (mem_after_create 2) = granted (init_mem all_ok) ++ got ∧
    freed (mem_after_create 2) = freed (init_mem all_ok) ∧
    freed (final (PINS_destroyInstance 1 (mem_after_create 2)))
      = freed (mem_after_create 2) ++ given ∧
    granted (final (PINS_destroyInstance 1 (mem_after_create 2)))
      = granted (mem_after_create 2) ∧
    given ≡ₚ got ∧ NoDup got ∧ Z.of_nat (length got) = requests 2.
Proof.
  apply (teardown_frees_what_create_got 2 (init_mem all_ok) 1).
  - apply wf_init.
  - unfold SIZE_MOD. lia.
  - vm_compute. reflexivity.
  - unfold NULL. lia.
  - vm_compute. reflexivity.
Defined.


(** ** Where a refused request leaves the construction *)

Section shape_stops.
Context (a n : Z) (Hn : 0 ≤ n).
Context (cells : Z → Z → block) (h0 : gmap Z block).
Implicit Types (ps : Z → status) (cs : Z → Z → status) (h : gmap Z block).

(** Storing NULL into a port slot that has no array. *)
Lemma shape_null_mid ps ps' cs h p b :
  shape a n ps cs cells h0 h →
  0 ≤ p < 4 →
  h !! (a + 1) = Some b →
  is_live (ps p) = false →
  ps' p = Null →
  (∀ q, q ≠ p → ps' q = ps q) →
  shape a n ps' cs cells h0 (<[a + 1 := <[Z.to_nat p := Some NULL]> b]> h).
Proof.
  intros Hs Hp Hb Hdead E1 E2.
  destruct Hs as [Hbel Hh Hprt Hm Hc Ha].
  destruct Hprt as (b' & Hb' & Hlen & Hsl).
  assert (b' = b) as -> by congruence.
  split.
  - intros x Hx. rewrite lookup_insert_ne by lia. auto.
  - rewrite lookup_insert_ne by lia. auto.
  - rewrite lookup_insert_eq. eexists. split_and!; [done | by rewrite length_insert |].
    intros q Hq. destruct (decide (q = p)) as [->|Hne].
    + rewrite list_lookup_insert_eq by lia. by rewrite E1.
    + rewrite list_lookup_insert_ne by lia. rewrite E2 by done. auto.
  - intros q Hq. pose proof (Mid_lower a n q Hn).
    rewrite lookup_insert_ne by lia.
    destruct (decide (q = p)) as [->|Hne].
    + rewrite E1. simpl. specialize (Hm p Hp). by rewrite Hdead in Hm.
    + rewrite E2 by done. by apply Hm.
  - intros q j Hq Hj. pose proof (Cel_lower a n q j Hn).
    rewrite lookup_insert_ne by lia. auto.
  - intros x Hx. rewrite lookup_insert_ne by (unfold End in *; lia). auto.
Qed.

(** Storing NULL into a pin slot that has no array. *)
Lemma shape_null_cel ps cs cs' h p i b :
  shape a n ps cs cells h0 h →
  0 ≤ p < 4 → 0 ≤ i < n → ps p = Live →
  h !! Mid a n p = Some b →
  is_live (cs p i) = false →
  cs' p i = Null →
  (∀ q j, q ≠ p ∨ j ≠ i → cs' q j = cs q j) →
  shape a n ps cs' cells h0 (<[Mid a n p := <[Z.to_nat i := Some NULL]> b]> h).
Proof.
  intros Hs Hp Hi Elive Hb Hdead E1 E2.
  destruct (shape_mid_block a n cells h0 _ _ _ p Hs Hp Elive)
    as (b' & Hb' & Hlen & Hsl).
  assert (b' = b) as -> by congruence.
  destruct Hs as [Hbel Hh Hprt Hm Hc Ha].
  pose proof (Mid_lower a n p Hn) as Hlo.
  pose proof (Mid_upper a n p Hn) as Hup.
  split.
  - intros x Hx. rewrite lookup_insert_ne by lia. auto.
  - rewrite lookup_insert_ne by lia. auto.
  - destruct Hprt as (bp & ? & ? & ?). exists bp.
    rewrite lookup_insert_ne by lia. auto.
  - intros q Hq. destruct (decide (q = p)) as [->|Hne].
    + rewrite Elive. simpl. rewrite lookup_insert_eq. eexists.
      split_and!; [done | by rewrite length_insert |].
      intros j Hj. destruct (decide (j = i)) as [->|Hji].
      * rewrite list_lookup_insert_eq by lia. by rewrite E1.
      * rewrite list_lookup_insert_ne by lia. rewrite E2 by auto. auto.
    + specialize (Hm q Hq).
      rewrite lookup_insert_ne by (apply Mid_ne; auto).
      destruct (is_live (ps q)); [|done].
      destruct Hm as (bq & ? & ? & Hq'). exists bq. split_and!; try done.
      intros j Hj. rewrite E2 by auto. auto.
  - intros q j Hq Hj.
    rewrite lookup_insert_ne by (apply Mid_ne_Cel; done).
    destruct (decide (q = p ∧ j = i)) as [[-> ->]|Hne].
    + rewrite E1. simpl. specialize (Hc p i Hp Hi). by rewrite Hdead in Hc.
    + assert (q ≠ p ∨ j ≠ i) as Hor by lia.
      rewrite E2 by done. auto.
  - intros x Hx. rewrite lookup_insert_ne by lia. auto.
Qed.
End shape_stops.

Lemma ps_stop_at p : ps_stop p p = Null.
Proof. unfold ps_stop. by rewrite Z.ltb_irrefl, Z.eqb_refl. Qed.

Lemma ps_stop_else p q : q ≠ p → ps_stop p q = ps_to p q.
Proof.
  intros Hne. unfold ps_stop, ps_to. destruct (Z.ltb_spec q p); [done|].
  by destruct (Z.eqb_spec q p).
Qed.

Lemma cs_stop_at p i : cs_stop p i p i = Null.
Proof.
  unfold cs_stop. by rewrite !Z.ltb_irrefl, !Z.eqb_refl.
Qed.

Lemma cs_stop_else p i q j : q ≠ p ∨ j ≠ i → cs_stop p i q j = cs_to p i q j.
Proof.
  intros Hne. unfold cs_stop, cs_to.
  destruct ((q <? p) || (q =? p) && (j <? i)); [done|].
  destruct (Z.eqb_spec q p), (Z.eqb_spec j i); simpl; try done; lia.
Qed.

Lemma cs_to_ahead p i : is_live (cs_to p i p i) = false.
Proof.
  unfold cs_to. by rewrite !Z.ltb_irrefl, Z.eqb_refl.
Qed.

(** The construction when request [k] of the port loop is the first one
    refused: it reaches the rollback with the slot of the refused array
    set to NULL, and what it returns is up to the teardown. *)
Section create_stop.
Context (n : Z) (m0 : mem) (Hwf : wf_mem m0) (Hn : 0 ≤ n < 2 ^ 30).
Context (k : nat) (Hk : 2 ≤ Z.of_nat k < requests n).
Context (Hgr : ∀ j : nat, (j < k)%nat → alloc_ok m0 (nallocs m0 + j)%nat = true).
Context (Href : alloc_ok m0 (nallocs m0 + k)%nat = false).

Local Abbreviation a := (next m0).
Local Abbreviation h0 := (blocks m0).

Context (Q : mem → Prop) (J : fault → mem → Prop).
Context (Hmid : ∀ p m, 0 ≤ p < 4 → Z.of_nat k = Mid a n p - a →
  shape a n (ps_stop p) (cs_to p 0) fresh_cells h0 (blocks m) →
  wp (PINS_destroyInstance a) (fun _ m' => Q m') J m).
Context (Hcel : ∀ p i m, 0 ≤ p < 4 → 0 ≤ i < n → Z.of_nat k = Cel a n p i - a →
  shape a n (ps_to (p + 1)) (cs_stop p i) fresh_cells h0 (blocks m) →
  wp (PINS_destroyInstance a) (fun _ m' => Q m') J m).

Lemma wp_malloc_first bytes c Q' m :
  progress m0 c m →
  0 ≤ c ≤ Z.of_nat k →
  (c < Z.of_nat k → progress m0 (c + 1) (malloc_ok_mem bytes m) →
   Q' (a + c) (malloc_ok_mem bytes m)) →
  (c = Z.of_nat k → Q' NULL (malloc_ko_mem bytes m)) →
  wp (malloc bytes) Q' J m.
Proof.
  intros (Hnext & Hok & Hna & Hall) Hc H1 H2.
  assert (Ek : nallocs m = (nallocs m0 + Z.to_nat c)%nat) by lia.
  apply wp_malloc; intros E; rewrite Hok, Ek in E.
  - assert (Hlt : c < Z.of_nat k).
    { destruct (decide (c = Z.of_nat k)) as [->|]; [|lia].
      rewrite Nat2Z.id in E. congruence. }
    rewrite Hnext. apply H1; [done|]. split_and!; simpl; try done; try lia.
    intros j Hj. apply Hgr. lia.
  - apply H2. destruct (decide (c < Z.of_nat k)) as [Hlt|]; [|lia].
    rewrite (Hgr (Z.to_nat c)) in E by lia. done.
Qed.

Lemma stop_func p i m :
  0 ≤ p < 4 → 0 ≤ i < n →
  shape a n (ps_to (p + 1)) (cs_to p i) fresh_cells h0 (blocks m) →
  progress m0 (Cel a n p i - a) m →
  Cel a n p i - a ≤ Z.of_nat k →
  wp (create_func a p i)
     (fun r m' =>
        match r with
        | Some v => v = NULL ∧ Q m'
        | None =>
            shape a n (ps_to (p + 1)) (cs_to p (i + 1)) fresh_cells h0 (blocks m') ∧
            progress m0 (Cel a n p (i + 1) - a) m' ∧
            Cel a n p (i + 1) - a ≤ Z.of_nat k
        end) J m.
Proof.
  intros Hp Hi Hs Hprog Hle.
  destruct (shape_mid_block a n fresh_cells h0 _ _ _ p Hs Hp (ps_to_here p))
    as (br & Hbr & Hlen & Hsl).
  pose proof (sh_hdr _ _ _ _ _ _ _ Hs) as Hh.
  destruct (sh_prt _ _ _ _ _ _ _ Hs) as (bp & Hbp & Hlenp & Hslp).
  pose proof (Hslp p Hp) as Hsp. rewrite ps_to_here in Hsp. simpl in Hsp.
  destruct Hwf as [Hpos _].
  pose proof (Cel_lower a n p i) as Hlo.
  pose proof (Cel_upper a n p i) as Hup.
  pose proof (Mid_lower a n p) as Hlo'.
  assert (Hne : Cel a n p i ≠ Mid a n p) by (apply Cel_ne_Mid; lia).
  unfold create_func. apply wp_bind.
  eapply wp_malloc_first; [done | lia | |].
  - (* granted *)
    intros Hlt Hprog'. replace (a + (Cel a n p i - a)) with (Cel a n p i) by lia.
    assert (Enext : next m = Cel a n p i) by (destruct Hprog as [-> _]; lia).
    apply wp_bind. eapply wp_wr_pin; simpl; rewrite ?Enext.
    + rewrite lookup_insert_ne by lia. done.
    + rewrite lookup_insert_ne by lia. done.
    + lia.
    + done.
    + rewrite lookup_insert_ne by done. done.
    + lia.
    + apply wp_bind. eapply wp_rd_pin; simpl.
      * rewrite !lookup_insert_ne by lia. done.
      * rewrite !lookup_insert_ne by lia. done.
      * lia.
      * done.
      * rewrite lookup_insert_eq. done.
      * lia.
      * rewrite list_lookup_insert_eq by lia. done.
      * assert ((Cel a n p i =? NULL) = false) as ->
          by (apply Z.eqb_neq; unfold NULL; lia).
        apply wp_ret. split_and!.
        { eapply shape_new_cel; eauto; [lia | apply ps_to_here | apply cs_to_at
                                       | apply cs_to_step]. }
        { replace (Cel a n p (i + 1) - a) with (Cel a n p i - a + 1)
            by (unfold Cel; lia). done. }
        { unfold Cel in *. lia. }
  - (* refused: this is request [k] *)
    intros Ek.
    apply wp_bind. eapply wp_wr_pin; simpl; [done | done | lia | done | done | lia |].
    apply wp_bind. eapply wp_rd_pin; simpl.
    + rewrite !lookup_insert_ne by lia. done.
    + rewrite !lookup_insert_ne by lia. done.
    + lia.
    + done.
    + rewrite lookup_insert_eq. done.
    + lia.
    + rewrite list_lookup_insert_eq by lia. done.
    + simpl. apply wp_bind.
      eapply wp_mono; [apply (Hcel p i); [done | done | lia |] | | done].
      * simpl. eapply shape_null_cel; eauto; [lia | apply ps_to_here
          | apply cs_to_ahead | apply cs_stop_at | apply cs_stop_else].
      * intros ? m' HQ. by apply wp_ret.
Qed.

Lemma stop_funcs p m :
  0 ≤ p < 4 →
  shape a n (ps_to (p + 1)) (cs_to p 0) fresh_cells h0 (blocks m) →
  progress m0 (Cel a n p 0 - a) m →
  Cel a n p 0 - a ≤ Z.of_nat k →
  wp (for_loop (Z.to_nat n)
        (fun func => n' ← load a F_num_of_pins; mret (func <? n'))
        (create_func a p) 0)
     (fun r m' =>
        match r with
        | Some v => v = NULL ∧ Q m'
        | None =>
            shape a n (ps_to (p + 1)) (cs_to p n) fresh_cells h0 (blocks m') ∧
            progress m0 (Cel a n p n - a) m' ∧
            Cel a n p n - a ≤ Z.of_nat k
        end) J m.
Proof.
  intros Hp Hs Hprog Hle.
  apply (wp_for (fun fuel i m' =>
           0 ≤ i ≤ n ∧ fuel = Z.to_nat (n - i) ∧
           shape a n (ps_to (p + 1)) (cs_to p i) fresh_cells h0 (blocks m') ∧
           progress m0 (Cel a n p i - a) m' ∧
           Cel a n p i - a ≤ Z.of_nat k)).
  - intros fuel i m1 (Hi & Hfuel & Hs1 & Hprog1 & Hle1).
    apply wp_bind. eapply wp_load; [by apply (sh_hdr _ _ _ _ _ _ _ Hs1) | done | done |].
    apply wp_ret. destruct (Z.ltb_spec i n) as [Hlt|Hge].
    + destruct fuel as [|f]; [lia|].
      eapply wp_mono;
        [apply (stop_func p i); [lia | lia | exact Hs1 | exact Hprog1 | exact Hle1]
        | | done].
      intros [v|] m2; [done|]. intros (Hs2 & Hprog2 & Hle2).
      rewrite (size_succ_small i n) by (unfold SIZE_MOD; lia).
      split_and!; try done; lia.
    + assert (i = n) as -> by lia. done.
  - split_and!; try done; try lia; f_equal; lia.
Qed.

Lemma stop_port p m :
  0 ≤ p < 4 →
  shape a n (ps_to p) (cs_to p 0) fresh_cells h0 (blocks m) →
  progress m0 (Mid a n p - a) m →
  Mid a n p - a ≤ Z.of_nat k →
  wp (create_port a p)
     (fun r m' =>
        match r with
        | Some v => v = NULL ∧ Q m'
        | None =>
            shape a n (ps_to (p + 1)) (cs_to (p + 1) 0) fresh_cells h0 (blocks m') ∧
            progress m0 (Mid a n (p + 1) - a) m' ∧
            Mid a n (p + 1) - a ≤ Z.of_nat k
        end) J m.
Proof.
  intros Hp Hs Hprog Hle.
  pose proof (sh_hdr _ _ _ _ _ _ _ Hs) as Hh.
  destruct (sh_prt _ _ _ _ _ _ _ Hs) as (bp & Hbp & Hlenp & Hslp).
  destruct Hwf as [Hpos _].
  pose proof (Mid_lower a n p) as Hlo.
  pose proof (Mid_upper a n p) as Hup.
  assert (Esz : Z.to_nat (size_mul n sizeof_ptr / WORD) = Z.to_nat n).
  { unfold size_mul, sizeof_ptr, WORD, SIZE_MOD.
    rewrite Z.mod_small by lia. by rewrite Z.div_mul by lia. }
  unfold create_port.
  apply wp_bind. eapply wp_load; [done | done | done |].
  apply wp_bind.
  eapply wp_malloc_first; [done | lia | |].
  - (* granted *)
    intros Hlt Hprog'. replace (a + (Mid a n p - a)) with (Mid a n p) by lia.
    assert (Enext : next m = Mid a n p) by (destruct Hprog as [-> _]; lia).
    assert (Hs' : shape a n (ps_to (p + 1)) (cs_to p 0) fresh_cells h0
              (<[a + 1 := <[Z.to_nat p := Some (Mid a n p)]> bp]>
                 (<[Mid a n p := replicate (Z.to_nat n) None]> (blocks m)))).
    { eapply shape_new_mid; eauto; [lia | | apply ps_to_here | by apply ps_to_step |].
      - unfold ps_to. by rewrite Z.ltb_irrefl.
      - intros j Hj. unfold cs_to. rewrite Z.ltb_irrefl, Z.eqb_refl. simpl.
        by replace (j <? 0) with false by (symmetry; apply Z.ltb_ge; lia). }
    apply wp_bind. eapply wp_wr_port; simpl; rewrite ?Enext, ?Esz.
    + rewrite lookup_insert_ne by lia. done.
    + rewrite lookup_insert_ne by lia. done.
    + lia.
    + apply wp_bind. eapply wp_rd_port; simpl.
      * rewrite !lookup_insert_ne by lia. done.
      * rewrite lookup_insert_eq. done.
      * lia.
      * rewrite list_lookup_insert_eq by lia. done.
      * assert ((Mid a n p =? NULL) = false) as ->
          by (apply Z.eqb_neq; unfold NULL; lia).
        apply wp_bind, wp_pins_fuel. intros f ->. simpl.
        rewrite !lookup_insert_ne by lia. rewrite Hh.
        eapply wp_mono; [apply (stop_funcs p); [lia | exact Hs' | |] | | done].
        { simpl. replace (Cel a n p 0 - a) with (Mid a n p - a + 1)
            by (unfold Cel; lia). done. }
        { unfold Cel. lia. }
        intros [v|] m2; [done|]. intros (Hs2 & Hprog2 & Hle2). split_and!.
        { eapply shape_ext; [exact Hs2 | done | |].
          - intros q j _ Hj. by rewrite (cs_to_next n).
          - intros q j _ Hj _. by rewrite (cs_to_next n). }
        { replace (Mid a n (p + 1) - a) with (Cel a n p n - a)
            by (unfold Cel, Mid; lia). done. }
        { unfold Cel, Mid in *. lia. }
  - (* refused: this is request [k] *)
    intros Ek.
    apply wp_bind. eapply wp_wr_port; simpl; [done | done | lia |].
    apply wp_bind. eapply wp_rd_port; simpl.
    + rewrite !lookup_insert_ne by lia. done.
    + rewrite lookup_insert_eq. done.
    + lia.
    + rewrite list_lookup_insert_eq by lia. done.
    + simpl. apply wp_bind.
      eapply wp_mono; [apply (Hmid p); [done | lia |] | | done].
      * simpl. eapply shape_null_mid; eauto; [lia | | apply ps_stop_at
          | apply ps_stop_else].
        unfold ps_to. by rewrite Z.ltb_irrefl.
      * intros ? m' HQ. by apply wp_ret.
Qed.

Lemma stop_create :
  wp (PINS_createInstance n) (fun v m' => v = NULL ∧ Q m') J m0.
Proof.
  destruct Hwf as [Hpos Hfresh'].
  assert (Hfresh : ∀ x, a ≤ x → h0 !! x = None) by (intros; apply Hfresh'; lia).
  assert (Hprog0 : progress m0 0 m0).
  { split_and!; try done; try lia. }
  unfold PINS_createInstance. apply wp_bind.
  eapply wp_malloc_first; [done | lia | | lia].
  intros _ Hprog1. replace (a + 0) with a by lia. change (0 + 1) with 1 in Hprog1.
  assert ((a =? NULL) = false) as -> by (apply Z.eqb_neq; unfold NULL; lia).
  apply wp_bind. eapply wp_store; simpl;
    [by rewrite lookup_insert_eq | unfold F_num_of_pins, F_pins; simpl; lia |].
  apply wp_bind.
  eapply wp_malloc_first; simpl; [exact Hprog1 | lia | | lia].
  intros _ Hprog2. change (1 + 1) with 2 in Hprog2.
  apply wp_bind. eapply wp_store; simpl.
  { rewrite lookup_insert_ne by lia. by rewrite lookup_insert_eq. }
  { unfold F_pins; simpl; lia. }
  apply wp_bind. eapply wp_rd_pins; simpl; [by rewrite lookup_insert_eq|].
  assert ((a + 1 =? NULL) = false) as -> by (apply Z.eqb_neq; unfold NULL; lia).
  set (h1 := <[a := _]> _).
  assert (Eh1 : h1 = <[a := [Some n; Some (a + 1)]]>
                      (<[a + 1 := replicate 4 None]> h0)).
  { subst h1. apply map_eq. intros x.
    destruct (decide (x = a)) as [->|].
    - by rewrite !lookup_insert_eq.
    - rewrite !(lookup_insert_ne _ a) by done.
      destruct (decide (x = a + 1)) as [->|].
      + by rewrite !lookup_insert_eq.
      + rewrite !(lookup_insert_ne _ (a + 1)) by done.
        by rewrite !(lookup_insert_ne _ a) by done. }
  apply wp_bind.
  eapply wp_mono with
    (Q := fun r m' =>
            match r with
            | Some v => v = NULL ∧ Q m'
            | None => False
            end) (J := J); [| | done].
  - apply (wp_for (fun fuel p m' =>
             0 ≤ p < 4 ∧ fuel = Z.to_nat (4 - p) ∧
             shape a n (ps_to p) (cs_to p 0) fresh_cells h0 (blocks m') ∧
             progress m0 (Mid a n p - a) m' ∧
             Mid a n p - a ≤ Z.of_nat k)).
    + intros fuel p m1 (Hp & Hfuel & Hs1 & Hprog' & Hle).
      apply wp_ret. unfold MAX_PORTS.
      rewrite (proj2 (Z.ltb_lt p 4)) by lia.
      destruct fuel as [|f]; [lia|].
      eapply wp_mono;
        [apply (stop_port p); [lia | exact Hs1 | exact Hprog' | exact Hle] | | done].
      intros [v|] m2; [done|]. intros (Hs2 & Hprog2' & Hle2).
      rewrite (size_succ_small p 4) by (unfold SIZE_MOD; lia).
      assert (p + 1 < 4).
      { destruct (decide (p + 1 < 4)); [done|]. assert (p = 3) as -> by lia.
        unfold Mid, requests in *. lia. }
      split_and!; try done; lia.
    + split_and!; try done; try lia; simpl.
      * rewrite Eh1. eapply shape_ext; [apply shape_init; try done; lia | | |].
        { intros q Hq. unfold ps_to.
          by replace (q <? 0) with false by (symmetry; apply Z.ltb_ge; lia). }
        { intros q j Hq Hj. unfold cs_to.
          replace (q <? 0) with false by (symmetry; apply Z.ltb_ge; lia).
          replace (j <? 0) with false by (symmetry; apply Z.ltb_ge; lia).
          by rewrite andb_false_r. }
        { done. }
      * rewrite Mid_0. replace (a + 2 - a) with 2 by lia. done.
      * rewrite Mid_0. lia.
  - intros [v|] m1; simpl; [|done].
    intros [-> HQ]. by apply wp_ret.
Qed.
End create_stop.

Lemma clean_point_mid a n p :
  0 ≤ p < 4 → 0 ≤ n → clean_point n (Mid a n p - a) = true ↔ p = 3.
Proof.
  intros Hp Hn. unfold clean_point, requests, Mid.
  rewrite orb_true_iff, !Z.eqb_eq. port_cases; lia.
Qed.

Lemma clean_point_cel a n p i :
  0 ≤ p < 4 → 0 ≤ i < n →
  clean_point n (Cel a n p i - a) = true ↔ p = 3 ∧ i = n - 1.
Proof.
  intros Hp Hn. unfold clean_point, requests, Cel, Mid.
  rewrite orb_true_iff, !Z.eqb_eq. port_cases; lia.
Qed.

(** A refusal in the port loop: what the rollback makes of it. *)
Lemma create_stop_outcome n m (k : nat) :
  wf_mem m → 0 ≤ n < 2 ^ 30 →
  2 ≤ Z.of_nat k < requests n →
  (∀ j : nat, (j < k)%nat → alloc_ok m (nallocs m + j)%nat = true) →
  alloc_ok m (nallocs m + k)%nat = false →
  wp (PINS_createInstance n)
     (fun v m' => v = NULL ∧ clean_point n (Z.of_nat k) = true ∧
                  blocks m' = blocks m)
     (fun f _ => clean_point n (Z.of_nat k) = false ∧ f = UninitRead) m.
Proof.
  intros Hwf Hn Hk Hgr Href.
  assert (Hn' : 0 ≤ n < SIZE_MOD) by (unfold SIZE_MOD; lia).
  assert (Hpos : 0 < next m) by apply Hwf.
  assert (Hfresh : ∀ x, next m ≤ x → blocks m !! x = None).
  { intros x Hx. apply Hwf. lia. }
  apply (stop_create n m Hwf Hn k Hk Hgr Href
             (fun m' => clean_point n (Z.of_nat k) = true ∧ blocks m' = blocks m)).
    - intros p m1 Hp Ek Hs.
      eapply wp_mono;
        [apply (destroy_any (next m) n Hpos Hn' (ps_stop p) (cs_to p 0)
                  fresh_cells (blocks m) (stop_mid_rooted n p) Hfresh m1 Hs) | |].
      + intros v m' (_ & Hset & Hb). split; [|done].
        rewrite Ek. apply clean_point_mid; [done | lia |].
        by apply (stop_mid_settled n).
      + intros f m' (-> & Hns). split; [|done].
        destruct (clean_point n (Z.of_nat k)) eqn:E; [|done].
        exfalso. apply Hns. rewrite Ek in E.
        apply clean_point_mid in E; [|done | lia]. by apply stop_mid_settled.
    - intros p i m1 Hp Hi Ek Hs.
      eapply wp_mono;
        [apply (destroy_any (next m) n Hpos Hn' (ps_to (p + 1)) (cs_stop p i)
                  fresh_cells (blocks m) (stop_cel_rooted n p i) Hfresh m1 Hs) | |].
      + intros v m' (_ & Hset & Hb). split; [|done].
        rewrite Ek. apply clean_point_cel; [done | done |].
        by apply (stop_cel_settled n).
      + intros f m' (-> & Hns). split; [|done].
        destruct (clean_point n (Z.of_nat k)) eqn:E; [|done].
        exfalso. apply Hns. rewrite Ek in E.
        apply clean_point_cel in E; [|done..]. by apply stop_cel_settled.
Qed.

(** X13: which refusals the rollback meets prepared.  Let request [k] of
    the port loop be the first one the allocator refuses.  If it is the
    pin-level array of port D or the last function-level array of port D,
    every slot the rollback looks at has been written, and
    [PINS_createInstance] returns NULL with the heap as it was before the
    call.  At every other request of the loop the rollback reads a pointer
    slot that was never written. *)
Theorem rollback_clean_or_reads_unwritten (n : Z) (m : mem) (k : nat) :
  wf_mem m → 0 ≤ n < 2 ^ 30 →
  2 ≤ Z.of_nat k < requests n →
  (∀ j : nat, (j < k)%nat → alloc_ok m (nallocs m + j)%nat = true) →
  alloc_ok m (nallocs m + k)%nat = false →
  if clean_point n (Z.of_nat k) then
    ∃ m', PINS_createInstance n m = Ok NULL m' ∧ blocks m' = blocks m
  else
    reads_indeterminate (PINS_createInstance n) m.
Proof.
  intros Hwf Hn Hk Hgr Href.
  pose proof (wp_run _ _ _ _ (create_stop_outcome n m k Hwf Hn Hk Hgr Href)) as H.
  unfold reads_indeterminate.
  destruct (PINS_createInstance n m) as [v m'|f m'].
  - destruct H as (-> & -> & Hb). by exists m'.
  - destruct H as (-> & ->). by exists m'.
Qed.

Lemma rollback_clean_or_reads_unwritten_witness :
  reads_indeterminate (PINS_createInstance 1) (init_mem (fail_at 5)).
Proof.
  apply (rollback_clean_or_reads_unwritten 1 (init_mem (fail_at 5)) 5).
  - apply wf_init.
  - lia.
  - unfold requests. lia.
  - intros j Hj. simpl. unfold fail_at.
    apply negb_true_iff, Nat.eqb_neq. lia.
  - reflexivity.
Defined.

(** ** Every outcome of a construction *)

(** Among the first [N] answers of an allocator, either all grant or there
    is a first refusal. *)
Lemma first_refusal (ok : nat → bool) (N : nat) :
  (∀ k, (k < N)%nat → ok k = true) ∨
  ∃ k, (k < N)%nat ∧ (∀ j, (j < k)%nat → ok j = true) ∧ ok k = false.
Proof.
  induction N as [|N [Hall|(k & Hk & Hgr & Href)]].
  - left. intros k Hk. lia.
  - destruct (ok N) eqn:E.
    + left. intros k Hk. destruct (decide (k = N)) as [->|]; [done|].
      apply Hall. lia.
    + right. exists N. split_and!; [lia | done | done].
  - right. exists k. split_and!; [lia | done | done].
Qed.

(** Whatever the allocator answers, [PINS_createInstance] builds the
    whole instance, or returns NULL with the heap as it found it, or reads
    a slot that was never written. *)
Lemma create_outcome n m :
  wf_mem m → 0 ≤ n < 2 ^ 30 →
  wp (PINS_createInstance n)
     (fun v m' => (v = next m ∧ built n m m') ∨
                  (v = NULL ∧ blocks m' = blocks m))
     (fun f _ => f = UninitRead) m.
Proof.
  intros Hwf Hn.
  destruct (first_refusal (fun k => alloc_ok m (nallocs m + k)%nat)
              (Z.to_nat (requests n))) as [Hall|(k & Hk & Hgr & Href)].
  - destruct (create_granted n m Hwf Hn) as (m' & Hrun & Hb).
    { intros k Hk. apply Hall. lia. }
    unfold wp. rewrite Hrun. by left.
  - destruct (decide (k < 2)%nat) as [Hlt|Hge].
    + eapply wp_mono; [apply (create_early_stop n m Hwf) | | done].
      * destruct k as [|[|k]]; [| |lia].
        { left. by rewrite Nat.add_0_r in Href. }
        { right. rewrite Nat.add_1_r in Href. split; [|done].
          rewrite <- (Nat.add_0_r (nallocs m)). apply Hgr. lia. }
      * intros v m' (-> & Hb & _). by right.
    + eapply wp_mono;
        [apply (create_stop_outcome n m k Hwf Hn); [lia | done | done] | |].
      * intros v m' (-> & _ & Hb). by right.
      * by intros f m' (_ & ->).
Qed.

(** X14: every outcome of a construction.  For every pin count below
    2^30 and every behaviour of the allocator, [PINS_createInstance]
    returns a handle to a fully allocated matrix, or returns NULL with the
    heap exactly as it found it, or reads a pointer slot that was never
    written.  Up to such a read it does nothing else that is undefined:
    no access outside a block or to a freed block, no [free] of a pointer
    that is no live block, and its loops come to an end. *)
Theorem create_outcomes (n : Z) (m : mem) :
  wf_mem m → 0 ≤ n < 2 ^ 30 →
  (∃ inst m', PINS_createInstance n m = Ok inst m' ∧ inst ≠ NULL ∧
              live_matrix (blocks m') inst n (inst + 1) (Mid inst n) (Cel inst n)) ∨
  (∃ m', PINS_createInstance n m = Ok NULL m' ∧ blocks m' = blocks m) ∨
  reads_indeterminate (PINS_createInstance n) m.
Proof.
  intros Hwf Hn.
  pose proof (wp_run _ _ _ _ (create_outcome n m Hwf Hn)) as H.
  unfold reads_indeterminate.
  destruct (PINS_createInstance n m) as [v m'|f m'].
  - destruct H as [[-> Hb]|[-> Hb]].
    + left. exists (next m), m'. split_and!; [done | |].
      * destruct Hwf as [Hpos _]. unfold NULL. lia.
      * apply (built_live n m m'); [done | lia | done].
    + right. left. by exists m'.
  - subst f. right. right. by exists m'.
Qed.

Lemma create_outcomes_witness :
  (∃ inst m', PINS_createInstance 1 (init_mem (fail_at 3)) = Ok inst m' ∧
              inst ≠ NULL ∧
              live_matrix (blocks m') inst 1 (inst + 1) (Mid inst 1) (Cel inst 1)) ∨
  (∃ m', PINS_createInstance 1 (init_mem (fail_at 3)) = Ok NULL m' ∧
         blocks m' = blocks (init_mem (fail_at 3))) ∨
  reads_indeterminate (PINS_createInstance 1) (init_mem (fail_at 3)).
Proof.
  apply (create_outcomes 1 (init_mem (fail_at 3))).
  - apply wf_init.
  - lia.
Defined.

(** X15: every outcome of [main].  Whatever the allocator answers,
    [main] returns 0 and leaves exactly the blocks that were live before
    it, or the rollback of its construction reads a pointer slot that was
    never written. *)
Theorem main_outcomes (m : mem) :
  wf_mem m →
  (∃ m', main m = Ok 0 m' ∧ blocks m' = blocks m) ∨
  reads_indeterminate main m.
Proof.
  intros Hwf.
  assert (Hn : 0 ≤ 6 < 2 ^ 30) by lia.
  pose proof (wp_run _ _ _ _ (create_outcome 6 m Hwf Hn)) as H.
  destruct (PINS_createInstance 6 m) as [inst m1|f1 m1] eqn:Hrun.
  - left. destruct H as [[-> Hb]|[-> Hb]].
    + destruct (main_of_built m m1 Hwf Hrun Hb) as (m3 & Hm & Hb3 & _).
      by exists m3.
    + exists m1. split; [|done].
      unfold main, mbind, M_bind, bind. by rewrite Hrun.
  - subst f1. right. exists m1.
    unfold main, mbind, M_bind, bind. by rewrite Hrun.
Qed.

Lemma main_outcomes_witness :
  (∃ m', main (init_mem (fail_at 29)) = Ok 0 m' ∧
         blocks m' = blocks (init_mem (fail_at 29))) ∨
  reads_indeterminate main (init_mem (fail_at 29)).
Proof.
  apply (main_outcomes (init_mem (fail_at 29))).
  apply wf_init.
Defined.
